(** * Client-side ingestion engine of YanheKt-AI: a shallow embedding

  The development follows [src/lib/ingestion.ts] (chunked upload,
  preflight, status polling), [src/components/Snackbar.tsx] (the task
  state machine fed by the callbacks of the upload) and [src/App.tsx]
  (the process-wide stage registry).

  JavaScript numbers that hold byte offsets and sizes are modelled as
  [Z], counts and segment indices as [nat], progress fractions as exact
  rationals [Q]; strings are [string]. Asynchronous code is modelled as
  a deterministic machine that reacts to the events of its environment
  (responses, timers, the user's cancel) and records what it emits. *)

From Stdlib Require Import ZArith QArith Qround Lia Ascii String.
From stdpp Require Import base list strings gmap pretty.

(** ** URLs *)

Module Url.

(** [/^https?:\/\//.test(url)] *)
Definition is_absolute (url : string) : bool :=
  String.prefix "http://" url || String.prefix "https://" url.

(** [base.replace(/\/$/, "")]: drop one trailing slash. *)
Fixpoint strip_trailing_slash (base : string) : string :=
  match base with
  | EmptyString => EmptyString
  | String c EmptyString =>
      if Ascii.eqb c "/"%char then EmptyString else String c EmptyString
  | String c rest => String c (strip_trailing_slash rest)
  end.

(** [path.startsWith("/")] *)
Definition starts_with_slash (path : string) : bool :=
  String.prefix "/" path.

Definition joinUrl (base path : string) : string :=
  strip_trailing_slash base
    +:+ (if starts_with_slash path then "" else "/") +:+ path.

(** [if (url && !/^https?:\/\//.test(url)) url = joinUrl(endpoint, url)]
    on an optional string; the empty string is falsy and left alone. *)
Definition absolutize (endpoint : string) (url : option string)
  : option string :=
  match url with
  | Some u =>
      if bool_decide (u = "") then Some u
      else if is_absolute u then Some u
      else Some (joinUrl endpoint u)
  | None => None
  end.

End Url.

(** ** Segment arithmetic *)

Module Segments.

Local Open Scope Z_scope.

(** [Math.ceil(tsBlob.size / partSize)], as a count. This is the value
    of the code for a positive part size and a size that is not
    negative; for a part size of 0 or below the code gets [NaN],
    [Infinity] or a negative number, which a count cannot hold, and the
    statements that name the count assume a positive part size. *)
Definition total (blob_size partSize : Z) : nat :=
  Z.to_nat (Qceiling (inject_Z blob_size / inject_Z partSize)).

(** [Array.from({ length: total }, (_, i) => i + 1)] *)
Definition indices (n : nat) : list nat := seq 1 n.

(** [Blob.slice(start, end)] returns the bytes of the half-open range
    below: negative offsets count from the end, offsets are clamped to
    the blob and an inverted range is empty. *)
Definition clamp (blob_size off : Z) : Z :=
  if off <? 0 then Z.max (blob_size + off) 0 else Z.min off blob_size.

Definition slice (blob_size start stop : Z) : Z * Z :=
  let s := clamp blob_size start in
  let e := clamp blob_size stop in
  (s, s + Z.max (e - s) 0).

(** The first lines of [uploadOne]:
    [start = (i - 1) * partSize], [end = Math.min(i * partSize, size)],
    [chunk = tsBlob.slice(start, end)]. *)
Definition chunk_start (partSize : Z) (i : nat) : Z :=
  (Z.of_nat i - 1) * partSize.

Definition chunk_end (blob_size partSize : Z) (i : nat) : Z :=
  Z.min (Z.of_nat i * partSize) blob_size.

Definition chunk (blob_size partSize : Z) (i : nat) : Z * Z :=
  slice blob_size (chunk_start partSize i) (chunk_end blob_size partSize i).

(** Byte [b] lies in the half-open range [r]. *)
Definition in_range (b : Z) (r : Z * Z) : Prop :=
  fst r <= b < snd r.

End Segments.

(** ** [startIngestion]: the upload machine *)

Module Ingestion.

(** Values a promise can reject with. *)
Inductive js_error :=
| AbortError                 (* DOMException named "AbortError" *)
| Error (message : string)   (* [new Error(message)] *)
| TypeError.                 (* what [fetch] rejects with when the network fails *)

(** What the environment answers to a request whose signal was not
    aborted. Bodies are taken to be well-formed JSON objects. *)
Inductive outcome (B : Type) :=
| Response (status : Z) (body : B)
| NetworkFailure.
Arguments Response {B} status body.
Arguments NetworkFailure {B}.

(** [res.ok] *)
Definition ok (status : Z) : bool :=
  ((200 <=? status) && (status <=? 299))%Z.

(** Body of the answer to [POST /api/ingestions]. *)
Record init_body := {
  init_uploadId : option string;
  init_exists : bool;
  init_downloadUrl : option string
}.

(** Body of the answer to [GET /api/ingestions/<id>/status]. [progress]
    is [None] when the field is missing, null or not a finite number. *)
Record status_body := {
  stage : string;
  progress : option Q;
  downloadUrl : option string;
  message : option string
}.

Inductive PreflightResp :=
| Exists (objectId : string) (downloadUrl rawUrl : option string)
| NotExists (objectId : string) (uploadId : option string).

(** What the promise of [startIngestion] resolves with. *)
Record result := {
  res_uploadId : option string;
  res_downloadUrl : option string
}.

(** The closure constants of one call. *)
Record config := {
  blob_size : Z;
  partSize : Z;
  concurrency : nat;
  endpoint : string;
  preflightResult : option PreflightResp
}.

(** What the machine emits, in order: requests, callback calls, timers,
    aborts of controllers, and the settling of the returned promise.
    [SegmentAcked] logs the line [uploaded++]. *)
Inductive out_event :=
| ReqInit (total : nat)
| ReqSegment (i : nat) (range : Z * Z)
| ReqComplete
| ReqStatus
| CtlAbort (i : nat)
| SegmentAcked (i : nat)
| OnUploadProgress (p : Q)
| OnServerStage (stage : string) (p : Q)
| SetTimeout (ms : Z)
| PromiseResolved (r : result)
| PromiseRejected (e : js_error).

(** One of the [concurrency] calls of [worker()], at its current [await].
    [tries] is the value of the variable after the [tries--] of the
    attempt under way. *)
Inductive worker :=
| Fetching (i tries : nat) (signal_aborted : bool)
| Backoff (i tries : nat)
| Finished
| Failed (e : js_error).

(** Where the body of the returned promise is waiting. *)
Inductive phase :=
| AwaitInit
| AwaitWorkers
| AwaitComplete
| AwaitStatus
| AwaitPollTimer
| Resolved (r : result)
| Rejected (e : js_error).

Record state := {
  aborted : bool;
  queue : list nat;
  uploaded : nat;
  uploadId : string;
  workers : list worker;
  main : phase;
  trace : list out_event
}.

(** What the environment does. *)
Inductive event :=
| Cancel
| InitSettled (r : outcome init_body)
| SegmentSettled (w : nat) (r : outcome unit)
| SegmentAborted (w : nat)
| RetryTimer (w : nat)
| CompleteSettled (r : outcome unit)
| StatusSettled (r : outcome status_body)
| PollTimer.

Definition emit (es : list out_event) (st : state) : state :=
  {| aborted := aborted st; queue := queue st; uploaded := uploaded st;
     uploadId := uploadId st; workers := workers st; main := main st;
     trace := trace st ++ es |}.

Definition set_main (p : phase) (st : state) : state :=
  {| aborted := aborted st; queue := queue st; uploaded := uploaded st;
     uploadId := uploadId st; workers := workers st; main := p;
     trace := trace st |}.

Definition set_queue (q : list nat) (st : state) : state :=
  {| aborted := aborted st; queue := q; uploaded := uploaded st;
     uploadId := uploadId st; workers := workers st; main := main st;
     trace := trace st |}.

Definition set_workers (ws : list worker) (st : state) : state :=
  {| aborted := aborted st; queue := queue st; uploaded := uploaded st;
     uploadId := uploadId st; workers := ws; main := main st;
     trace := trace st |}.

Definition set_uploadId (u : string) (st : state) : state :=
  {| aborted := aborted st; queue := queue st; uploaded := uploaded st;
     uploadId := u; workers := workers st; main := main st;
     trace := trace st |}.

Definition set_uploaded (n : nat) (st : state) : state :=
  {| aborted := aborted st; queue := queue st; uploaded := n;
     uploadId := uploadId st; workers := workers st; main := main st;
     trace := trace st |}.

Definition set_aborted (b : bool) (st : state) : state :=
  {| aborted := b; queue := queue st; uploaded := uploaded st;
     uploadId := uploadId st; workers := workers st; main := main st;
     trace := trace st |}.

Definition resolve (r : result) (st : state) : state :=
  emit [PromiseResolved r] (set_main (Resolved r) st).

Definition reject (e : js_error) (st : state) : state :=
  emit [PromiseRejected e] (set_main (Rejected e) st).

(** [uploaded / total] *)
Definition fraction (k n : nat) : Q :=
  inject_Z (Z.of_nat k) / inject_Z (Z.of_nat n).

Section Machine.

Variable cfg : config.

Definition total : nat := Segments.total (blob_size cfg) (partSize cfg).

(** [endpoint = (opts?.endpoint ?? ...).replace(/\/$/, "")] *)
Definition base : string := Url.strip_trailing_slash (endpoint cfg).

Definition chunk (i : nat) : Z * Z :=
  Segments.chunk (blob_size cfg) (partSize cfg) i.

(** The head of the retry loop of [uploadOne]:
    [while (tries--) { c = new AbortController(); controllers.add(c);
    fetch(..., { signal: c.signal }) ...]. [None] when the loop ends. *)
Definition attempt (i tries : nat) (st : state) : option worker * state :=
  match tries with
  | O => (None, st)
  | S t => (Some (Fetching i t false), emit [ReqSegment i (chunk i)] st)
  end.

(** [uploadOne(i)] up to its first [await]. *)
Definition uploadOne (i : nat) (st : state) : option worker * state :=
  if aborted st then (Some (Failed AbortError), st)
  else attempt i 3 st.

(** [while (queue.length) { const i = queue.shift()!; await uploadOne(i) }] *)
Fixpoint drain (q : list nat) (st : state) : worker * state :=
  match q with
  | [] => (Finished, set_queue [] st)
  | i :: q' =>
      match uploadOne i (set_queue q' st) with
      | (Some wk, st') => (wk, st')
      | (None, st') => drain q' st'
      end
  end.

Definition worker_loop (st : state) : worker * state :=
  drain (queue st) st.

(** The top of the polling loop:
    [if (aborted) throw new DOMException("Aborted", "AbortError")], then
    the status request. *)
Definition poll_top (st : state) : state :=
  if aborted st then reject AbortError st
  else emit [ReqStatus] (set_main AwaitStatus st).

(** [Promise.all] rejects with the first rejection. *)
Fixpoint first_failed (ws : list worker) : option js_error :=
  match ws with
  | [] => None
  | Failed e :: _ => Some e
  | _ :: ws' => first_failed ws'
  end.

Definition is_finished (wk : worker) : bool :=
  match wk with Finished => true | _ => false end.

(** The continuation of [await Promise.all(...)]: nothing while a worker
    is still running; on success the completion request of step D. *)
Definition promise_all (st : state) : state :=
  match main st with
  | AwaitWorkers =>
      match first_failed (workers st) with
      | Some e => reject e st
      | None =>
          if forallb is_finished (workers st)
          then emit [ReqComplete] (set_main AwaitComplete st)
          else st
      end
  | _ => st
  end.

(** [Array.from({ length: concurrency }, worker)]: each call of
    [worker()] runs up to its first [await] before the next one starts. *)
Fixpoint spawn (n : nat) (st : state) : state :=
  match n with
  | O => st
  | S n' =>
      let '(wk, st') := worker_loop st in
      spawn n' (set_workers (workers st' ++ [wk]) st')
  end.

(** Step C: the queue of indices, the workers, [Promise.all]. *)
Definition upload_phase (st : state) : state :=
  promise_all
    (spawn (concurrency cfg)
       (set_uploaded 0
          (set_queue (Segments.indices total) (set_main AwaitWorkers st)))).

(** The synchronous part of the call, up to the first [await]. *)
Definition startIngestion : state :=
  let st0 :=
    {| aborted := false; queue := []; uploaded := 0; uploadId := "";
       workers := []; main := AwaitInit; trace := [] |} in
  match preflightResult cfg with
  | Some (Exists _ url raw) =>
      match url with
      | Some u =>
          if bool_decide (u = "")
          then resolve {| res_uploadId := None; res_downloadUrl := raw |} st0
          else resolve {| res_uploadId := None; res_downloadUrl := Some u |} st0
      | None => resolve {| res_uploadId := None; res_downloadUrl := raw |} st0
      end
  | pre =>
      let uploadId :=
        match pre with
        | Some (NotExists _ (Some u)) => u
        | _ => ""
        end in
      if bool_decide (uploadId = "")
      then emit [ReqInit total] st0
      else upload_phase (set_uploadId uploadId st0)
  end.

(** [cancel()]. The calls of [abort] are listed in the order of the
    workers; the code walks the set of controllers in the order in which
    the requests were started. Only which calls are made is used below,
    not their order. *)
Definition abort_signal (wk : worker) : worker :=
  match wk with
  | Fetching i t _ => Fetching i t true
  | _ => wk
  end.

Definition abort_events (wk : worker) : list out_event :=
  match wk with
  | Fetching i _ false => [CtlAbort i]
  | _ => []
  end.

Definition cancel (st : state) : state :=
  emit (flat_map abort_events (workers st))
    (set_workers (map abort_signal (workers st)) (set_aborted true st)).

(** The answer to the init request. *)
Definition on_init (r : outcome init_body) (st : state) : state :=
  match r with
  | NetworkFailure => reject TypeError st
  | Response status body =>
      if negb (ok status)
      then reject (Error ("init failed: " +:+ pretty status)) st
      else if init_exists body
      then resolve {| res_uploadId := None;
                      res_downloadUrl :=
                        Url.absolutize base (init_downloadUrl body) |}
             (emit [OnServerStage "EXISTS" 1] st)
      else match init_uploadId body with
           | Some u =>
               if bool_decide (u = "")
               then reject (Error "server did not return uploadId") st
               else upload_phase (set_uploadId u st)
           | None => reject (Error "server did not return uploadId") st
           end
  end.

(** The [catch] of the retry loop, for worker [w] on segment [i]. *)
Definition on_attempt_failed (i tries : nat) (e : js_error) (st : state)
  : worker * state :=
  if aborted st then (Failed e, st)
  else if (tries <=? 0)%nat then (Failed e, st)
  else (Backoff i tries, emit [SetTimeout 400] st).

(** The [try] of the retry loop after the [await fetch]. *)
Definition on_segment (i tries : nat) (r : outcome unit) (st : state)
  : worker * state :=
  match r with
  | NetworkFailure => on_attempt_failed i tries TypeError st
  | Response status _ =>
      if negb (ok status)
      then on_attempt_failed i tries
             (Error ("segment " +:+ pretty i +:+ " http " +:+ pretty status)) st
      else
        let n := S (uploaded st) in
        worker_loop
          (emit [SegmentAcked i; OnUploadProgress (fraction n total)]
             (set_uploaded n st))
  end.

(** After the 400ms: back to the head of the retry loop. *)
Definition on_retry (i tries : nat) (st : state) : worker * state :=
  match attempt i tries st with
  | (Some wk, st') => (wk, st')
  | (None, st') => worker_loop st'
  end.

Definition put_worker (w : nat) (r : worker * state) : state :=
  promise_all (set_workers (<[w := fst r]> (workers (snd r))) (snd r)).

(** The answer to the completion request. *)
Definition on_complete (r : outcome unit) (st : state) : state :=
  match r with
  | NetworkFailure => reject TypeError st
  | Response status _ =>
      if negb (ok status)
      then reject (Error ("complete failed: " +:+ pretty status)) st
      else poll_top st
  end.

(** [Number(state.progress ?? 0)], then [Number.isFinite(p) ? p : 0] *)
Definition progress_of (body : status_body) : Q :=
  match progress body with Some p => p | None => 0 end.

(** [state.message || ""] *)
Definition message_of (body : status_body) : string :=
  match message body with Some m => m | None => "" end.

(** One iteration of the polling loop after its two [await]s. *)
Definition on_status (r : outcome status_body) (st : state) : state :=
  match r with
  | NetworkFailure => reject TypeError st
  | Response _ body =>
      let st1 := emit [OnServerStage (stage body) (progress_of body)] st in
      if bool_decide (stage body = "DONE")
      then resolve {| res_uploadId := Some (uploadId st);
                      res_downloadUrl :=
                        Url.absolutize base (downloadUrl body) |} st1
      else if bool_decide (stage body = "FAILED")
              || bool_decide (stage body = "UNKNOWN")
      then reject (Error ("server stage: " +:+ stage body +:+ " "
                            +:+ message_of body)) st1
      else emit [SetTimeout 1000] (set_main AwaitPollTimer st1)
  end.

(** One reaction of the machine. [None]: the event cannot happen in
    this state (nothing is waiting for it). *)
Definition step (st : state) (ev : event) : option state :=
  match ev with
  | Cancel => Some (cancel st)
  | InitSettled r =>
      match main st with
      | AwaitInit => Some (on_init r st)
      | _ => None
      end
  | SegmentSettled w r =>
      match workers st !! w with
      | Some (Fetching i t false) => Some (put_worker w (on_segment i t r st))
      | _ => None
      end
  | SegmentAborted w =>
      match workers st !! w with
      | Some (Fetching i t true) =>
          Some (put_worker w (on_attempt_failed i t AbortError st))
      | _ => None
      end
  | RetryTimer w =>
      match workers st !! w with
      | Some (Backoff i t) => Some (put_worker w (on_retry i t st))
      | _ => None
      end
  | CompleteSettled r =>
      match main st with
      | AwaitComplete => Some (on_complete r st)
      | _ => None
      end
  | StatusSettled r =>
      match main st with
      | AwaitStatus => Some (on_status r st)
      | _ => None
      end
  | PollTimer =>
      match main st with
      | AwaitPollTimer => Some (poll_top st)
      | _ => None
      end
  end.

(** A run: the events in the order they happen. *)
Fixpoint run (st : state) (evs : list event) : option state :=
  match evs with
  | [] => Some st
  | ev :: evs' =>
      match step st ev with
      | Some st' => run st' evs'
      | None => None
      end
  end.

Definition reachable (st : state) : Prop :=
  exists evs, run startIngestion evs = Some st.

(** *** Reading a trace *)

(** The segments acknowledged so far, in order. *)
Definition seg_acked (e : out_event) : list nat :=
  match e with SegmentAcked i => [i] | _ => [] end.

Definition acked (tr : list out_event) : list nat := flat_map seg_acked tr.

(** The segment index of every upload request, in order. *)
Definition seg_requested (e : out_event) : list nat :=
  match e with ReqSegment i _ => [i] | _ => [] end.

Definition requested (tr : list out_event) : list nat :=
  flat_map seg_requested tr.

(** How many upload requests were issued for segment [i]. *)
Definition attempts (i : nat) (tr : list out_event) : nat :=
  count_occ Nat.eq_dec (requested tr) i.

(** The values handed to [onUploadProgress], in order. *)
Definition seg_progress (e : out_event) : list Q :=
  match e with OnUploadProgress p => [p] | _ => [] end.

Definition progress_values (tr : list out_event) : list Q :=
  flat_map seg_progress tr.

(** The segment a worker is busy with. *)
Definition current (wk : worker) : list nat :=
  match wk with
  | Fetching i _ _ => [i]
  | Backoff i _ => [i]
  | _ => []
  end.

Definition active (ws : list worker) : list nat := flat_map current ws.

Definition is_failed (wk : worker) : bool :=
  match wk with Failed _ => true | _ => false end.

Definition no_failure (ws : list worker) : Prop :=
  Forall (fun wk => is_failed wk = false) ws.

(** The retry budget left to a worker matches the requests issued for
    its segment. *)
Definition tries_ok (tr : list out_event) (wk : worker) : Prop :=
  match wk with
  | Fetching i t _ => (attempts i tr + t = 3)%nat /\ (t <= 2)%nat
  | Backoff i t => (attempts i tr + t = 3)%nat /\ (1 <= t)%nat
  | _ => True
  end.

(** The bookkeeping of step C: every index is in one place only, the
    counter counts the acknowledgments, the progress values are the
    fractions [1/N .. uploaded/N], and no segment is requested more than
    three times. *)
Record core (q : list nat) (ws : list worker) (tr : list out_event)
    (up : nat) : Prop := {
  core_nodup : NoDup (q ++ active ws ++ acked tr);
  core_range : forall i, i ∈ q ++ active ws ++ acked tr ->
               i ∈ Segments.indices total;
  core_all : no_failure ws ->
             q ++ active ws ++ acked tr ≡ₚ Segments.indices total;
  core_count : up = length (acked tr);
  core_progress : progress_values tr
                  = map (fun k => fraction k total) (seq 1 up);
  core_fresh : forall i, i ∈ q -> attempts i tr = 0%nat;
  core_tries : Forall (tries_ok tr) ws;
  core_bound : forall i, (attempts i tr <= 3)%nat;
  core_shape : forall i r, ReqSegment i r ∈ tr ->
               r = chunk i /\ i ∈ Segments.indices total;
  core_drained : Finished ∈ ws -> q = [];
  core_acked : forall i, i ∈ acked tr -> (1 <= attempts i tr)%nat
}.

(** Before step C nothing about segments has happened. *)
Definition quiet (st : state) : Prop :=
  workers st = [] /\ queue st = [] /\ uploaded st = 0%nat
  /\ acked (trace st) = [] /\ requested (trace st) = []
  /\ progress_values (trace st) = []
  /\ (ReqComplete ∉ trace st)
  /\ (main st = AwaitInit \/ (exists r, main st = Resolved r)
      \/ (exists e, main st = Rejected e)).

(** From step C on. *)
Definition uploading (st : state) : Prop :=
  core (queue st) (workers st) (trace st) (uploaded st)
  /\ main st <> AwaitInit
  /\ length (workers st) = concurrency cfg
  /\ (main st = AwaitWorkers ->
      no_failure (workers st) /\ (ReqComplete ∉ trace st))
  /\ (ReqComplete ∈ trace st ->
      Forall (fun wk => wk = Finished) (workers st)).

Definition invariant (st : state) : Prop := quiet st \/ uploading st.

(** What the machine has set up around [Promise.all], before the
    continuation of the [await] is looked at. *)
Definition settled (st : state) : Prop :=
  core (queue st) (workers st) (trace st) (uploaded st)
  /\ main st <> AwaitInit
  /\ length (workers st) = concurrency cfg
  /\ (main st = AwaitWorkers -> ReqComplete ∉ trace st)
  /\ (ReqComplete ∈ trace st ->
      Forall (fun wk => wk = Finished) (workers st)).

(** The error that the [try] block of [uploadOne] raises on an answer,
    if any. *)
Definition attempt_error (i : nat) (r : outcome unit) : option js_error :=
  match r with
  | NetworkFailure => Some TypeError
  | Response status _ =>
      if ok status then None
      else Some (Error ("segment " +:+ pretty i +:+ " http " +:+ pretty status))
  end.

(** The events of a poller that receives the answers [rs] (status
    code and body), one per request: the answer, then the timer before
    the next request. *)
Definition poll_script (rs : list (Z * status_body)) : list event :=
  flat_map (fun r => [StatusSettled (Response (fst r) (snd r)); PollTimer]) rs.

(** What the polling loop emits on these answers when none of them ends
    it. *)
Definition poll_trace (rs : list (Z * status_body)) : list out_event :=
  flat_map (fun r => [OnServerStage (stage (snd r)) (progress_of (snd r));
                      SetTimeout 1000; ReqStatus]) rs.

(** The promise is not settled yet. *)
Definition is_pending (p : phase) : bool :=
  match p with
  | Resolved _ => false
  | Rejected _ => false
  | _ => true
  end.

(** Emissions that start nothing new: no status request, and no upload
    request except those listed in [retries]. *)
Definition starts_nothing (retries : list nat) (es : list out_event) : Prop :=
  (ReqStatus ∉ es) /\ forall i r, ReqSegment i r ∈ es -> i ∈ retries.

(** A stage on which the polling loop ends. *)
Definition terminal (s : string) : bool :=
  bool_decide (s = "DONE") || bool_decide (s = "FAILED")
  || bool_decide (s = "UNKNOWN").

End Machine.

End Ingestion.

(** ** The task state machine of [Snackbar.tsx] *)

Module Snackbar.

Inductive video_type := Vga | MainVideo.

Record DownloadTask := {
  courseId : string;
  courseName : string;
  courseTitle : string;
  videoType : video_type;
  autoTranscode : bool
}.

Inductive waiting_type := W_check | W_download | W_upload | W_transcode | W_server.

Inductive error_type := E_download | E_upload | E_transcode | E_cancelled.

Inductive TaskSnackbarState :=
| Waiting (type : waiting_type) (label : option string)
| Downloading (progress : Q)
| Uploading (progress : Q)
| Transcoding (progress : Q)
| Finished (blobUrl : string)
| Error (type : error_type) (message : string).

(** Body of the answer to the preflight [POST /api/ingestions]. *)
Record preflight_body := {
  pre_exists : bool;
  pre_objectId : string;
  pre_downloadUrl : option string;
  pre_rawUrl : option string;
  pre_uploadId : option string
}.

(** [data.downloadUrl ? (/^https?:\/\//.test(u) ? u : joinUrl(endpoint, u))
    : undefined] *)
Definition preflight_url (endpoint : string) (u : option string)
  : option string :=
  match u with
  | Some u =>
      if bool_decide (u = "") then None
      else Some (if Url.is_absolute u then u else Url.joinUrl endpoint u)
  | None => None
  end.

(** [preflightIngestion]: the stages it reports and what it returns or
    throws, from the answer to its one request. *)
Definition preflightIngestion (endpoint : string)
    (r : Ingestion.outcome preflight_body)
  : list (string * Q) * (Ingestion.js_error + Ingestion.PreflightResp) :=
  let endpoint := Url.strip_trailing_slash endpoint in
  match r with
  | Ingestion.NetworkFailure => ([], inl Ingestion.TypeError)
  | Ingestion.Response status data =>
      if negb (Ingestion.ok status)
      then ([], inl (Ingestion.Error ("preflight failed: " +:+ pretty status)))
      else if pre_exists data
      then ([("EXISTS", 1%Q)],
            inr (Ingestion.Exists (pre_objectId data)
                   (preflight_url endpoint (pre_downloadUrl data))
                   (preflight_url endpoint (pre_rawUrl data))))
      else ([("NOT_EXISTS", 0%Q)],
            inr (Ingestion.NotExists (pre_objectId data) (pre_uploadId data)))
  end.

(** The [onServerStage] callback that [run] passes to the preflight. *)
Definition preflight_onServerStage (stage : string)
  : list TaskSnackbarState :=
  if bool_decide (stage = "EXISTS")
  then [Waiting W_check (Some "已存在，直接可洞悉")]
  else if bool_decide (stage = "NOT_EXISTS")
  then [Waiting W_check (Some "未存在，准备下载")]
  else [].

(** [pre.downloadUrl ?? pre.rawUrl ?? ""] *)
Definition exists_link (url raw : option string) : string :=
  match url with
  | Some u => u
  | None => match raw with Some u => u | None => "" end
  end.

(** What [run] does with the preflight result: the calls of [setState]
    it makes at once, and whether the download and the server pipeline
    are still to come. An error thrown here is swallowed by the [catch]
    of [run], which sets no state. *)
Inductive branch :=
| Skip          (* [return] after the short cut *)
| Throws (e : Ingestion.js_error)
| Proceeds.     (* on to [startDownloading] and [startServerPipeline] *)

Definition on_preflight (pre : Ingestion.PreflightResp)
  : list TaskSnackbarState * branch :=
  match pre with
  | Ingestion.Exists _ url raw =>
      let link := exists_link url raw in
      if bool_decide (link = "")
      then ([], Throws (Ingestion.Error "server returned exists but no url"))
      else ([Finished link], Skip)
  | Ingestion.NotExists _ _ => ([], Proceeds)
  end.

(** The states [run] sets from [setState({status: "waiting", type:
    "check"})] up to the decision taken on the preflight result. *)
Definition run_preflight (endpoint : string)
    (r : Ingestion.outcome preflight_body)
  : list TaskSnackbarState * branch :=
  let '(stages, res) := preflightIngestion endpoint r in
  let reported := flat_map (fun sp => preflight_onServerStage (fst sp)) stages in
  match res with
  | inl e => (Waiting W_check None :: reported, Throws e)
  | inr pre =>
      (Waiting W_check None :: reported ++ fst (on_preflight pre),
       snd (on_preflight pre))
  end.

(** The [onServerStage] callback of [startServerPipeline]. *)
Definition pipeline_onServerStage (stage : string) (prog : Q)
  : list TaskSnackbarState :=
  if bool_decide (stage = "QUEUED")
  then [Waiting W_server (Some "排队中")]
  else if bool_decide (stage = "MERGING") || bool_decide (stage = "TRANSCODING")
  then [Transcoding prog]
  else if bool_decide (stage = "DONE")
  then [Transcoding 1]
  else [].

(** The calls of [setState] that one emission of [startIngestion]
    causes in [startServerPipeline]: through [onUploadProgress], through
    [onServerStage], after [await promise], or in the [catch]. *)
Definition pipeline_observe (e : Ingestion.out_event)
  : list TaskSnackbarState :=
  match e with
  | Ingestion.OnUploadProgress p => [Uploading p]
  | Ingestion.OnServerStage stage prog => pipeline_onServerStage stage prog
  | Ingestion.PromiseResolved res =>
      [Finished (match Ingestion.res_downloadUrl res with
                 | Some u => u
                 | None => ""
                 end)]
  | Ingestion.PromiseRejected Ingestion.AbortError =>
      [Error E_cancelled "已取消"]
  | Ingestion.PromiseRejected _ =>
      [Error E_transcode "服务器处理失败"]
  | _ => []
  end.

(** The stage strings forwarded to [props.onStageChange]. *)
Definition pipeline_reports (e : Ingestion.out_event) : list string :=
  match e with
  | Ingestion.OnServerStage stage _ => [stage]
  | _ => []
  end.

(** All states set by [startServerPipeline] for a trace of the upload. *)
Definition startServerPipeline (tr : list Ingestion.out_event)
  : list TaskSnackbarState :=
  [Waiting W_upload None; Uploading 0] ++ flat_map pipeline_observe tr.

(** *** The second pipeline: [startInsightFlow] *)

(** Body of the answer to [GET /api/insights/<id>/status]; [None] for a
    missing field. *)
Record insight_body := {
  ins_stage : option string;
  ins_progress : option Q;
  ins_message : option string
}.

(** [(data.stage as string) || "UNKNOWN"] *)
Definition insight_stage (data : insight_body) : string :=
  match ins_stage data with
  | Some s => if bool_decide (s = "") then "UNKNOWN" else s
  | None => "UNKNOWN"
  end.

(** [Number(data.progress ?? 0)] *)
Definition insight_progress (data : insight_body) : Q :=
  match ins_progress data with Some p => p | None => 0 end.

(** [Math.round(prog * 100)], on the exact product; the code rounds the
    product of doubles, which can fall on the other side of a half (28
    for 0.285, where the exact product gives 29). *)
Definition percent (prog : Q) : Z := Qfloor (prog * 100 + (1 # 2)).

(** [data.message || "洞悉失败"] *)
Definition insight_message (data : insight_body) : string :=
  match ins_message data with
  | Some m => if bool_decide (m = "") then "洞悉失败" else m
  | None => "洞悉失败"
  end.

(** How one pass through the loop ends. *)
Inductive verdict := Continue | Succeeded | GaveUp.

(** The chain of [if]s that maps a stage to a state. *)
Definition insight_observe (url : string) (data : insight_body)
  : TaskSnackbarState * verdict :=
  let stage := insight_stage data in
  if bool_decide (stage = "CHECK")
  then (Waiting W_server (Some "检查历史记录..."), Continue)
  else if bool_decide (stage = "OSS_UPLOAD")
  then (Waiting W_server (Some "上传 OSS..."), Continue)
  else if bool_decide (stage = "OSS_CLEAN")
  then (Waiting W_server (Some "清理 OSS..."), Continue)
  else if bool_decide (stage = "AI_SUBMIT")
  then (Waiting W_server (Some "提交听悟..."), Continue)
  else if bool_decide (stage = "AI_POLL")
  then (Waiting W_server
          (Some ("听悟解析中（" +:+ pretty (percent (insight_progress data))
                   +:+ "%）...")), Continue)
  else if bool_decide (stage = "ES_INDEX")
  then (Waiting W_server (Some "构建知识卡片/入索引..."), Continue)
  else if bool_decide (stage = "DONE")
  then (Finished url, Succeeded)
  else if bool_decide (stage = "FAILED") || bool_decide (stage = "UNKNOWN")
  then (Error E_transcode (insight_message data), GaveUp)
  else (Waiting W_server (Some "服务器处理中..."), Continue).

(** What the loop of [startInsightFlow] shows. *)
Inductive insight_emit :=
| StageChange (stage : string)        (* [props.onStageChange(stage)] *)
| SetState (s : TaskSnackbarState)
| Sleep (ms : Z)                      (* before the next request *)
| InsightStatus.                      (* the status request *)

(** The polling loop of [startInsightFlow] against the answers [rs] of
    the status endpoint, taken in order: what it emits, and [true] when
    it has ended (by [break], [return] or the outer [catch]) within
    [rs]. *)
Fixpoint insight_poll (url : string)
    (rs : list (Ingestion.outcome insight_body))
  : list insight_emit * bool :=
  match rs with
  | [] => ([InsightStatus], false)
  | r :: rs' =>
      match r with
      | Ingestion.NetworkFailure =>
          ([InsightStatus; SetState (Error E_transcode "服务器处理失败")], true)
      | Ingestion.Response status data =>
          if negb (Ingestion.ok status)
          then ([InsightStatus;
                 SetState (Error E_transcode "服务器处理失败")], true)
          else
            let '(s, v) := insight_observe url data in
            match v with
            | Continue =>
                let '(es, fin) := insight_poll url rs' in
                (InsightStatus :: StageChange (insight_stage data)
                   :: SetState s :: Sleep 1000 :: es, fin)
            | _ =>
                ([InsightStatus; StageChange (insight_stage data); SetState s],
                 true)
            end
      end
  end.





End Snackbar.

(** ** The stage registry of [App.tsx] *)

Module App.

(** [handleStageChange(index, stage)] as the update of the [stages]
    map; [tasks] is the store at the time of the call. A missing task
    and an empty title are falsy and leave the map alone. *)
Definition handleStageChange (tasks : list Snackbar.DownloadTask)
    (index : nat) (stage : string) (stages : gmap string string)
  : gmap string string :=
  match tasks !! index with
  | Some task =>
      let title := Snackbar.courseTitle task in
      if bool_decide (title = "") then stages
      else if bool_decide (stages !! title = Some "DONE") then stages
      else <[title := stage]> stages
  | None => stages
  end.

(** A stage report as it reaches the registry. *)
Record report := {
  rep_tasks : list Snackbar.DownloadTask;
  rep_index : nat;
  rep_stage : string
}.

Definition apply_report (stages : gmap string string) (r : report)
  : gmap string string :=
  handleStageChange (rep_tasks r) (rep_index r) (rep_stage r) stages.

Definition apply_reports (stages : gmap string string) (rs : list report)
  : gmap string string :=
  foldl apply_report stages rs.

(** Two tasks on the same course title, and a third on another. *)
Definition lecture : Snackbar.DownloadTask :=
  {| Snackbar.courseId := "42"; Snackbar.courseName := "OS";
     Snackbar.courseTitle := "Lecture 1"; Snackbar.videoType := Snackbar.Vga;
     Snackbar.autoTranscode := true |}.

Definition lecture2 : Snackbar.DownloadTask :=
  {| Snackbar.courseId := "42"; Snackbar.courseName := "OS";
     Snackbar.courseTitle := "Lecture 2"; Snackbar.videoType := Snackbar.Vga;
     Snackbar.autoTranscode := true |}.

End App.

(** ** Concrete runs *)

Module Examples.

Import Ingestion.

(** Five bytes in parts of two, two workers, no preflight. *)
Definition cfg5 : config :=
  {| blob_size := 5; partSize := 2; concurrency := 2;
     endpoint := "http://127.0.0.1:5000"; preflightResult := None |}.

Definition accepted : outcome unit := Response 200 tt.

Definition refused : outcome unit := Response 500 tt.

Definition init_ok (u : string) : outcome init_body :=
  Response 200 {| init_uploadId := Some u; init_exists := false;
                  init_downloadUrl := None |}.

Definition status (s : string) (p : option Q) (msg : option string)
  : status_body :=
  {| stage := s; progress := p;
     downloadUrl := Some "/api/download/0123456789abcdef"; message := msg |}.

Definition after (cfg : config) (evs : list event) : state :=
  match run cfg (startIngestion cfg) evs with
  | Some st => st
  | None => startIngestion cfg
  end.

(** The whole upload, with one refused attempt that is retried. *)
Definition upload5 : list event :=
  [InitSettled (init_ok "u1"); SegmentSettled 1 accepted;
   SegmentSettled 0 refused; RetryTimer 0; SegmentSettled 1 accepted;
   SegmentSettled 0 accepted].

(** One byte, one worker: the single segment is refused twice. *)
Definition cfg1 : config :=
  {| blob_size := 1; partSize := 1; concurrency := 1;
     endpoint := "http://127.0.0.1:5000"; preflightResult := None |}.

(** Of two workers the first uses up its three attempts on segment 1
    while the second still waits for the answer on segment 2. *)
Definition first_worker_fails : list event :=
  [InitSettled (init_ok "u1"); SegmentSettled 0 refused; RetryTimer 0;
   SegmentSettled 0 refused; RetryTimer 0; SegmentSettled 0 refused].

(** The call reuses the upload id of the preflight. *)
Definition cfg_reuse : config :=
  {| blob_size := 5; partSize := 2; concurrency := 2;
     endpoint := "http://127.0.0.1:5000";
     preflightResult := Some (NotExists "0123456789abcdef" (Some "u7")) |}.

Definition refused_twice : list event :=
  [InitSettled (init_ok "u1"); SegmentSettled 0 refused; RetryTimer 0;
   SegmentSettled 0 refused; RetryTimer 0].


(** The upload is done; [cancel()] is then called while the first
    status request is in flight, and the answer is DONE. *)
Definition uploaded1 : list event :=
  [InitSettled (init_ok "u1"); SegmentSettled 0 accepted;
   CompleteSettled accepted].

Definition done_late : list event :=
  [StatusSettled (Response 200 (status "DONE" (Some 1%Q) None))].


Definition boom : status_body := status "FAILED" None (Some "boom").

Definition insight_foo : Z * Snackbar.insight_body :=
  (200%Z, {| Snackbar.ins_stage := Some "FOO"; Snackbar.ins_progress := None;
             Snackbar.ins_message := None |}).

Definition insight_boom : Snackbar.insight_body :=
  {| Snackbar.ins_stage := Some "FAILED"; Snackbar.ins_progress := None;
     Snackbar.ins_message := Some "boom" |}.

(** A preflight answer that says the content exists and gives no link. *)
Definition exists_no_link : outcome Snackbar.preflight_body :=
  Response 200
    {| Snackbar.pre_exists := true; Snackbar.pre_objectId := "0123456789abcdef";
       Snackbar.pre_downloadUrl := None; Snackbar.pre_rawUrl := None;
       Snackbar.pre_uploadId := None |}.

Definition exists_with_link : outcome Snackbar.preflight_body :=
  Response 200
    {| Snackbar.pre_exists := true; Snackbar.pre_objectId := "0123456789abcdef";
       Snackbar.pre_downloadUrl := Some "/api/download/0123456789abcdef";
       Snackbar.pre_rawUrl := None; Snackbar.pre_uploadId := None |}.

(** The call made with a preflight result that says the content exists. *)
Definition cfg_exists : config :=
  {| blob_size := 5; partSize := 2; concurrency := 2;
     endpoint := "http://127.0.0.1:5000";
     preflightResult :=
       Some (Exists "0123456789abcdef"
               (Some "http://127.0.0.1:5000/api/download/0123456789abcdef")
               None) |}.

(** The scripted poller sequence
    QUEUED, MERGING, TRANSCODING(0.3), TRANSCODING(0.9), DONE. *)
Definition scripted : list (Z * status_body) :=
  [(200%Z, status "QUEUED" None None);
   (200%Z, status "MERGING" None None);
   (200%Z, status "TRANSCODING" (Some (3 # 10)) None);
   (200%Z, status "TRANSCODING" (Some (9 # 10)) None)].

Definition scripted_events : list event :=
  poll_script scripted
    ++ [StatusSettled (Response 200 (status "DONE" (Some 1%Q) None))].

(** What the task shows from the moment the upload is complete: the
    states set on the emissions that follow those of [evs]. *)
Definition shown_after (cfg : config) (evs evs' : list event)
  : list Snackbar.TaskSnackbarState :=
  flat_map Snackbar.pipeline_observe
    (drop (length (trace (after cfg evs))) (trace (after cfg (evs ++ evs')))).

End Examples.

(** ** More observations on the upload machine *)

Module Observe.

Import Ingestion.

Definition is_fetching (wk : worker) : bool :=
  match wk with Fetching _ _ _ => true | _ => false end.

(** The segment uploads in flight: one per worker that awaits its
    [fetch]. *)
Definition in_flight (ws : list worker) : nat :=
  length (List.filter is_fetching ws).

(** What the workers emit: upload requests, acknowledgments, progress
    calls and the 400ms timer. *)
Definition segment_event (e : out_event) : bool :=
  match e with
  | ReqSegment _ _ => true
  | SegmentAcked _ => true
  | OnUploadProgress _ => true
  | SetTimeout _ => true
  | _ => false
  end.

(** Steps D and E: the completion request is out. *)
Definition polling (p : phase) : bool :=
  match p with
  | AwaitComplete => true
  | AwaitStatus => true
  | AwaitPollTimer => true
  | _ => false
  end.

(** What a worker does between two [await]s, seen from outside. *)
Definition frame (st st1 : state) : Prop :=
  main st1 = main st /\ aborted st1 = aborted st
  /\ uploadId st1 = uploadId st
  /\ exists es, trace st1 = trace st ++ es
                /\ forallb segment_event es = true.

(** What one reaction of the machine can change. *)
Definition step_facts (st st' : state) : Prop :=
  (aborted st = true -> aborted st' = true)
  /\ (main st <> AwaitInit ->
      main st' <> AwaitInit /\ uploadId st' = uploadId st)
  /\ (main st' = AwaitStatus ->
      main st = AwaitStatus \/ aborted st = false)
  /\ (forall r, main st' = Resolved r ->
        main st = Resolved r
        \/ (main st = AwaitStatus /\ res_uploadId r = Some (uploadId st))
        \/ (main st = AwaitInit /\ res_uploadId r = None))
  /\ exists es,
       trace st' = trace st ++ es
       /\ (forall n, ReqInit n ∉ es)
       /\ (ReqStatus ∈ es -> polling (main st) = true)
       /\ (polling (main st') = true ->
           polling (main st) = true \/ ReqComplete ∈ es).

(** The state kept by a cancelled call that is neither waiting for the
    init answer nor for a status answer. *)
Definition cancelled_for_good (st : state) : Prop :=
  aborted st = true /\ main st <> AwaitInit /\ main st <> AwaitStatus
  /\ forall r, main st <> Resolved r.

(** The call was started with an upload id [u] from the preflight. *)
Definition reuses (u : string) (st : state) : Prop :=
  main st <> AwaitInit /\ uploadId st = u
  /\ (forall n, ReqInit n ∉ trace st)
  /\ forall r, main st = Resolved r -> res_uploadId r = Some u.

(** The order of the pipeline on a trace. *)
Definition in_order (st : state) : Prop :=
  (polling (main st) = true -> ReqComplete ∈ trace st)
  /\ (ReqStatus ∈ trace st -> ReqComplete ∈ trace st).

End Observe.

(** ** The rest of [Snackbar.tsx]: the second pipeline *)

Module Insight.

(** [[a-f0-9]] under the [i] flag. *)
Definition is_hex (c : ascii) : bool :=
  let n := nat_of_ascii c in
  ((48 <=? n) && (n <=? 57)) || ((97 <=? n) && (n <=? 102))
  || ((65 <=? n) && (n <=? 70)).

(** The lower-case form of an ASCII letter; other characters are left
    alone. *)
Definition lower (c : ascii) : ascii :=
  let n := nat_of_ascii c in
  if (65 <=? n) && (n <=? 90) then ascii_of_nat (n + 32) else c.

Fixpoint lower_string (s : string) : string :=
  match s with
  | EmptyString => EmptyString
  | String c rest => String (lower c) (lower_string rest)
  end.

(** The literal [pat] (given in lower case) at the head of [s], letters
    compared without case; what follows it. *)
Fixpoint literal (pat s : string) : option string :=
  match pat with
  | EmptyString => Some s
  | String p pat' =>
      match s with
      | EmptyString => None
      | String c rest =>
          if Ascii.eqb (lower c) p then literal pat' rest else None
      end
  end.

(** [[a-f0-9]{n}] at the head of [s]: the digits. *)
Fixpoint hex_digits (n : nat) (s : string) : option string :=
  match n with
  | O => Some EmptyString
  | S n' =>
      match s with
      | EmptyString => None
      | String c rest =>
          if is_hex c
          then match hex_digits n' rest with
               | Some ds => Some (String c ds)
               | None => None
               end
          else None
      end
  end.

(** [/\/api\/download\/([a-f0-9]{16})/i] matched at the head of [s]. *)
Definition match_here (s : string) : option string :=
  match literal "/api/download/" s with
  | Some rest => hex_digits 16 rest
  | None => None
  end.

(** [url.match(/\/api\/download\/([a-f0-9]{16})/i)?.[1]]: the group of
    the leftmost match. The pattern is ASCII, so bytes and UTF-16 code
    units agree on where it matches. *)
Fixpoint extractObjectIdFromUrl (url : string) : option string :=
  match match_here url with
  | Some id => Some id
  | None =>
      match url with
      | EmptyString => None
      | String _ rest => extractObjectIdFromUrl rest
      end
  end.

Fixpoint all_hex (s : string) : bool :=
  match s with
  | EmptyString => true
  | String c rest => is_hex c && all_hex rest
  end.

(** What [startInsightFlow] does, in order. *)
Inductive flow_emit :=
| FlowSetState (s : Snackbar.TaskSnackbarState)
| FlowCreate (objectId : string)          (* [POST /api/insights] *)
| FlowLoop (e : Snackbar.insight_emit).   (* the polling loop *)

(** [startInsightFlow], started from Finished{blobUrl := url}, against
    the answer [create] to the create request and the answers [rs] to
    the status requests. Every error thrown inside lands in the one
    [catch], which sets the fixed text. *)
Definition startInsightFlow (url : string) (create : Ingestion.outcome unit)
    (rs : list (Ingestion.outcome Snackbar.insight_body))
  : list flow_emit :=
  match extractObjectIdFromUrl url with
  | None =>
      [FlowSetState
         (Snackbar.Error Snackbar.E_transcode "未能解析视频标识（objectId）")]
  | Some objectId =>
      FlowSetState (Snackbar.Waiting Snackbar.W_server (Some "启动洞悉..."))
      :: FlowCreate objectId
      :: match create with
         | Ingestion.NetworkFailure =>
             [FlowSetState
                (Snackbar.Error Snackbar.E_transcode "服务器处理失败")]
         | Ingestion.Response status _ =>
             if negb (Ingestion.ok status)
             then [FlowSetState
                     (Snackbar.Error Snackbar.E_transcode "服务器处理失败")]
             else map FlowLoop (fst (Snackbar.insight_poll url rs))
         end
  end.

(** The states the flow sets, in order. *)
Definition flow_state (e : flow_emit) : list Snackbar.TaskSnackbarState :=
  match e with
  | FlowSetState s => [s]
  | FlowLoop (Snackbar.SetState s) => [s]
  | _ => []
  end.

(** The requests the flow issues. *)
Definition flow_request (e : flow_emit) : bool :=
  match e with
  | FlowCreate _ => true
  | FlowLoop Snackbar.InsightStatus => true
  | _ => false
  end.

(** [true] when the flow has come to its end on these answers. *)
Definition flow_ended (url : string) (create : Ingestion.outcome unit)
    (rs : list (Ingestion.outcome Snackbar.insight_body)) : bool :=
  match extractObjectIdFromUrl url with
  | None => true
  | Some _ =>
      match create with
      | Ingestion.NetworkFailure => true
      | Ingestion.Response status _ =>
          negb (Ingestion.ok status) || snd (Snackbar.insight_poll url rs)
      end
  end.

(** The states the flow may show for the task it started from, and the
    ones it may end in. *)
Definition flow_shape (url : string) (s : Snackbar.TaskSnackbarState)
  : Prop :=
  (exists label, s = Snackbar.Waiting Snackbar.W_server label)
  \/ s = Snackbar.Finished url
  \/ (exists m, s = Snackbar.Error Snackbar.E_transcode m).

Definition flow_final (url : string) (s : Snackbar.TaskSnackbarState)
  : Prop :=
  s = Snackbar.Finished url
  \/ (exists m, s = Snackbar.Error Snackbar.E_transcode m).

(** [prettyWaitingText] *)
Definition prettyWaitingText (type : Snackbar.waiting_type)
    (label : option string) : string :=
  match type with
  | Snackbar.W_check =>
      match label with Some l => l | None => "检查是否已存在..." end
  | Snackbar.W_download => "等待下载..."
  | Snackbar.W_upload => "等待上传..."
  | Snackbar.W_transcode => "等待转码..."
  | Snackbar.W_server =>
      match label with
      | Some l =>
          if bool_decide (l = "") then "服务器处理中..."
          else "服务器处理中（" +:+ l +:+ "）..."
      | None => "服务器处理中..."
      end
  end.

(** A field of the answer that holds a non-empty string. *)
Definition given (o : option string) : Prop :=
  exists u, o = Some u /\ u <> "".

End Insight.

(** ** The rest of [App.tsx] and [Button.tsx] *)

Module Tasks.

(** [addTask]: [setTasks(tasks.length, task)] *)
Definition addTask (tasks : list Snackbar.DownloadTask)
    (task : Snackbar.DownloadTask) : list Snackbar.DownloadTask :=
  tasks ++ [task].

(** [deleteTask]: [tasks.splice(index, 1)]; an index past the end removes
    nothing. *)
Definition deleteTask (tasks : list Snackbar.DownloadTask) (index : nat)
  : list Snackbar.DownloadTask :=
  delete index tasks.

(** [restartTask]; [None] when there is no task at [index] (the code
    would then store [undefined]). *)
Definition restartTask (tasks : list Snackbar.DownloadTask) (index : nat)
  : option (list Snackbar.DownloadTask) :=
  match tasks !! index with
  | Some task => Some (addTask (deleteTask tasks index) task)
  | None => None
  end.

(** The guard of [onClick] in [App]: [true] when the panel is shown. *)
Definition opens_panel (stages : gmap string string) (courseTitle : string)
  : bool :=
  negb (bool_decide (stages !! courseTitle = Some "DONE")).

(** [Button.tsx]: [stage = title ? props.stages.get(title) : undefined],
    the text and the [disabled] attribute of the button. *)
Definition button_stage (stages : gmap string string) (title : string)
  : option string :=
  if bool_decide (title = "") then None else stages !! title.

Definition isDone (stage : option string) : bool :=
  bool_decide (stage = Some "DONE").

Definition button_text (stage : option string) : string :=
  if isDone stage then "洞悉完成" else "开始洞悉".

(** The registry after the stages that [startServerPipeline] forwards
    for a trace of the upload, reported by the task at [index]. *)
Definition registry_after (tasks : list Snackbar.DownloadTask) (index : nat)
    (stages : gmap string string) (tr : list Ingestion.out_event)
  : gmap string string :=
  foldl (fun m s => App.handleStageChange tasks index s m) stages
    (flat_map Snackbar.pipeline_reports tr).

End Tasks.

(** * The task from its start to the upload: [run] *)

Module Run.

Import Snackbar.

(** What [run] reads of a [CourseVideo] of [lib/course] and of the first
    of its videos. A missing [videos] behaves as an empty list
    ([match.videos?.[0]]), a missing [vga] as [None]. *)
Record video_detail := {
  vd_id : Z;
  vd_format : string;
  vd_vga : option string
}.

Record CourseVideo := {
  cv_id : Z;
  cv_title : string;
  cv_started_at : string;
  cv_videos : list video_detail
}.

(** [metaForId] *)
Record meta := {
  videoId : Z;
  sessionId : Z;
  startedAt : string
}.

(** [resolveVideoUrlVGAOnly]. [cache] is the module-level
    [courseVideos], [fetched] what [fetchCourseVideos] answers when it is
    asked ([None]: it throws). The result: the states set, [courseVideos]
    afterwards, and the url with [metaForId], or [None] when the function
    throws. After a failed fetch [courseVideos] is still undefined and
    [courseVideos.find] throws. *)
Definition resolveVideoUrlVGAOnly (cache fetched : option (list CourseVideo))
    (task : DownloadTask)
  : list TaskSnackbarState * option (list CourseVideo)
    * option (string * meta) :=
  let '(shown, videos) :=
    match cache with
    | Some vs => ([], Some vs)
    | None =>
        match fetched with
        | Some vs => ([], Some vs)
        | None => ([Error E_download "获取课程视频地址失败"], None)
        end
    end in
  match videos with
  | None => (shown, videos, None)
  | Some vs =>
      match List.find
              (fun course => bool_decide (cv_title course = courseTitle task))
              vs with
      | None =>
          (shown ++ [Error E_download "未找到匹配的课程节次"], videos, None)
      | Some course =>
          match head (cv_videos course) with
          | None =>
              (shown ++ [Error E_download "不支持下载当前课程视频"],
               videos, None)
          | Some videoDetail =>
              if negb (bool_decide (vd_format videoDetail = "m3u8"))
              then (shown ++ [Error E_download "不支持下载当前课程视频"],
                    videos, None)
              else
                match vd_vga videoDetail with
                | Some url =>
                    if bool_decide (url = "")
                    then (shown ++ [Error E_download "未提供 VGA 源"],
                          videos, None)
                    else (shown, videos,
                          Some (url, {| videoId := vd_id videoDetail;
                                        sessionId := cv_id course;
                                        startedAt := cv_started_at course |}))
                | None =>
                    (shown ++ [Error E_download "未提供 VGA 源"],
                     videos, None)
                end
          end
      end
  end.

(** How [downloadVideo] of [lib/course] ends, after the progress values
    it has reported. *)
Inductive download :=
| Downloaded (progress : list Q)
| DownloadAborted (progress : list Q)     (* an [AbortError] *)
| DownloadFailed (progress : list Q).

(** [startDownloading]: the states set, and [true] when it returns the
    blob. *)
Definition startDownloading (d : download)
  : list TaskSnackbarState * bool :=
  match d with
  | Downloaded ps => (Waiting W_download None :: map Downloading ps, true)
  | DownloadAborted ps =>
      (Waiting W_download None :: map Downloading ps
         ++ [Error E_cancelled "下载已取消"], false)
  | DownloadFailed ps =>
      (Waiting W_download None :: map Downloading ps
         ++ [Error E_download "下载错误"], false)
  end.

(** Where [run] stands when it has done all it does itself. *)
Inductive ending :=
| Ended        (* [run] has returned, or its [catch] has swallowed an error *)
| Uploads.     (* [startServerPipeline] is called with the blob *)

(** [run], up to the call of [startServerPipeline]. [pre] is the answer
    to the preflight request, [d] the way the download ends, [blobUrl]
    what [URL.createObjectURL] gives. *)
Definition run (cache fetched : option (list CourseVideo))
    (task : DownloadTask) (pre : Ingestion.outcome preflight_body)
    (d : download) (blobUrl : string)
  : list TaskSnackbarState * ending :=
  match resolveVideoUrlVGAOnly cache fetched task with
  | (shown, _, None) => (shown, Ended)
  | (shown, _, Some _) =>
      match run_preflight "http://127.0.0.1:5000" pre with
      | (checked, Proceeds) =>
          match startDownloading d with
          | (loaded, true) =>
              if autoTranscode task
              then (shown ++ checked ++ loaded, Uploads)
              else (shown ++ checked ++ loaded ++ [Finished blobUrl], Ended)
          | (loaded, false) => (shown ++ checked ++ loaded, Ended)
          end
      | (checked, _) => (shown ++ checked, Ended)
      end
  end.

(** A session of the list as [find] sees it. *)
Definition has_title (task : DownloadTask) (course : CourseVideo) : Prop :=
  cv_title course = courseTitle task.

End Run.

(** * The userscript: looking for the players *)

Module Players.

(** What one call of [findVideoPlayers] finds in the page. *)
Inductive page :=
| NoContainers   (* one of the two player containers is missing *)
| NoVideo        (* both are there, a [video] element is missing *)
| Ready.

Inductive action :=
| Lookup                    (* the two [getElementById] *)
| Retry (ms : Z)            (* [setTimeout(..., 1000)] *)
| GiveUp                    (* "重试 10 次后仍未找到播放器容器" *)
| NotFound                  (* containers without [video] *)
| Bind.                     (* the subtitle box is mounted, [timeupdate] bound *)

(** [findVideoPlayers(retries)] against what the page shows at each
    call. *)
Fixpoint findVideoPlayers (retries : nat) (pages : list page) : list action :=
  match pages with
  | [] => []
  | p :: rest =>
      match p with
      | NoContainers =>
          if (retries <? 10)%nat
          then Lookup :: Retry 1000 :: findVideoPlayers (S retries) rest
          else [Lookup; GiveUp]
      | NoVideo => [Lookup; NotFound]
      | Ready => [Lookup; Bind]
      end
  end.

(** [k] looks that find no containers, each followed by the timer. *)
Fixpoint retried (k : nat) : list action :=
  match k with
  | O => []
  | S k' => Lookup :: Retry 1000 :: retried k'
  end.

(** How the search ends on what it finds at its last look; nothing, as
    long as that look has not taken place. *)
Definition ending (p : option page) : list action :=
  match p with
  | None => []
  | Some NoContainers => [Lookup; GiveUp]
  | Some NoVideo => [Lookup; NotFound]
  | Some Ready => [Lookup; Bind]
  end.

Definition lookups (acts : list action) : nat :=
  length (List.filter (fun a => match a with Lookup => true | _ => false end)
            acts).

End Players.

(** * The userscript: subtitles

  [yanhekt-ai-service-ui-.user.js] reads an SRT file and shows its
  entries over the player. The text of the file is a JavaScript string,
  modelled by its UTF-16 code units, which is what [split], [match] and
  [trim] work on. *)

Module Subtitles.

Local Open Scope N_scope.

Definition jsstring : Type := list N.

(** An ASCII text as a JavaScript string. *)
Definition js (s : string) : jsstring :=
  map N_of_ascii (list_ascii_of_string s).

(** [\d] *)
Definition is_digit (c : N) : bool := (48 <=? c) && (c <=? 57).

(** [\s], which is also what [trim] removes: the WhiteSpace and
    LineTerminator code points. *)
Definition is_space (c : N) : bool :=
  ((9 <=? c) && (c <=? 13)) || (c =? 32) || (c =? 160) || (c =? 5760)
  || ((8192 <=? c) && (c <=? 8202)) || (c =? 8232) || (c =? 8233)
  || (c =? 8239) || (c =? 8287) || (c =? 12288) || (c =? 65279).

(** [srtText.split(/\r?\n/)]: a line feed ends a piece, and takes a
    carriage return right before it along. *)
Fixpoint split_lines (s : jsstring) : list jsstring :=
  match s with
  | [] => [[]]
  | c :: rest =>
      let ls := split_lines rest in
      if c =? 10 then [] :: ls
      else if (c =? 13) && bool_decide (head rest = Some 10) then ls
      else match ls with
           | l :: ls' => (c :: l) :: ls'
           | [] => [[c]]
           end
  end.

(** [lines[i].match(/^\d+$/)] *)
Definition is_index (line : jsstring) : bool :=
  match line with
  | [] => false
  | _ => forallb is_digit line
  end.

(** [\d{n}] at the head of [s]: the digits and what follows. *)
Fixpoint digits (n : nat) (s : jsstring) : option (jsstring * jsstring) :=
  match n with
  | O => Some ([], s)
  | S n' =>
      match s with
      | [] => None
      | c :: rest =>
          if is_digit c
          then match digits n' rest with
               | Some (ds, rest') => Some (c :: ds, rest')
               | None => None
               end
          else None
      end
  end.

(** The characters [pat] at the head of [s]: what follows. *)
Fixpoint literal (pat s : jsstring) : option jsstring :=
  match pat with
  | [] => Some s
  | p :: pat' =>
      match s with
      | [] => None
      | c :: rest => if c =? p then literal pat' rest else None
      end
  end.

(** [\s*] at the head of [s]: what follows. Nothing that the pattern
    asks for after it is a space, so taking all of them is the only way
    to match. *)
Fixpoint skip_spaces (s : jsstring) : jsstring :=
  match s with
  | [] => []
  | c :: rest => if is_space c then skip_spaces rest else s
  end.

(** [parseFloat] of a string of decimal digits. *)
Definition number (ds : jsstring) : N :=
  fold_left (fun a d => 10 * a + (d - 48)) ds 0.

(** The four numbers that [timeToSeconds] reads from a time
    [hh:mm:ss,mmm] by [split(/[:,]/)] and [parseFloat]. It goes on to
    combine them into seconds as a double,
    [h * 3600 + m * 60 + s + ms / 1000]; the model keeps the four
    numbers. *)
Record stamp := {
  hours : N;
  minutes : N;
  seconds : N;
  millis : N
}.

(** [\d{2}:\d{2}:\d{2},\d{3}] at the head of [s]. *)
Definition stamp_at (s : jsstring) : option (stamp * jsstring) :=
  match digits 2 s with
  | Some (h, s1) =>
      match literal [58] s1 with
      | Some s2 =>
          match digits 2 s2 with
          | Some (m, s3) =>
              match literal [58] s3 with
              | Some s4 =>
                  match digits 2 s4 with
                  | Some (sec, s5) =>
                      match literal [44] s5 with
                      | Some s6 =>
                          match digits 3 s6 with
                          | Some (ms, s7) =>
                              Some ({| hours := number h;
                                       minutes := number m;
                                       seconds := number sec;
                                       millis := number ms |}, s7)
                          | None => None
                          end
                      | None => None
                      end
                  | None => None
                  end
              | None => None
              end
          | None => None
          end
      | None => None
      end
  | None => None
  end.

(** [(\d{2}:\d{2}:\d{2},\d{3})\s*-->\s*(\d{2}:\d{2}:\d{2},\d{3})] at the
    head of [s]. *)
Definition time_at (s : jsstring) : option (stamp * stamp) :=
  match stamp_at s with
  | Some (a, s1) =>
      match literal [45; 45; 62] (skip_spaces s1) with
      | Some s2 =>
          match stamp_at (skip_spaces s2) with
          | Some (b, _) => Some (a, b)
          | None => None
          end
      | None => None
      end
  | None => None
  end.

(** [timeLine.match(...)]: the leftmost match. *)
Fixpoint find_time (s : jsstring) : option (stamp * stamp) :=
  match time_at s with
  | Some r => Some r
  | None =>
      match s with
      | [] => None
      | _ :: rest => find_time rest
      end
  end.

(** [trim] *)
Definition trim (s : jsstring) : jsstring :=
  rev (skip_spaces (rev (skip_spaces s))).

(** [lines[i].trim() === ""] *)
Definition is_blank (line : jsstring) : bool :=
  match trim line with
  | [] => true
  | _ => false
  end.

Record sub := {
  sub_start : stamp;
  sub_end : stamp;
  sub_text : jsstring
}.

(** The inner loop: [text += lines[i] + "\n"] up to the first blank
    line or the end; the text and the lines from [i] on. *)
Fixpoint take_text (lines : list jsstring) : jsstring * list jsstring :=
  match lines with
  | [] => ([], [])
  | l :: rest =>
      if is_blank l then ([], lines)
      else let '(text, after) := take_text rest in
           (l ++ 10 :: text, after)
  end.

(** The outer loop on the lines from [i] on. Every pass moves [i]
    forward, so as many passes as there are lines are enough. *)
Fixpoint parse (fuel : nat) (lines : list jsstring) : list sub :=
  match fuel with
  | O => []
  | S fuel' =>
      match lines with
      | [] => []
      | l :: rest =>
          if is_index l
          then match rest with
               | [] => []
               | timeLine :: rest' =>
                   match find_time timeLine with
                   | Some (a, b) =>
                       let '(text, after) := take_text rest' in
                       {| sub_start := a; sub_end := b;
                          sub_text := trim text |}
                         :: parse fuel' (tail after)
                   | None => parse fuel' rest'
                   end
               end
          else parse fuel' rest
      end
  end.

Definition parse_lines (lines : list jsstring) : list sub :=
  parse (length lines) lines.

(** [parseSRT] *)
Definition parseSRT (srtText : jsstring) : list sub :=
  parse_lines (split_lines srtText).

(** Lines put together with a separator after each but the last. *)
Fixpoint join (sep : jsstring) (lines : list jsstring) : jsstring :=
  match lines with
  | [] => []
  | [l] => l
  | l :: rest => l ++ sep ++ join sep rest
  end.

(** The times of an entry. *)
Definition times (s : sub) : stamp * stamp := (sub_start s, sub_end s).

End Subtitles.

(** * Properties *)

(** An event is not in an explicit list of other events. *)
Ltac not_in_list H :=
  repeat (apply elem_of_cons in H as [H|H]; [discriminate|]);
  apply elem_of_nil in H; exact H.

(** Membership in a trace extended by explicit events that differ. *)
Ltac in_app H :=
  repeat (apply elem_of_app in H as [H|H]; [|exfalso; not_in_list H]).

(** ** Segment arithmetic *)

Section SegmentFacts.

Import Segments.
Local Open Scope Z_scope.

Lemma Qceiling_quotient (S P : Z) :
  0 < P -> Qceiling (inject_Z S / inject_Z P) = - ((- S) / P).
Proof.
  intros HP. destruct P as [|p|p]; try lia.
  unfold Qceiling, Qfloor, Qdiv, Qinv, Qmult, Qopp, inject_Z. simpl.
  rewrite Z.mul_1_r. reflexivity.
Qed.

Lemma total_bounds (S P : Z) :
  0 < P -> 0 <= S ->
  S <= Z.of_nat (total S P) * P < S + P.
Proof.
  intros HP HS. unfold total. rewrite Qceiling_quotient by lia.
  pose proof (Z.div_mod (- S) P ltac:(lia)) as Hdm.
  pose proof (Z.mod_pos_bound (- S) P HP) as Hm.
  assert (0 <= - (- S / P)) by nia.
  rewrite Z2Nat.id by lia. nia.
Qed.

Lemma total_least (S P : Z) (M : nat) :
  0 < P -> 0 <= S -> S <= Z.of_nat M * P -> (total S P <= M)%nat.
Proof.
  intros HP HS HM. pose proof (total_bounds S P HP HS) as [_ Hub].
  apply Nat2Z.inj_le. nia.
Qed.

Lemma in_indices (n i : nat) : In i (indices n) <-> (1 <= i <= n)%nat.
Proof. unfold indices. rewrite in_seq. lia. Qed.

Lemma chunk_eq (S P : Z) (i : nat) :
  0 < P -> 0 <= S -> In i (indices (total S P)) ->
  chunk S P i = ((Z.of_nat i - 1) * P, Z.min (Z.of_nat i * P) S)
  /\ (Z.of_nat i - 1) * P < Z.min (Z.of_nat i * P) S.
Proof.
  intros HP HS Hi. apply in_indices in Hi.
  pose proof (total_bounds S P HP HS) as [Hlb Hub].
  assert (Hlt : (Z.of_nat i - 1) * P < S) by nia.
  assert (Hlt' : (Z.of_nat i - 1) * P < Z.of_nat i * P) by nia.
  split; [|lia].
  unfold chunk, slice, chunk_start, chunk_end, clamp.
  repeat match goal with
         | |- context [?a <? ?b] => destruct (Z.ltb_spec a b)
         end; f_equal; nia.
Qed.

Lemma chunks_cover (S P b : Z) :
  0 < P -> 0 <= S ->
  0 <= b < S <->
  exists i, In i (indices (total S P)) /\ in_range b (chunk S P i).
Proof.
  intros HP HS. pose proof (total_bounds S P HP HS) as [Hlb Hub]. split.
  - intros Hb. exists (Z.to_nat (b / P + 1)).
    pose proof (Z.div_mod b P ltac:(lia)) as Hdm.
    pose proof (Z.mod_pos_bound b P HP) as Hm.
    assert (0 <= b / P) by (apply Z.div_pos; lia).
    assert (Hi : In (Z.to_nat (b / P + 1)) (indices (total S P))).
    { apply in_indices. split; [lia|]. apply Nat2Z.inj_le.
      rewrite Z2Nat.id by lia. nia. }
    split; [exact Hi|].
    destruct (chunk_eq S P _ HP HS Hi) as [-> _].
    unfold in_range; simpl. rewrite Z2Nat.id by lia. nia.
  - intros (i & Hi & Hr).
    destruct (chunk_eq S P _ HP HS Hi) as [Heq _]. rewrite Heq in Hr.
    unfold in_range in Hr; simpl in Hr. apply in_indices in Hi. nia.
Qed.

Lemma chunks_disjoint (S P b : Z) (i j : nat) :
  0 < P -> 0 <= S ->
  In i (indices (total S P)) -> In j (indices (total S P)) ->
  in_range b (chunk S P i) -> in_range b (chunk S P j) -> i = j.
Proof.
  intros HP HS Hi Hj Hbi Hbj.
  destruct (chunk_eq S P _ HP HS Hi) as [Hei _]. rewrite Hei in Hbi.
  destruct (chunk_eq S P _ HP HS Hj) as [Hej _]. rewrite Hej in Hbj.
  unfold in_range in *; simpl in *.
  apply Nat2Z.inj. nia.
Qed.

End SegmentFacts.

(** ** The bookkeeping of the upload *)

Section CoreFacts.

Import Ingestion.
Variable cfg : config.

Local Abbreviation core := (Ingestion.core cfg).
Local Abbreviation N := (total cfg).

Lemma acked_app (tr es : list out_event) :
  acked (tr ++ es) = acked tr ++ acked es.
Proof. apply flat_map_app. Qed.

Lemma requested_app (tr es : list out_event) :
  requested (tr ++ es) = requested tr ++ requested es.
Proof. apply flat_map_app. Qed.

Lemma progress_values_app (tr es : list out_event) :
  progress_values (tr ++ es) = progress_values tr ++ progress_values es.
Proof. apply flat_map_app. Qed.

Lemma attempts_app (i : nat) (tr es : list out_event) :
  attempts i (tr ++ es) = (attempts i tr + attempts i es)%nat.
Proof. unfold attempts. rewrite requested_app. apply count_occ_app. Qed.

Lemma active_app (ws ws' : list worker) :
  active (ws ++ ws') = active ws ++ active ws'.
Proof. apply flat_map_app. Qed.

Lemma requested_in (i : nat) (r : Z * Z) (tr : list out_event) :
  ReqSegment i r ∈ tr -> In i (requested tr).
Proof.
  intros Hin%list_elem_of_In. unfold requested. apply in_flat_map.
  exists (ReqSegment i r). split; [exact Hin | now left].
Qed.

Lemma attempts_pos (i : nat) (r : Z * Z) (tr : list out_event) :
  ReqSegment i r ∈ tr -> (1 <= attempts i tr)%nat.
Proof.
  intros Hin. apply requested_in in Hin.
  unfold attempts. apply (count_occ_In Nat.eq_dec) in Hin. lia.
Qed.

Lemma tries_ok_app (tr es : list out_event) (wk : worker) :
  requested es = [] -> tries_ok tr wk -> tries_ok (tr ++ es) wk.
Proof.
  intros Hes. unfold tries_ok, attempts. rewrite requested_app, Hes, app_nil_r.
  trivial.
Qed.

(** Events that are not about segments leave the bookkeeping alone. *)
Lemma core_emit (q : list nat) (ws : list worker) (tr es : list out_event)
    (up : nat) :
  acked es = [] -> requested es = [] -> progress_values es = [] ->
  core q ws tr up -> core q ws (tr ++ es) up.
Proof.
  intros Ha Hr Hp [Hnd Hrg Hall Hcnt Hprog Hfresh Htries Hbound Hshape Hdr Hack].
  assert (Hatt : forall i, attempts i (tr ++ es) = attempts i tr).
  { intros i. unfold attempts. now rewrite requested_app, Hr, app_nil_r. }
  constructor; rewrite ?acked_app, ?Ha, ?progress_values_app, ?Hp, ?app_nil_r;
    try assumption.
  - intros i Hi. rewrite Hatt. auto.
  - eapply Forall_impl; [exact Htries|]. intros wk. now apply tries_ok_app.
  - intros i. rewrite Hatt. auto.
  - intros i r Hin. apply elem_of_app in Hin as [Hin|Hin]; [auto|].
    apply requested_in in Hin. rewrite Hr in Hin. destruct Hin.
  - intros i Hi. rewrite Hatt. auto.
Qed.

Lemma active_Permutation (ws ws' : list worker) :
  ws ≡ₚ ws' -> active ws ≡ₚ active ws'.
Proof. intros Hp. unfold active. now apply Permutation_flat_map. Qed.

(** The bookkeeping does not depend on the order of the workers. *)
Lemma core_Permutation (q : list nat) (ws ws' : list worker)
    (tr : list out_event) (up : nat) :
  ws ≡ₚ ws' -> core q ws tr up -> core q ws' tr up.
Proof.
  intros Hp [Hnd Hrg Hall Hcnt Hprog Hfresh Htries Hbound Hshape Hdr Hack].
  assert (Hm : q ++ active ws ++ acked tr ≡ₚ q ++ active ws' ++ acked tr).
  { apply Permutation_app_head, Permutation_app_tail.
    now apply active_Permutation. }
  constructor; try assumption.
  - now rewrite <- Hm.
  - intros i Hi. apply Hrg. now rewrite Hm.
  - intros Hnf. rewrite <- Hm. apply Hall.
    exact (Permutation_Forall (Permutation_sym Hp) Hnf).
  - exact (Permutation_Forall Hp Htries).
  - intros Hin. apply Hdr. now rewrite Hp.
Qed.

Lemma attempts_request (i j : nat) (r : Z * Z) (tr : list out_event) :
  attempts i (tr ++ [ReqSegment j r])
  = (attempts i tr + (if Nat.eq_dec j i then 1 else 0))%nat.
Proof.
  rewrite attempts_app. reflexivity.
Qed.

Lemma elem_of_active (j : nat) (ws : list worker) :
  j ∈ active ws <-> exists wk, wk ∈ ws /\ j ∈ current wk.
Proof.
  unfold active. rewrite list_elem_of_In, in_flat_map. split.
  - intros (wk & Hwk & Hj). exists wk. now rewrite !list_elem_of_In.
  - intros (wk & Hwk & Hj). exists wk. now rewrite <- !list_elem_of_In.
Qed.

Lemma tries_ok_request (i : nat) (r : Z * Z) (tr : list out_event)
    (wk : worker) :
  i ∉ current wk -> tries_ok tr wk -> tries_ok (tr ++ [ReqSegment i r]) wk.
Proof.
  intros Hni. destruct wk as [j t b|j t| |e]; simpl in *; trivial;
    rewrite attempts_request; destruct (Nat.eq_dec i j) as [->|_];
    try (exfalso; apply Hni; now left); rewrite Nat.add_0_r; trivial.
Qed.

Lemma progress_next (up : nat) :
  map (fun k => fraction k N) (seq 1 up) ++ [fraction (S up) N]
  = map (fun k => fraction k N) (seq 1 (S up)).
Proof. rewrite seq_S, map_app. reflexivity. Qed.

(** An acknowledgment: the segment leaves its worker. *)
Lemma core_release (q : list nat) (ws : list worker) (tr : list out_event)
    (up i t : nat) (b : bool) :
  core q (Fetching i t b :: ws) tr up ->
  core q ws
    (tr ++ [SegmentAcked i; OnUploadProgress (fraction (S up) N)]) (S up).
Proof.
  intros [Hnd Hrg Hall Hcnt Hprog Hfresh Htries Hbound Hshape Hdr Hack].
  simpl in *.
  assert (Hm : q ++ i :: active ws ++ acked tr
               ≡ₚ q ++ active ws ++ acked tr ++ [i]).
  { apply Permutation_app_head. rewrite (app_assoc (active ws)).
    apply Permutation_cons_append. }
  assert (Hatt : forall j es, requested es = [] ->
                 attempts j (tr ++ es) = attempts j tr).
  { intros j es Hes. unfold attempts.
    now rewrite requested_app, Hes, app_nil_r. }
  constructor; rewrite ?acked_app, ?progress_values_app; simpl.
  - now rewrite <- Hm.
  - intros j Hj. apply Hrg. now rewrite Hm.
  - intros Hnf. rewrite <- Hm. apply Hall. now constructor.
  - rewrite length_app; simpl. lia.
  - rewrite Hprog. apply progress_next.
  - intros j Hj. rewrite Hatt; auto.
  - apply Forall_inv_tail in Htries.
    eapply Forall_impl; [exact Htries|]. intros wk. now apply tries_ok_app.
  - intros j. rewrite Hatt; auto.
  - intros j r Hin. apply elem_of_app in Hin as [Hin|Hin]; [auto|].
    apply requested_in in Hin. destruct Hin.
  - intros Hin. apply Hdr. now right.
  - intros j Hj. rewrite Hatt; auto.
    apply elem_of_app in Hj as [Hj|Hj]; [auto|].
    apply list_elem_of_singleton in Hj as ->.
    apply Forall_inv in Htries. simpl in Htries. lia.
Qed.

(** A worker whose promise rejects loses its segment. *)
Lemma core_fail (q : list nat) (ws : list worker) (tr : list out_event)
    (up : nat) (wk : worker) (e : js_error) :
  core q (wk :: ws) tr up -> core q (Failed e :: ws) tr up.
Proof.
  intros [Hnd Hrg Hall Hcnt Hprog Hfresh Htries Hbound Hshape Hdr Hack].
  simpl in *.
  constructor; simpl; try assumption.
  - rewrite <- app_assoc in Hnd.
    apply NoDup_app in Hnd as (Hq & Hqx & Hnd).
    apply NoDup_app in Hnd as (_ & _ & Hnd).
    apply NoDup_app. split_and!; [assumption| |assumption].
    intros j Hj Hin. apply (Hqx j Hj). apply elem_of_app. now right.
  - intros j Hj. apply Hrg. rewrite !elem_of_app in *. tauto.
  - intros Hnf. apply Forall_inv in Hnf. discriminate.
  - constructor; [exact I | now apply Forall_inv_tail in Htries].
  - intros Hin. apply Hdr. apply elem_of_cons in Hin as [Hin|Hin];
      [discriminate | now right].
Qed.

(** A failed attempt with budget left: the 400ms wait. *)
Lemma core_backoff (q : list nat) (ws : list worker) (tr : list out_event)
    (up i t : nat) (b : bool) :
  (1 <= t)%nat ->
  core q (Fetching i t b :: ws) tr up ->
  core q (Backoff i t :: ws) (tr ++ [SetTimeout 400]) up.
Proof.
  intros Ht Hc. apply core_emit; try reflexivity.
  destruct Hc as [Hnd Hrg Hall Hcnt Hprog Hfresh Htries Hbound Hshape Hdr Hack].
  simpl in *.
  constructor; simpl; try assumption.
  - intros Hnf. apply Hall. apply Forall_inv_tail in Hnf. now constructor.
  - pose proof (Forall_inv Htries) as [Hi _]. simpl in Hi.
    constructor; [now split | now apply Forall_inv_tail in Htries].
  - intros Hin. apply Hdr. apply elem_of_cons in Hin as [Hin|Hin];
      [discriminate | now right].
Qed.

(** After the wait: the next attempt for the same segment. *)
Lemma core_retry (q : list nat) (ws : list worker) (tr : list out_event)
    (up i t : nat) :
  core q (Backoff i (S t) :: ws) tr up ->
  core q (Fetching i t false :: ws) (tr ++ [ReqSegment i (chunk cfg i)]) up.
Proof.
  intros [Hnd Hrg Hall Hcnt Hprog Hfresh Htries Hbound Hshape Hdr Hack].
  simpl in *.
  pose proof (Forall_inv Htries) as [Hi _]. simpl in Hi.
  apply NoDup_app in Hnd as (Hq & Hqx & Hnd).
  apply NoDup_cons in Hnd as [Hia Hnd].
  assert (Hiq : i ∉ q).
  { intros Hin. apply (Hqx i Hin). now left. }
  constructor; rewrite ?acked_app, ?progress_values_app, ?app_nil_r; simpl;
    try assumption.
  - apply NoDup_app. split_and!; [assumption|assumption|].
    now apply NoDup_cons.
  - intros Hnf. apply Hall. apply Forall_inv_tail in Hnf. now constructor.
  - intros j Hj. rewrite attempts_request.
    destruct (Nat.eq_dec i j) as [->|_]; [contradiction|].
    rewrite Nat.add_0_r. auto.
  - constructor.
    + simpl. rewrite attempts_request.
      destruct (Nat.eq_dec i i); [lia | contradiction].
    + apply Forall_inv_tail in Htries.
      rewrite Forall_forall in Htries |- *. intros wk Hwk.
      apply tries_ok_request; [|now apply Htries].
      intros Hin. apply Hia. apply elem_of_app. left.
      apply elem_of_active. now exists wk.
  - intros j. rewrite attempts_request.
    destruct (Nat.eq_dec i j) as [->|_]; [lia|].
    rewrite Nat.add_0_r. auto.
  - intros j r Hin. apply elem_of_app in Hin as [Hin|Hin]; [auto|].
    apply list_elem_of_singleton in Hin. injection Hin as -> ->.
    split; [reflexivity|]. apply Hrg. apply elem_of_app. right. now left.
  - intros Hin. apply Hdr. apply elem_of_cons in Hin as [Hin|Hin];
      [discriminate | now right].
  - intros j Hj. rewrite attempts_request. specialize (Hack j Hj). lia.
Qed.

(** A worker that finds the queue empty. *)
Lemma core_take_finish (ws : list worker) (tr : list out_event) (up : nat) :
  core [] ws tr up -> core [] (Finished :: ws) tr up.
Proof.
  intros [Hnd Hrg Hall Hcnt Hprog Hfresh Htries Hbound Hshape Hdr Hack].
  constructor; simpl in *; try assumption; try reflexivity.
  - intros Hnf. apply Hall. now apply Forall_inv_tail in Hnf.
  - now constructor.
Qed.

(** A worker that takes the next index and issues its first request. *)
Lemma core_take_next (q : list nat) (ws : list worker) (tr : list out_event)
    (up j : nat) :
  core (j :: q) ws tr up ->
  core q (Fetching j 2 false :: ws) (tr ++ [ReqSegment j (chunk cfg j)]) up.
Proof.
  intros [Hnd Hrg Hall Hcnt Hprog Hfresh Htries Hbound Hshape Hdr Hack].
  simpl in *.
  assert (Hm : j :: q ++ active ws ++ acked tr
               ≡ₚ q ++ j :: active ws ++ acked tr).
  { apply Permutation_middle. }
  pose proof Hnd as Hnd'. apply NoDup_cons in Hnd' as [Hjn Hnd'].
  assert (Hj0 : attempts j tr = 0%nat) by (apply Hfresh; now left).
  constructor; rewrite ?acked_app, ?progress_values_app, ?app_nil_r; simpl;
    try assumption.
  - now rewrite <- Hm.
  - intros i Hi. apply Hrg. now rewrite Hm.
  - intros Hnf. rewrite <- Hm. apply Hall. now apply Forall_inv_tail in Hnf.
  - intros i Hi. rewrite attempts_request.
    destruct (Nat.eq_dec j i) as [->|_].
    + exfalso. apply Hjn. apply elem_of_app. now left.
    + rewrite Nat.add_0_r. apply Hfresh. now right.
  - constructor.
    + simpl. rewrite attempts_request, Hj0.
      destruct (Nat.eq_dec j j); [lia | contradiction].
    + rewrite Forall_forall in Htries |- *. intros wk Hwk.
      apply tries_ok_request; [|now apply Htries].
      intros Hin. apply Hjn. apply elem_of_app. right. apply elem_of_app. left.
      apply elem_of_active. now exists wk.
  - intros i. rewrite attempts_request.
    destruct (Nat.eq_dec j i) as [->|_]; [lia|].
    rewrite Nat.add_0_r. auto.
  - intros i r Hin. apply elem_of_app in Hin as [Hin|Hin]; [auto|].
    apply list_elem_of_singleton in Hin. injection Hin as -> ->.
    split; [reflexivity|]. apply Hrg. now left.
  - intros Hin. apply elem_of_cons in Hin as [Hin|Hin]; [discriminate|].
    specialize (Hdr Hin). discriminate.
  - intros i Hi. rewrite attempts_request. specialize (Hack i Hi). lia.
Qed.

(** A worker that takes the next index after [cancel()]. *)
Lemma core_take_abort (q : list nat) (ws : list worker) (tr : list out_event)
    (up j : nat) (e : js_error) :
  core (j :: q) ws tr up -> core q (Failed e :: ws) tr up.
Proof.
  intros [Hnd Hrg Hall Hcnt Hprog Hfresh Htries Hbound Hshape Hdr Hack].
  simpl in *.
  constructor; simpl; try assumption.
  - now apply NoDup_cons in Hnd as [_ Hnd].
  - intros i Hi. apply Hrg. now right.
  - intros Hnf. apply Forall_inv in Hnf. discriminate.
  - intros i Hi. apply Hfresh. now right.
  - now constructor.
  - intros Hin. apply elem_of_cons in Hin as [Hin|Hin]; [discriminate|].
    specialize (Hdr Hin). discriminate.
Qed.

Lemma active_abort (ws : list worker) :
  active (map abort_signal ws) = active ws.
Proof.
  induction ws as [|[] ws IH]; simpl; rewrite ?IH; reflexivity.
Qed.

Lemma abort_events_neutral (ws : list worker) :
  acked (flat_map abort_events ws) = []
  /\ requested (flat_map abort_events ws) = []
  /\ progress_values (flat_map abort_events ws) = [].
Proof.
  induction ws as [|[i t [|]|i t| |e] ws IH]; simpl; auto.
Qed.

(** [cancel()] aborts signals; the bookkeeping stays. *)
Lemma core_cancel (q : list nat) (ws : list worker) (tr : list out_event)
    (up : nat) :
  core q ws tr up ->
  core q (map abort_signal ws) (tr ++ flat_map abort_events ws) up.
Proof.
  intros Hc. destruct (abort_events_neutral ws) as (Ha & Hr & Hp).
  apply core_emit; try assumption.
  destruct Hc as [Hnd Hrg Hall Hcnt Hprog Hfresh Htries Hbound Hshape Hdr Hack].
  constructor; rewrite ?active_abort; try assumption.
  - intros Hnf. apply Hall. unfold no_failure in *.
    rewrite Forall_forall in Hnf |- *. intros wk Hwk.
    specialize (Hnf (abort_signal wk) (list_elem_of_fmap_2 _ _ _ Hwk)).
    now destruct wk.
  - rewrite Forall_forall in Htries |- *. intros wk' Hwk'.
    apply list_elem_of_fmap in Hwk' as (wk & -> & Hwk).
    specialize (Htries wk Hwk). now destruct wk.
  - intros Hin. apply Hdr.
    apply list_elem_of_fmap in Hin as (wk & Heq & Hwk).
    destruct wk; try discriminate. exact Hwk.
Qed.

End CoreFacts.

(** ** The invariant of the machine *)

Section MachineFacts.

Import Ingestion.
Variable cfg : config.

Local Abbreviation N := (total cfg).

Lemma drain_eq (q : list nat) (st : state) :
  drain cfg q st
  = match q with
    | [] => (Finished, set_queue [] st)
    | i :: q' =>
        if aborted st then (Failed AbortError, set_queue q' st)
        else (Fetching i 2 false,
              emit [ReqSegment i (chunk cfg i)] (set_queue q' st))
    end.
Proof.
  destruct q as [|i q']; simpl; [reflexivity|].
  unfold uploadOne; simpl. destruct (aborted st); reflexivity.
Qed.

Lemma first_failed_None (ws : list worker) :
  first_failed ws = None <-> no_failure ws.
Proof.
  unfold no_failure. induction ws as [|wk ws IH]; simpl.
  - split; [constructor | reflexivity].
  - destruct wk; rewrite ?IH; split;
      try (intros H; constructor; [reflexivity | exact H]);
      try (intros H; exact (Forall_inv_tail H));
      try discriminate.
    intros H. apply Forall_inv in H. discriminate.
Qed.

Lemma all_finished (ws : list worker) :
  forallb is_finished ws = true <-> Forall (fun wk => wk = Finished) ws.
Proof.
  rewrite forallb_forall, Forall_forall. split.
  - intros H wk Hwk%list_elem_of_In. specialize (H wk Hwk). now destruct wk.
  - intros H wk Hwk%list_elem_of_In. now rewrite (H wk Hwk).
Qed.

Lemma promise_all_uploading (st : state) :
  settled cfg st -> uploading cfg (promise_all st).
Proof.
  intros (Hc & Hm & Hl & Hw & Hf). unfold promise_all, uploading.
  destruct (main st) eqn:Emain;
    try (rewrite Emain; split_and!; auto; discriminate).
  destruct (first_failed (workers st)) as [e|] eqn:Eff.
  - simpl. split_and!; auto; try discriminate.
    + apply core_emit; auto.
    + intros Hin. apply elem_of_app in Hin as [Hin|Hin].
      * exfalso. now apply Hw.
      * exfalso. not_in_list Hin.
  - apply first_failed_None in Eff.
    destruct (forallb is_finished (workers st)) eqn:Efin.
    + apply all_finished in Efin. simpl.
      split_and!; auto; try discriminate. apply core_emit; auto.
    + rewrite Emain. split_and!; auto.
Qed.

Lemma insert_Permutation (ws : list worker) (w : nat) (wk0 wk' : worker) :
  ws !! w = Some wk0 -> <[w:=wk']> ws ≡ₚ wk' :: delete w ws.
Proof.
  revert w. induction ws as [|a ws IH]; intros [|w] H; simpl in *;
    try discriminate.
  - reflexivity.
  - rewrite (IH w H). apply perm_swap.
Qed.

(** The common part of every event of a worker. *)
Lemma put_worker_uploading (st st1 : state) (w : nat) (wk0 wk' : worker) :
  uploading cfg st ->
  workers st !! w = Some wk0 -> wk0 <> Finished ->
  workers st1 = workers st -> main st1 = main st ->
  (ReqComplete ∈ trace st1 -> ReqComplete ∈ trace st) ->
  core cfg (queue st1) (wk' :: delete w (workers st)) (trace st1)
    (uploaded st1) ->
  uploading cfg (put_worker w (wk', st1)).
Proof.
  intros (Hc & Hm & Hl & Hw & Hf) Hlk Hne Hws Hmain Htr Hc1.
  unfold put_worker; simpl. apply promise_all_uploading.
  unfold settled; simpl. rewrite Hws, Hmain.
  split_and!; auto.
  - eapply core_Permutation; [|exact Hc1].
    symmetry. eapply insert_Permutation; eassumption.
  - now rewrite length_insert.
  - intros Ha Hin. destruct (Hw Ha) as [_ Hn]. auto.
  - intros Hin. specialize (Hf (Htr Hin)).
    rewrite Forall_forall in Hf.
    exfalso. apply Hne. apply Hf. eapply list_elem_of_lookup_2; eassumption.
Qed.

Lemma core_at (st : state) (w : nat) (wk0 : worker) :
  uploading cfg st -> workers st !! w = Some wk0 ->
  core cfg (queue st) (wk0 :: delete w (workers st)) (trace st) (uploaded st).
Proof.
  intros (Hc & _) Hlk. eapply core_Permutation; [|exact Hc].
  now apply delete_Permutation.
Qed.

(** A worker goes back to the queue after an acknowledgment. *)
Lemma worker_loop_after_ack (st : state) (w i t : nat) (b : bool) :
  uploading cfg st -> workers st !! w = Some (Fetching i t b) ->
  uploading cfg
    (put_worker w
       (worker_loop cfg
          (emit [SegmentAcked i;
                 OnUploadProgress (fraction (S (uploaded st)) N)]
             (set_uploaded (S (uploaded st)) st)))).
Proof.
  intros Hu Hlk. pose proof (core_at _ _ _ Hu Hlk) as Hc.
  apply core_release in Hc.
  unfold worker_loop. rewrite drain_eq. simpl.
  destruct (queue st) as [|j q'] eqn:Eq.
  - eapply put_worker_uploading; eauto; simpl; try discriminate.
    + intros H. now in_app H.
    + now apply core_take_finish.
  - destruct (aborted st) eqn:Eab.
    + eapply put_worker_uploading; eauto; simpl; try discriminate.
      * intros H. now in_app H.
      * eapply core_take_abort; exact Hc.
    + eapply put_worker_uploading; eauto; simpl; try discriminate.
      * intros H. now in_app H.
      * now apply core_take_next.
Qed.

Lemma attempt_failed_uploading (st : state) (w i t : nat) (b : bool)
    (e : js_error) :
  uploading cfg st -> workers st !! w = Some (Fetching i t b) ->
  uploading cfg (put_worker w (on_attempt_failed i t e st)).
Proof.
  intros Hu Hlk. pose proof (core_at _ _ _ Hu Hlk) as Hc.
  unfold on_attempt_failed.
  destruct (aborted st).
  { eapply put_worker_uploading; eauto; try discriminate.
    eapply core_fail; exact Hc. }
  destruct (Nat.leb_spec t 0) as [Ht|Ht].
  { eapply put_worker_uploading; eauto; try discriminate.
    eapply core_fail; exact Hc. }
  eapply put_worker_uploading; eauto; simpl; try discriminate.
  - intros H. now in_app H.
  - eapply core_backoff; [lia | exact Hc].
Qed.

Lemma step_uploading (st st' : state) (ev : event) :
  uploading cfg st -> step cfg st ev = Some st' -> uploading cfg st'.
Proof.
  intros Hu Hstep. pose proof Hu as (Hc & Hm & Hl & Hw & Hf).
  destruct ev as [|r|w r|w|w|r|r|]; simpl in Hstep.
  - (* cancel *)
    injection Hstep as <-. unfold cancel, uploading; simpl.
    destruct (abort_events_neutral (workers st)) as (Ha & Hr & Hp).
    split_and!; auto.
    + now apply core_cancel.
    + now rewrite length_map.
    + intros Hmain. destruct (Hw Hmain) as [Hnf Hnc]. split.
      * unfold no_failure in *. rewrite Forall_forall in Hnf |- *.
        intros wk' Hwk'. apply list_elem_of_fmap in Hwk' as (wk & -> & Hwk).
        specialize (Hnf wk Hwk). now destruct wk.
      * intros Hin. apply elem_of_app in Hin as [Hin|Hin]; [auto|].
        apply list_elem_of_In, in_flat_map in Hin as (wk & _ & Hin).
        destruct wk as [? ? []| | |]; simpl in Hin; intuition discriminate.
    + intros Hin. apply elem_of_app in Hin as [Hin|Hin].
      * specialize (Hf Hin). rewrite Forall_forall in Hf |- *.
        intros wk' Hwk'. apply list_elem_of_fmap in Hwk' as (wk & -> & Hwk).
        now rewrite (Hf wk Hwk).
      * apply list_elem_of_In, in_flat_map in Hin as (wk & _ & Hin).
        destruct wk as [? ? []| | |]; simpl in Hin; intuition discriminate.
  - (* init answered *)
    destruct (main st); try discriminate. contradiction.
  - (* segment answered *)
    destruct (workers st !! w) as [[i t [|]| | |]|] eqn:Hlk; try discriminate.
    injection Hstep as <-. unfold on_segment.
    destruct r as [status []|].
    + destruct (ok status); cbn [negb].
      * eapply worker_loop_after_ack; eassumption.
      * eapply attempt_failed_uploading; eassumption.
    + eapply attempt_failed_uploading; eassumption.
  - (* segment aborted *)
    destruct (workers st !! w) as [[i t [|]| | |]|] eqn:Hlk; try discriminate.
    injection Hstep as <-. eapply attempt_failed_uploading; eassumption.
  - (* retry timer *)
    destruct (workers st !! w) as [[|i t| |]|] eqn:Hlk; try discriminate.
    injection Hstep as <-. pose proof (core_at _ _ _ Hu Hlk) as Hc'.
    unfold on_retry. destruct t as [|t]; simpl.
    + exfalso. destruct Hc' as [_ _ _ _ _ _ Ht _ _ _ _].
      apply Forall_inv in Ht. simpl in Ht. lia.
    + eapply put_worker_uploading; eauto; simpl; try discriminate.
      * intros H. now in_app H.
      * now apply core_retry.
  - (* completion answered *)
    destruct (main st) eqn:Emain; try discriminate.
    injection Hstep as <-. unfold on_complete, poll_top, reject.
    destruct r as [status []|]; [destruct (ok status)|]; simpl;
      [destruct (aborted st); simpl|..];
      (split_and!; auto; try discriminate;
       [apply core_emit; auto | intros H; apply Hf; now in_app H]).
  - (* status answered *)
    destruct (main st) eqn:Emain; try discriminate.
    injection Hstep as <-. unfold on_status, resolve, reject.
    destruct r as [status body|]; simpl;
      [destruct (bool_decide (stage body = "DONE"));
       [|destruct (bool_decide (stage body = "FAILED")
                   || bool_decide (stage body = "UNKNOWN"))]; simpl|];
      (split_and!; auto; try discriminate;
       [repeat apply core_emit; auto | intros H; apply Hf; now in_app H]).
  - (* poll timer *)
    destruct (main st) eqn:Emain; try discriminate.
    injection Hstep as <-. unfold poll_top, reject.
    destruct (aborted st); simpl;
      (split_and!; auto; try discriminate;
       [apply core_emit; auto | intros H; apply Hf; now in_app H]).
Qed.

Lemma spawn_settled (n : nat) (st : state) :
  core cfg (queue st) (workers st) (trace st) (uploaded st) ->
  main st = AwaitWorkers -> ReqComplete ∉ trace st ->
  core cfg (queue (spawn cfg n st)) (workers (spawn cfg n st))
    (trace (spawn cfg n st)) (uploaded (spawn cfg n st))
  /\ main (spawn cfg n st) = AwaitWorkers
  /\ (ReqComplete ∉ trace (spawn cfg n st))
  /\ length (workers (spawn cfg n st)) = (length (workers st) + n)%nat.
Proof.
  revert st. induction n as [|n IH]; intros st Hc Hm Hnc; simpl.
  - split_and!; auto.
  - unfold worker_loop. rewrite drain_eq.
    assert (Hp : forall wk, workers st ++ [wk] ≡ₚ wk :: workers st).
    { intros wk. symmetry. apply Permutation_cons_append. }
    destruct (queue st) as [|j q'] eqn:Eq; [|destruct (aborted st)].
    + edestruct (IH (set_workers (workers st ++ [Finished]) (set_queue [] st)))
        as (H1 & H2 & H3 & H4); simpl; auto.
      * eapply core_Permutation; [symmetry; apply Hp|].
        now apply core_take_finish.
      * split_and!; auto. simpl in H4. rewrite H4, length_app; simpl. lia.
    + edestruct (IH (set_workers (workers st ++ [Failed AbortError])
                       (set_queue q' st)))
        as (H1 & H2 & H3 & H4); simpl; auto.
      * eapply core_Permutation; [symmetry; apply Hp|].
        eapply core_take_abort; exact Hc.
      * split_and!; auto. simpl in H4. rewrite H4, length_app; simpl. lia.
    + edestruct (IH (set_workers (workers st ++ [Fetching j 2 false])
                       (emit [ReqSegment j (chunk cfg j)] (set_queue q' st))))
        as (H1 & H2 & H3 & H4); simpl; auto.
      * eapply core_Permutation; [symmetry; apply Hp|].
        now apply core_take_next.
      * intros H. now in_app H.
      * split_and!; auto. simpl in H4. rewrite H4, length_app; simpl. lia.
Qed.

Lemma core_initial (tr : list out_event) :
  acked tr = [] -> requested tr = [] -> progress_values tr = [] ->
  core cfg (Segments.indices N) [] tr 0.
Proof.
  intros Ha Hr Hp.
  assert (Hatt : forall i, attempts i tr = 0%nat).
  { intros i. unfold attempts. now rewrite Hr. }
  constructor; simpl; rewrite ?Ha, ?app_nil_r; auto.
  - apply NoDup_seq.
  - intros i. rewrite Hatt. lia.
  - intros i r Hin. apply requested_in in Hin. rewrite Hr in Hin.
    destruct Hin.
  - intros Hin. now apply elem_of_nil in Hin.
  - intros i Hi. now apply elem_of_nil in Hi.
Qed.

(** Step C establishes the invariant. *)
Lemma upload_phase_uploading (st : state) :
  workers st = [] -> acked (trace st) = [] -> requested (trace st) = [] ->
  progress_values (trace st) = [] -> ReqComplete ∉ trace st ->
  uploading cfg (upload_phase cfg st).
Proof.
  intros Hws Ha Hr Hp Hnc. unfold upload_phase.
  set (st1 := set_uploaded 0 (set_queue (Segments.indices N)
                                (set_main AwaitWorkers st))).
  destruct (spawn_settled (concurrency cfg) st1) as (H1 & H2 & H3 & H4).
  - simpl. rewrite Hws. now apply core_initial.
  - reflexivity.
  - exact Hnc.
  - apply promise_all_uploading. unfold settled.
    split_and!; auto.
    + rewrite H2. discriminate.
    + rewrite H4. simpl. now rewrite Hws.
    + intros Hin. contradiction.
Qed.

Lemma startIngestion_invariant : invariant cfg (startIngestion cfg).
Proof.
  unfold startIngestion, invariant.
  assert (Hq : forall r,
    quiet (resolve r {| aborted := false; queue := []; uploaded := 0;
                        uploadId := ""; workers := []; main := AwaitInit;
                        trace := [] |})).
  { intros r. unfold quiet; simpl. split_and!; auto.
    - intros H. not_in_list H.
    - right. left. eauto. }
  assert (Hu : forall u,
    quiet (if bool_decide (u = "")
           then emit [ReqInit N]
                  {| aborted := false; queue := []; uploaded := 0;
                     uploadId := ""; workers := []; main := AwaitInit;
                     trace := [] |}
           else upload_phase cfg
                  (set_uploadId u
                     {| aborted := false; queue := []; uploaded := 0;
                        uploadId := ""; workers := []; main := AwaitInit;
                        trace := [] |}))
    \/ uploading cfg
         (if bool_decide (u = "")
          then emit [ReqInit N]
                 {| aborted := false; queue := []; uploaded := 0;
                    uploadId := ""; workers := []; main := AwaitInit;
                    trace := [] |}
          else upload_phase cfg
                 (set_uploadId u
                    {| aborted := false; queue := []; uploaded := 0;
                       uploadId := ""; workers := []; main := AwaitInit;
                       trace := [] |}))).
  { intros u. destruct (bool_decide (u = "")).
    - left. unfold quiet; simpl. split_and!; auto.
      intros H. not_in_list H.
    - right. apply upload_phase_uploading; simpl; auto.
      intros H. now apply elem_of_nil in H. }
  destruct (preflightResult cfg) as [[oid [u|] raw|oid [u|]]|];
    try (left; apply Hq); try apply Hu.
  destruct (bool_decide (u = "")); left; apply Hq.
Qed.

Lemma step_quiet (st st' : state) (ev : event) :
  quiet st -> step cfg st ev = Some st' -> invariant cfg st'.
Proof.
  intros (Hws & Hq & Hup & Ha & Hr & Hp & Hnc & Hmain) Hstep.
  destruct ev as [|r|w r|w|w|r|r|]; simpl in Hstep;
    rewrite ?Hws in Hstep; try discriminate;
    try (destruct Hmain as [Hm|[[? Hm]|[? Hm]]]; rewrite Hm in Hstep;
         discriminate).
  - injection Hstep as <-. left. unfold cancel, quiet; simpl.
    rewrite Hws; simpl. rewrite app_nil_r. split_and!; auto.
  - destruct (main st) eqn:Emain; try discriminate.
    injection Hstep as <-. unfold on_init, resolve, reject.
    assert (Hrej : forall e,
      quiet (emit [PromiseRejected e] (set_main (Rejected e) st))).
    { intros e. unfold quiet; simpl.
      rewrite acked_app, requested_app, progress_values_app, Ha, Hr, Hp.
      split_and!; eauto. intros H. now in_app H. }
    destruct r as [status body|]; [|left; apply Hrej].
    destruct (ok status); cbn [negb]; [|left; apply Hrej].
    destruct (init_exists body).
    { left. unfold quiet; simpl.
      rewrite !acked_app, !requested_app, !progress_values_app, Ha, Hr, Hp.
      split_and!; eauto. intros H. now in_app H. }
    destruct (init_uploadId body) as [u|]; [|left; apply Hrej].
    destruct (bool_decide (u = "")); [left; apply Hrej|].
    right. apply upload_phase_uploading; simpl; auto.
Qed.

Lemma step_invariant (st st' : state) (ev : event) :
  invariant cfg st -> step cfg st ev = Some st' -> invariant cfg st'.
Proof.
  intros [Hq|Hu] Hstep.
  - eapply step_quiet; eassumption.
  - right. eapply step_uploading; eassumption.
Qed.

Lemma run_invariant (evs : list event) (st st' : state) :
  invariant cfg st -> run cfg st evs = Some st' -> invariant cfg st'.
Proof.
  revert st. induction evs as [|ev evs IH]; intros st Hi Hrun; simpl in Hrun.
  - now injection Hrun as <-.
  - destruct (step cfg st ev) as [st1|] eqn:Hstep; [|discriminate].
    eapply IH; [|exact Hrun]. eapply step_invariant; eassumption.
Qed.

(** Every state the call can reach satisfies the invariant. *)
Lemma reachable_invariant (st : state) :
  reachable cfg st -> invariant cfg st.
Proof.
  intros [evs Hrun]. eapply run_invariant; [|exact Hrun].
  apply startIngestion_invariant.
Qed.

End MachineFacts.

(** ** The claims about the upload *)

Section UploadClaims.

Import Ingestion.

Lemma requested_elem (i : nat) (tr : list out_event) :
  In i (requested tr) -> exists r, ReqSegment i r ∈ tr.
Proof.
  unfold requested. rewrite in_flat_map. intros (e & He & Hi).
  destruct e; simpl in Hi; try contradiction.
  destruct Hi as [->|[]]. eexists. apply list_elem_of_In. exact He.
Qed.

Lemma active_finished (ws : list worker) :
  Forall (fun wk => wk = Finished) ws -> active ws = [] /\ no_failure ws.
Proof.
  induction 1 as [|wk ws -> _ [IH1 IH2]]; simpl.
  - split; [reflexivity | constructor].
  - split; [exact IH1 | now constructor].
Qed.

(** When the completion request is out, every index has been
    acknowledged once. *)
Lemma complete_all_acked (cfg : config) (st : state) :
  (1 <= concurrency cfg)%nat -> reachable cfg st ->
  ReqComplete ∈ trace st ->
  acked (trace st) ≡ₚ Segments.indices (total cfg).
Proof.
  intros HC Hr Hin. apply reachable_invariant in Hr as [Hq|Hu].
  - destruct Hq as (_ & _ & _ & _ & _ & _ & Hnc & _). contradiction.
  - destruct Hu as (Hc & _ & Hl & _ & Hf). specialize (Hf Hin).
    destruct (active_finished _ Hf) as [Hact Hnf].
    assert (Hq : queue st = []).
    { apply (core_drained _ _ _ _ _ Hc).
      destruct (workers st) as [|wk ws]; [simpl in Hl; lia|].
      apply Forall_inv in Hf as ->. now left. }
    pose proof (core_all _ _ _ _ _ Hc Hnf) as Hall.
    now rewrite Hq, Hact in Hall.
Qed.

(** C1: for a payload of size S and a part size P > 0, the segment
    count N is the ceiling of S/P (the least N with S <= N*P); every
    upload request is for an index i of 1..N and carries exactly the
    byte range [(i-1)*P, min(i*P, S)); once the completion request is
    out (with at least one worker) every index of 1..N has been
    requested and acknowledged exactly once; and the ranges of the indices 1..N are pairwise disjoint and
    cover exactly [0, S). *)
Theorem startIngestion_segments (cfg : config) (st : state) :
  (0 < partSize cfg)%Z -> (0 <= blob_size cfg)%Z ->
  reachable cfg st ->
  ((blob_size cfg <= Z.of_nat (total cfg) * partSize cfg)%Z
   /\ forall M : nat, (blob_size cfg <= Z.of_nat M * partSize cfg)%Z ->
                      (total cfg <= M)%nat)
  /\ (forall i r, ReqSegment i r ∈ trace st ->
        (1 <= i <= total cfg)%nat
        /\ r = ((Z.of_nat i - 1) * partSize cfg,
                Z.min (Z.of_nat i * partSize cfg) (blob_size cfg))%Z)
  /\ ((1 <= concurrency cfg)%nat -> ReqComplete ∈ trace st ->
        acked (trace st) ≡ₚ seq 1 (total cfg)
        /\ forall i, (1 <= i <= total cfg)%nat ->
                     ReqSegment i (chunk cfg i) ∈ trace st)
  /\ (forall b : Z,
        (0 <= b < blob_size cfg)%Z <->
        exists i, (1 <= i <= total cfg)%nat
                  /\ Segments.in_range b (chunk cfg i))
  /\ (forall (b : Z) (i j : nat),
        (1 <= i <= total cfg)%nat -> (1 <= j <= total cfg)%nat ->
        Segments.in_range b (chunk cfg i) ->
        Segments.in_range b (chunk cfg j) -> i = j).
Proof.
  intros HP HS Hr.
  pose proof (total_bounds _ _ HP HS) as [Hlb Hub].
  split_and!.
  - exact Hlb.
  - intros M HM. now apply total_least.
  - intros i r Hin.
    assert (Hi : r = chunk cfg i /\ i ∈ Segments.indices (total cfg)).
    { apply reachable_invariant in Hr as [Hq|Hu].
      - destruct Hq as (_ & _ & _ & _ & Hreq & _).
        apply requested_in in Hin. rewrite Hreq in Hin. destruct Hin.
      - destruct Hu as (Hc & _). exact (core_shape _ _ _ _ _ Hc i r Hin). }
    destruct Hi as [-> Hi%list_elem_of_In]. split.
    + now apply in_indices.
    + unfold chunk. now destruct (chunk_eq _ _ i HP HS Hi) as [-> _].
  - intros HC Hin.
    pose proof (complete_all_acked cfg st HC Hr Hin) as Hall.
    split; [exact Hall|]. intros i Hi.
    assert (Hia : i ∈ acked (trace st)).
    { rewrite Hall. apply list_elem_of_In, in_indices. exact Hi. }
    apply reachable_invariant in Hr as [Hq|Hu].
    + destruct Hq as (_ & _ & _ & Ha & _). rewrite Ha in Hia.
      now apply elem_of_nil in Hia.
    + destruct Hu as (Hc & _).
      pose proof (core_acked _ _ _ _ _ Hc i Hia) as Hatt.
      assert (Hreq : In i (requested (trace st))).
      { apply (count_occ_In Nat.eq_dec). unfold attempts in Hatt. lia. }
      apply requested_elem in Hreq as [r Hreq].
      now destruct (core_shape _ _ _ _ _ Hc i r Hreq) as [<- _].
  - intros b. rewrite (chunks_cover _ _ b HP HS).
    split; intros (i & Hi & Hb); exists i; (split; [|exact Hb]);
      now apply in_indices.
  - intros b i j Hi Hj. apply chunks_disjoint; auto; now apply in_indices.
Qed.

Lemma startIngestion_segments_witness :
  reachable Examples.cfg5 (Examples.after Examples.cfg5 Examples.upload5)
  /\ acked (trace (Examples.after Examples.cfg5 Examples.upload5))
     ≡ₚ [1; 2; 3]%nat.
Proof.
  assert (Hr : reachable Examples.cfg5
                 (Examples.after Examples.cfg5 Examples.upload5)).
  { exists Examples.upload5. vm_compute. reflexivity. }
  split; [exact Hr|].
  refine (proj1 (proj1 (proj2 (proj2
    (startIngestion_segments Examples.cfg5 _ _ _ Hr))) _ _)).
  - reflexivity.
  - discriminate.
  - vm_compute. lia.
  - vm_compute. set_solver.
Defined.






Lemma run_app (cfg : config) (evs evs' : list event) (st : state) :
  run cfg st (evs ++ evs')
  = match run cfg st evs with
    | Some st' => run cfg st' evs'
    | None => None
    end.
Proof.
  revert st. induction evs as [|ev evs IH]; intros st; simpl; [reflexivity|].
  destruct (step cfg st ev); [apply IH | reflexivity].
Qed.

Lemma reachable_run (cfg : config) (evs : list event) (st st' : state) :
  reachable cfg st -> run cfg st evs = Some st' -> reachable cfg st'.
Proof.
  intros [evs0 Hrun0] Hrun. exists (evs0 ++ evs).
  now rewrite run_app, Hrun0.
Qed.

Lemma promise_all_idle (st : state) :
  (main st = AwaitWorkers ->
   no_failure (workers st) /\ exists wk, wk ∈ workers st /\ wk <> Finished) ->
  promise_all st = st.
Proof.
  intros H. unfold promise_all. destruct (main st); try reflexivity.
  destruct (H eq_refl) as [Hnf (wk & Hwk & Hne)].
  apply first_failed_None in Hnf. rewrite Hnf.
  destruct (forallb is_finished (workers st)) eqn:Efin; [|reflexivity].
  apply all_finished in Efin. rewrite Forall_forall in Efin.
  now specialize (Efin wk Hwk).
Qed.

Lemma first_failed_insert (ws : list worker) (w : nat) (wk0 : worker)
    (e : js_error) :
  no_failure ws -> ws !! w = Some wk0 ->
  first_failed (<[w:=Failed e]> ws) = Some e.
Proof.
  unfold no_failure. revert w.
  induction ws as [|wk ws IH]; intros [|w] Hnf Hlk; simpl in *;
    try discriminate; [reflexivity|].
  pose proof (Forall_inv Hnf) as Hwk. apply Forall_inv_tail in Hnf.
  destruct wk; try discriminate; now apply IH.
Qed.

(** A worker that has not failed stays with the others' view of
    [Promise.all]. *)
Lemma put_worker_idle (cfg : config) (st st1 : state) (w : nat)
    (wk0 wk' : worker) :
  invariant cfg st -> workers st !! w = Some wk0 ->
  workers st1 = workers st -> main st1 = main st ->
  is_failed wk' = false -> wk' <> Finished ->
  put_worker w (wk', st1) = set_workers (<[w:=wk']> (workers st)) st1.
Proof.
  intros Hinv Hlk Hws Hmain Hnf Hne. unfold put_worker; simpl.
  rewrite Hws. apply promise_all_idle; simpl. rewrite Hmain. intros Hm.
  destruct Hinv as [Hq|Hu].
  - destruct Hq as (Hnil & _). rewrite Hnil in Hlk. discriminate.
  - destruct Hu as (_ & _ & _ & Hw & _). destruct (Hw Hm) as [Hno _]. split.
    + unfold no_failure in *. now apply Forall_insert.
    + exists wk'. split; [|exact Hne].
      eapply list_elem_of_lookup_2. apply list_lookup_insert_eq.
      eapply lookup_lt_Some; eassumption.
Qed.

Lemma failed_persistent (cfg : config) (st st' : state) (ev : event)
    (w : nat) (e : js_error) :
  invariant cfg st -> workers st !! w = Some (Failed e) ->
  step cfg st ev = Some st' -> workers st' !! w = Some (Failed e).
Proof.
  intros Hinv Hlk Hstep.
  assert (Hpa : forall s, workers (promise_all s) = workers s).
  { intros s. unfold promise_all.
    destruct (main s); try reflexivity.
    destruct (first_failed (workers s)); [reflexivity|].
    destruct (forallb is_finished (workers s)); reflexivity. }
  assert (Hput : forall w' wk0 r, workers st !! w' = Some wk0 ->
             is_failed wk0 = false -> workers (snd r) = workers st ->
             workers (put_worker w' r) !! w = Some (Failed e)).
  { intros w' wk0 r Hlk' Hnf Hws. unfold put_worker.
    rewrite Hpa; simpl. rewrite Hws.
    rewrite list_lookup_insert_ne; [exact Hlk|].
    intros ->. rewrite Hlk in Hlk'. injection Hlk' as <-. discriminate. }
  assert (Hdrain : forall s, workers (snd (worker_loop cfg s)) = workers s).
  { intros s. unfold worker_loop. rewrite drain_eq.
    destruct (queue s); [reflexivity|]. destruct (aborted s); reflexivity. }
  assert (Hfail : forall i t e0,
             workers (snd (on_attempt_failed i t e0 st)) = workers st).
  { intros i t e0. unfold on_attempt_failed.
    destruct (aborted st); [reflexivity|].
    destruct (t <=? 0)%nat; reflexivity. }
  destruct ev as [|r|w' r|w'|w'|r|r|]; simpl in Hstep.
  - injection Hstep as <-. unfold cancel; simpl.
    now rewrite list_lookup_fmap, Hlk.
  - destruct Hinv as [Hq|Hu].
    + destruct Hq as (Hnil & _). rewrite Hnil in Hlk. discriminate.
    + destruct Hu as (_ & Hm & _). destruct (main st); try discriminate.
      contradiction.
  - destruct (workers st !! w') as [[i t [|]| | |]|] eqn:Hlk';
      try discriminate.
    injection Hstep as <-. eapply Hput; eauto.
    unfold on_segment. destruct r as [status []|]; [|apply Hfail].
    destruct (ok status); cbn [negb]; [|apply Hfail].
    now rewrite Hdrain.
  - destruct (workers st !! w') as [[i t [|]| | |]|] eqn:Hlk';
      try discriminate.
    injection Hstep as <-. eapply Hput; eauto.
  - destruct (workers st !! w') as [[|i t| |]|] eqn:Hlk'; try discriminate.
    injection Hstep as <-. eapply Hput; eauto.
    unfold on_retry. destruct t as [|t]; simpl; [|reflexivity].
    now rewrite Hdrain.
  - destruct (main st); try discriminate. injection Hstep as <-.
    unfold on_complete, poll_top, reject.
    destruct r as [status []|]; [destruct (ok status)|]; simpl;
      [destruct (aborted st)|..]; exact Hlk.
  - destruct (main st); try discriminate. injection Hstep as <-.
    unfold on_status, resolve, reject.
    destruct r as [status body|]; simpl; [|exact Hlk].
    destruct (bool_decide (stage body = "DONE")); [exact Hlk|].
    destruct (bool_decide (stage body = "FAILED")
              || bool_decide (stage body = "UNKNOWN")); exact Hlk.
  - destruct (main st); try discriminate. injection Hstep as <-.
    unfold poll_top, reject. destruct (aborted st); exact Hlk.
Qed.

Lemma failed_forever (cfg : config) (evs : list event) (st st' : state)
    (w : nat) (e : js_error) :
  invariant cfg st -> workers st !! w = Some (Failed e) ->
  run cfg st evs = Some st' -> workers st' !! w = Some (Failed e).
Proof.
  revert st. induction evs as [|ev evs IH]; intros st Hinv Hlk Hrun;
    simpl in Hrun.
  - now injection Hrun as <-.
  - destruct (step cfg st ev) as [st1|] eqn:Hstep; [|discriminate].
    eapply IH; [| |exact Hrun].
    + eapply step_invariant; eassumption.
    + eapply failed_persistent; eassumption.
Qed.

Lemma failed_no_complete (cfg : config) (st : state) (w : nat)
    (e : js_error) :
  invariant cfg st -> workers st !! w = Some (Failed e) ->
  ReqComplete ∉ trace st.
Proof.
  intros [Hq|Hu] Hlk Hin.
  - destruct Hq as (_ & _ & _ & _ & _ & _ & Hnc & _). contradiction.
  - destruct Hu as (_ & _ & _ & _ & Hf). specialize (Hf Hin).
    rewrite Forall_forall in Hf.
    specialize (Hf _ (list_elem_of_lookup_2 _ _ _ Hlk)). discriminate.
Qed.

Lemma on_segment_error (cfg : config) (i t : nat) (r : outcome unit)
    (e : js_error) (st : state) :
  attempt_error i r = Some e ->
  on_segment cfg i t r st = on_attempt_failed i t e st.
Proof.
  unfold attempt_error, on_segment. destruct r as [status []|].
  - destruct (ok status); [discriminate|]. now intros [= <-].
  - now intros [= <-].
Qed.

(** C4: no segment is requested more than three times; the budget a
    worker has left is three minus the requests already issued for its
    segment; a failed attempt with budget left is followed by the fixed
    400ms timer and, when the timer fires, by the next request for the
    same segment; when the third attempt fails the worker rejects with
    that error and so does the promise of the whole upload (if it is
    still pending); and after a worker has failed no completion request
    is ever issued. *)
Theorem uploadOne_retries (cfg : config) (st : state) :
  reachable cfg st ->
  (forall i, (attempts i (trace st) <= 3)%nat)
  /\ (forall w i t b, workers st !! w = Some (Fetching i t b) ->
        (attempts i (trace st) + t = 3)%nat /\ (1 <= attempts i (trace st))%nat)
  /\ (forall w i t r e,
        workers st !! w = Some (Fetching i (S t) false) ->
        aborted st = false -> attempt_error i r = Some e ->
        exists st1 st2,
          step cfg st (SegmentSettled w r) = Some st1
          /\ workers st1 !! w = Some (Backoff i (S t))
          /\ trace st1 = trace st ++ [SetTimeout 400]
          /\ step cfg st1 (RetryTimer w) = Some st2
          /\ workers st2 !! w = Some (Fetching i t false)
          /\ trace st2 = trace st1 ++ [ReqSegment i (chunk cfg i)])
  /\ (forall w i r e,
        workers st !! w = Some (Fetching i 0 false) ->
        attempt_error i r = Some e ->
        exists st1,
          step cfg st (SegmentSettled w r) = Some st1
          /\ workers st1 !! w = Some (Failed e)
          /\ (main st = AwaitWorkers ->
              main st1 = Rejected e
              /\ trace st1 = trace st ++ [PromiseRejected e]))
  /\ (forall w e evs st',
        workers st !! w = Some (Failed e) ->
        run cfg st evs = Some st' -> ReqComplete ∉ trace st').
Proof.
  intros Hr. pose proof (reachable_invariant cfg st Hr) as Hinv.
  split_and!.
  - intros i. destruct Hinv as [Hq|Hu].
    + destruct Hq as (_ & _ & _ & _ & Hreq & _).
      unfold attempts. rewrite Hreq. simpl. lia.
    + destruct Hu as (Hc & _). apply (core_bound _ _ _ _ _ Hc).
  - intros w i t b Hlk. destruct Hinv as [Hq|Hu].
    + destruct Hq as (Hnil & _). rewrite Hnil in Hlk. discriminate.
    + destruct Hu as (Hc & _). pose proof (core_tries _ _ _ _ _ Hc) as Ht.
      rewrite Forall_forall in Ht.
      specialize (Ht _ (list_elem_of_lookup_2 _ _ _ Hlk)). simpl in Ht. lia.
  - intros w i t r e Hlk Hab He.
    assert (Hlt : (w < length (workers st))%nat)
      by (eapply lookup_lt_Some; eassumption).
    set (st1 := set_workers (<[w:=Backoff i (S t)]> (workers st))
                  (emit [SetTimeout 400] st)).
    set (st2 := set_workers (<[w:=Fetching i t false]> (workers st1))
                  (emit [ReqSegment i (chunk cfg i)] st1)).
    assert (Hs1 : step cfg st (SegmentSettled w r) = Some st1).
    { simpl. rewrite Hlk. rewrite (on_segment_error _ _ _ _ _ _ He).
      unfold on_attempt_failed. rewrite Hab. cbn [Nat.leb]. f_equal.
      eapply put_worker_idle; eauto; discriminate. }
    assert (Hinv1 : invariant cfg st1)
      by (eapply step_invariant; eassumption).
    assert (Hlk1 : workers st1 !! w = Some (Backoff i (S t)))
      by (simpl; now apply list_lookup_insert_eq).
    exists st1, st2. split_and!; try reflexivity; try assumption.
    + unfold step. rewrite Hlk1. unfold on_retry, attempt. f_equal.
      eapply put_worker_idle; eauto; discriminate.
    + simpl. apply list_lookup_insert_eq. now rewrite length_insert.
  - intros w i r e Hlk He.
    assert (Hlt : (w < length (workers st))%nat)
      by (eapply lookup_lt_Some; eassumption).
    eexists. split.
    { simpl. rewrite Hlk. reflexivity. }
    rewrite (on_segment_error _ _ _ _ _ _ He).
    assert (Hf : on_attempt_failed i 0 e st = (Failed e, st)).
    { unfold on_attempt_failed. now destruct (aborted st). }
    rewrite Hf. unfold put_worker, promise_all; simpl. split.
    + destruct (main st);
        try (simpl; now apply list_lookup_insert_eq).
      destruct (first_failed (<[w:=Failed e]> (workers st)));
        [simpl; now apply list_lookup_insert_eq|].
      destruct (forallb is_finished (<[w:=Failed e]> (workers st)));
        simpl; now apply list_lookup_insert_eq.
    + intros Hm. rewrite Hm.
      destruct Hinv as [Hq|Hu].
      * destruct Hq as (Hnil & _). rewrite Hnil in Hlk. discriminate.
      * destruct Hu as (_ & _ & _ & Hw & _). destruct (Hw Hm) as [Hnf _].
        rewrite (first_failed_insert _ _ _ e Hnf Hlk). simpl. auto.
  - intros w e evs st' Hlk Hrun.
    eapply failed_no_complete.
    + eapply run_invariant; eassumption.
    + eapply failed_forever; eassumption.
Qed.

Lemma uploadOne_retries_witness :
  reachable Examples.cfg1 (Examples.after Examples.cfg1 Examples.refused_twice)
  /\ forall i,
      (attempts i (trace (Examples.after Examples.cfg1
                            Examples.refused_twice)) <= 3)%nat.
Proof.
  assert (Hr : reachable Examples.cfg1
                 (Examples.after Examples.cfg1 Examples.refused_twice)).
  { exists Examples.refused_twice. vm_compute. reflexivity. }
  split; [exact Hr|].
  exact (proj1 (uploadOne_retries Examples.cfg1 _ Hr)).
Defined.







End UploadClaims.

(** ** Cancellation and polling *)

Section CancelClaims.

Import Ingestion.

Lemma promise_all_effect (st : state) :
  aborted (promise_all st) = aborted st
  /\ workers (promise_all st) = workers st
  /\ exists es, trace (promise_all st) = trace st ++ es
                /\ starts_nothing [] es.
Proof.
  unfold promise_all, starts_nothing.
  assert (Hnil : exists es : list out_event,
            trace st = trace st ++ es
            /\ (ReqStatus ∉ es) /\ forall i r, ReqSegment i r ∈ es -> i ∈ []).
  { exists []. rewrite app_nil_r. split_and!; auto.
    - intros H. now apply elem_of_nil in H.
    - intros i r H. now apply elem_of_nil in H. }
  destruct (main st); auto.
  destruct (first_failed (workers st)) as [e|].
  - simpl. split_and!; auto. eexists. split_and!; [reflexivity| |].
    + intros H. not_in_list H.
    + intros i r H. exfalso. not_in_list H.
  - destruct (forallb is_finished (workers st)); auto.
    simpl. split_and!; auto. eexists. split_and!; [reflexivity| |].
    + intros H. not_in_list H.
    + intros i r H. exfalso. not_in_list H.
Qed.

Lemma starts_nothing_app (l : list nat) (es es' : list out_event) :
  starts_nothing l es -> starts_nothing [] es' -> starts_nothing l (es ++ es').
Proof.
  intros [H1 H2] [H3 H4]. split.
  - intros H. apply elem_of_app in H as [H|H]; auto.
  - intros i r H. apply elem_of_app in H as [H|H]; [eauto|].
    apply H4 in H. now apply elem_of_nil in H.
Qed.

Lemma put_worker_effect (w : nat) (wk : worker) (st st1 : state)
    (l : list nat) (es : list out_event) :
  aborted st1 = true -> trace st1 = trace st ++ es -> starts_nothing l es ->
  aborted (put_worker w (wk, st1)) = true
  /\ exists es', trace (put_worker w (wk, st1)) = trace st ++ es'
                 /\ starts_nothing l es'.
Proof.
  intros Hab Htr Hes. unfold put_worker; simpl.
  destruct (promise_all_effect
              (set_workers (<[w:=wk]> (workers st1)) st1))
    as (H1 & _ & es' & H2 & H3).
  rewrite H1, H2. simpl. rewrite Htr, <- app_assoc.
  split; [exact Hab|]. eexists. split; [reflexivity|].
  now apply starts_nothing_app.
Qed.

Lemma worker_loop_aborted (cfg : config) (st : state) :
  aborted st = true ->
  aborted (snd (worker_loop cfg st)) = true
  /\ trace (snd (worker_loop cfg st)) = trace st
  /\ workers (snd (worker_loop cfg st)) = workers st
  /\ main (snd (worker_loop cfg st)) = main st
  /\ (fst (worker_loop cfg st) = Finished
      \/ fst (worker_loop cfg st) = Failed AbortError).
Proof.
  intros Hab. unfold worker_loop. rewrite drain_eq, Hab.
  destruct (queue st); simpl; split_and!; auto.
Qed.

Lemma spawn_aborted (cfg : config) (n : nat) (st : state) :
  aborted st = true ->
  aborted (spawn cfg n st) = true
  /\ trace (spawn cfg n st) = trace st
  /\ main (spawn cfg n st) = main st.
Proof.
  revert st. induction n as [|n IH]; intros st Hab; simpl; auto.
  destruct (worker_loop_aborted cfg st Hab) as (H1 & H2 & H3 & H4 & _).
  destruct (worker_loop cfg st) as [wk st1]. simpl in *.
  destruct (IH (set_workers (workers st1 ++ [wk]) st1)) as (G1 & G2 & G3);
    [exact H1|].
  rewrite G1, G2, G3. simpl. auto.
Qed.

Lemma nothing_nil (l : list nat) : starts_nothing l [].
Proof.
  split.
  - intros H. now apply elem_of_nil in H.
  - intros i r H. now apply elem_of_nil in H.
Qed.

(** Once [aborted] is set it stays set; no status request is issued
    any more, and the only upload requests are retries of segments whose
    worker was waiting for its 400ms timer. *)
Lemma step_after_cancel (cfg : config) (st st' : state) (ev : event) :
  aborted st = true -> step cfg st ev = Some st' ->
  aborted st' = true
  /\ exists es, trace st' = trace st ++ es
     /\ (ReqStatus ∉ es)
     /\ forall i r, ReqSegment i r ∈ es ->
        exists w t, ev = RetryTimer w /\ workers st !! w = Some (Backoff i t).
Proof.
  intros Hab Hstep.
  assert (Hweak : forall s,
    (aborted s = true /\ exists es, trace s = trace st ++ es
                                    /\ starts_nothing [] es) ->
    aborted s = true
    /\ exists es, trace s = trace st ++ es
       /\ (ReqStatus ∉ es)
       /\ forall i r, ReqSegment i r ∈ es ->
          exists w t, ev = RetryTimer w
                      /\ workers st !! w = Some (Backoff i t)).
  { intros s (H1 & es & H2 & H3 & H4). split; [exact H1|].
    exists es. split_and!; auto. intros i r Hin.
    apply H4 in Hin. now apply elem_of_nil in Hin. }
  assert (Hsimple : forall es : list out_event,
    (ReqStatus ∉ es) -> (forall i r, ReqSegment i r ∉ es) ->
    starts_nothing [] es).
  { intros es H1 H2. split; [exact H1|]. intros i r Hin.
    now apply H2 in Hin. }
  destruct ev as [|r|w r|w|w|r|r|]; simpl in Hstep.
  - injection Hstep as <-. apply Hweak. unfold cancel; simpl.
    split; [reflexivity|]. eexists. split; [reflexivity|].
    apply Hsimple.
    + intros Hin. apply list_elem_of_In, in_flat_map in Hin as (wk & _ & Hin).
      destruct wk as [? ? []| | |]; simpl in Hin; intuition discriminate.
    + intros i r Hin.
      apply list_elem_of_In, in_flat_map in Hin as (wk & _ & Hin).
      destruct wk as [? ? []| | |]; simpl in Hin; intuition discriminate.
  - destruct (main st); try discriminate. injection Hstep as <-.
    apply Hweak. unfold on_init, resolve, reject.
    assert (Hup : forall u,
      aborted (upload_phase cfg (set_uploadId u st)) = true
      /\ exists es, trace (upload_phase cfg (set_uploadId u st))
                    = trace st ++ es /\ starts_nothing [] es).
    { intros u. unfold upload_phase.
      set (st1 := set_uploaded 0 _).
      destruct (spawn_aborted cfg (concurrency cfg) st1 Hab)
        as (G1 & G2 & G3).
      destruct (promise_all_effect (spawn cfg (concurrency cfg) st1))
        as (K1 & _ & es & K2 & K3).
      rewrite K1, K2, G1, G2. simpl. eauto. }
    destruct r as [status body|]; simpl.
    + destruct (ok status); simpl.
      * destruct (init_exists body); simpl.
        { split; [exact Hab|]. rewrite <- app_assoc.
          eexists. split; [reflexivity|]. apply Hsimple.
          - intros H. not_in_list H.
          - intros i r H. not_in_list H. }
        destruct (init_uploadId body) as [u|]; simpl.
        { destruct (bool_decide (u = "")); simpl; [|apply Hup].
          split; [exact Hab|]. eexists. split; [reflexivity|].
          apply Hsimple.
          - intros H. not_in_list H.
          - intros i r H. not_in_list H. }
        split; [exact Hab|]. eexists. split; [reflexivity|]. apply Hsimple.
        { intros H. not_in_list H. }
        { intros i r H. not_in_list H. }
      * split; [exact Hab|]. eexists. split; [reflexivity|]. apply Hsimple.
        { intros H. not_in_list H. }
        { intros i r H. not_in_list H. }
    + split; [exact Hab|]. eexists. split; [reflexivity|]. apply Hsimple.
      * intros H. not_in_list H.
      * intros i r H. not_in_list H.
  - destruct (workers st !! w) as [[i t [|]| | |]|] eqn:Hlk; try discriminate.
    injection Hstep as <-. apply Hweak. unfold on_segment.
    assert (Hfail : forall e,
      aborted (put_worker w (on_attempt_failed i t e st)) = true
      /\ exists es, trace (put_worker w (on_attempt_failed i t e st))
                    = trace st ++ es /\ starts_nothing [] es).
    { intros e. unfold on_attempt_failed. rewrite Hab.
      eapply put_worker_effect; [exact Hab| |apply nothing_nil].
      now rewrite app_nil_r. }
    destruct r as [status []|]; [|apply Hfail].
    destruct (ok status); cbn [negb]; [|apply Hfail].
    set (s1 := emit _ _).
    destruct (worker_loop_aborted cfg s1 Hab) as (H1 & H2 & _).
    destruct (worker_loop cfg s1) as [wk s2]. simpl in H1, H2.
    eapply put_worker_effect; [exact H1|rewrite H2; reflexivity|].
    apply Hsimple.
    + intros H. not_in_list H.
    + intros j r H. not_in_list H.
  - destruct (workers st !! w) as [[i t [|]| | |]|] eqn:Hlk; try discriminate.
    injection Hstep as <-. apply Hweak.
    unfold on_attempt_failed. rewrite Hab.
    eapply put_worker_effect; [exact Hab| |apply nothing_nil].
    now rewrite app_nil_r.
  - destruct (workers st !! w) as [[|i t| |]|] eqn:Hlk; try discriminate.
    injection Hstep as <-. unfold on_retry, attempt.
    destruct t as [|t].
    + apply Hweak.
      destruct (worker_loop_aborted cfg st Hab) as (H1 & H2 & _).
      destruct (worker_loop cfg st) as [wk s2]. simpl in H1, H2.
      eapply put_worker_effect; [exact H1| |apply nothing_nil].
      now rewrite H2, app_nil_r.
    + destruct (put_worker_effect w (Fetching i t false)
                  st (emit [ReqSegment i (chunk cfg i)] st) [i]
                  [ReqSegment i (chunk cfg i)] Hab eq_refl)
        as (H1 & es & H2 & H3 & H4).
      { split.
        - intros H. not_in_list H.
        - intros j r H. apply list_elem_of_singleton in H.
          injection H as -> _. now left. }
      split; [exact H1|]. exists es. split_and!; auto.
      intros j r Hin. apply H4, list_elem_of_singleton in Hin as ->.
      eauto.
  - destruct (main st); try discriminate. injection Hstep as <-.
    apply Hweak. unfold on_complete, poll_top, reject. rewrite Hab.
    destruct r as [status []|]; [destruct (ok status)|]; simpl;
      (split; [exact Hab|]; eexists; split; [reflexivity|]; apply Hsimple;
       [intros H; not_in_list H | intros i r H; not_in_list H]).
  - destruct (main st); try discriminate. injection Hstep as <-.
    apply Hweak. unfold on_status, resolve, reject.
    destruct r as [status body|]; simpl;
      [destruct (bool_decide (stage body = "DONE"));
       [|destruct (bool_decide (stage body = "FAILED")
                   || bool_decide (stage body = "UNKNOWN"))]; simpl|];
      rewrite <- ?app_assoc;
      (split; [exact Hab|]; eexists; split; [reflexivity|]; apply Hsimple;
       [intros H; not_in_list H | intros i r H; not_in_list H]).
  - destruct (main st); try discriminate. injection Hstep as <-.
    apply Hweak. unfold poll_top, reject. rewrite Hab. simpl.
    split; [exact Hab|]. eexists. split; [reflexivity|]. apply Hsimple.
    + intros H. not_in_list H.
    + intros i r H. not_in_list H.
Qed.

Lemma run_after_cancel (cfg : config) (evs : list event) (st st' : state) :
  aborted st = true -> run cfg st evs = Some st' -> aborted st' = true.
Proof.
  revert st. induction evs as [|ev evs IH]; intros st Hab Hrun;
    simpl in Hrun.
  - now injection Hrun as <-.
  - destruct (step cfg st ev) as [st1|] eqn:Hstep; [|discriminate].
    eapply IH; [|exact Hrun].
    now destruct (step_after_cancel cfg st st1 ev Hab Hstep).
Qed.

Lemma cancel_aborts_signals (st : state) (w i t : nat) (b : bool) :
  workers (cancel st) !! w = Some (Fetching i t b) -> b = true.
Proof.
  unfold cancel; simpl. rewrite list_lookup_fmap.
  destruct (workers st !! w) as [[]|]; simpl; intros [=]; auto.
Qed.

Lemma cancel_calls_abort (st : state) (w i t : nat) :
  workers st !! w = Some (Fetching i t false) ->
  CtlAbort i ∈ trace (cancel st).
Proof.
  intros Hlk. unfold cancel; simpl. apply elem_of_app. right.
  apply list_elem_of_In, in_flat_map. exists (Fetching i t false).
  split; [|now left]. apply list_elem_of_In.
  eapply list_elem_of_lookup_2; eassumption.
Qed.

(** C5, as the code has it: once the cancel function has been called
    (a) the flag stays set, no segment is taken from the queue and
    started, and no status request is issued: the only upload requests
    still issued are retries of a segment whose worker was waiting for
    its 400ms timer; (b) every in-flight segment upload has its
    controller aborted (the init, completion and status requests carry
    no signal); (c) the promise rejects with AbortError when an aborted
    segment upload settles while the workers are awaited, at the next
    turn of the polling loop, and when the completion request succeeds;
    the task then shows Error{cancelled}. *)
Theorem cancel_effects (cfg : config) (st : state) :
  reachable cfg st ->
  aborted (cancel st) = true
  /\ (forall w i t b,
        workers (cancel st) !! w = Some (Fetching i t b) -> b = true)
  /\ (forall w i t,
        workers st !! w = Some (Fetching i t false) ->
        CtlAbort i ∈ trace (cancel st))
  /\ (forall evs st1 ev st2,
        run cfg (cancel st) evs = Some st1 -> step cfg st1 ev = Some st2 ->
        aborted st2 = true
        /\ exists es, trace st2 = trace st1 ++ es
           /\ (ReqStatus ∉ es)
           /\ forall i r, ReqSegment i r ∈ es ->
              exists w t, ev = RetryTimer w
                          /\ workers st1 !! w = Some (Backoff i t))
  /\ (forall evs st1 w st2,
        run cfg (cancel st) evs = Some st1 -> main st1 = AwaitWorkers ->
        step cfg st1 (SegmentAborted w) = Some st2 ->
        main st2 = Rejected AbortError)
  /\ (forall evs st1 st2,
        run cfg (cancel st) evs = Some st1 ->
        step cfg st1 PollTimer = Some st2 ->
        main st2 = Rejected AbortError)
  /\ (forall evs st1 status st2,
        run cfg (cancel st) evs = Some st1 -> ok status = true ->
        step cfg st1 (CompleteSettled (Response status tt)) = Some st2 ->
        main st2 = Rejected AbortError)
  /\ Snackbar.pipeline_observe (PromiseRejected AbortError)
     = [Snackbar.Error Snackbar.E_cancelled "已取消"].
Proof.
  intros Hr.
  assert (Hrc : reachable cfg (cancel st)).
  { apply (reachable_run cfg [Cancel] st); [exact Hr | reflexivity]. }
  assert (Hab : forall evs st1,
            run cfg (cancel st) evs = Some st1 -> aborted st1 = true).
  { intros evs st1. now apply run_after_cancel. }
  split_and!.
  - reflexivity.
  - apply cancel_aborts_signals.
  - apply cancel_calls_abort.
  - intros evs st1 ev st2 Hrun Hstep.
    eapply step_after_cancel; eauto.
  - intros evs st1 w st2 Hrun Hm Hstep. simpl in Hstep.
    destruct (workers st1 !! w) as [[i t [|]| | |]|] eqn:Hlk;
      try discriminate.
    injection Hstep as <-.
    unfold on_attempt_failed. rewrite (Hab _ _ Hrun).
    unfold put_worker, promise_all; simpl. rewrite Hm.
    pose proof (reachable_invariant cfg st1 (reachable_run _ _ _ _ Hrc Hrun))
      as [Hq|Hu].
    + destruct Hq as (Hnil & _). rewrite Hnil in Hlk. discriminate.
    + destruct Hu as (_ & _ & _ & Hw & _). destruct (Hw Hm) as [Hnf _].
      now rewrite (first_failed_insert _ _ _ AbortError Hnf Hlk).
  - intros evs st1 st2 Hrun Hstep. simpl in Hstep.
    destruct (main st1); try discriminate. injection Hstep as <-.
    unfold poll_top. now rewrite (Hab _ _ Hrun).
  - intros evs st1 status st2 Hrun Hok Hstep. simpl in Hstep.
    destruct (main st1); try discriminate. injection Hstep as <-.
    unfold on_complete, poll_top. now rewrite Hok, (Hab _ _ Hrun).
  - reflexivity.
Qed.

Lemma cancel_effects_witness :
  reachable Examples.cfg1
    (Examples.after Examples.cfg1 [InitSettled (Examples.init_ok "u1")])
  /\ aborted (cancel (Examples.after Examples.cfg1
                        [InitSettled (Examples.init_ok "u1")])) = true.
Proof.
  assert (Hr : reachable Examples.cfg1
                 (Examples.after Examples.cfg1
                    [InitSettled (Examples.init_ok "u1")])).
  { exists [InitSettled (Examples.init_ok "u1")]. vm_compute. reflexivity. }
  split; [exact Hr|].
  exact (proj1 (cancel_effects Examples.cfg1 _ Hr)).
Defined.

(** C5 as stated fails: the upload is complete, the cancel function is
    called while the first status request is in flight (the request
    carries no signal and is not aborted), the answer says DONE, and the
    promise resolves instead of rejecting with AbortError. *)
Lemma cancel_late_resolves :
  ~ (forall cfg evs evs' st1 st2,
       run cfg (startIngestion cfg) evs = Some st1 ->
       is_pending (main st1) = true ->
       run cfg st1 (Cancel :: evs') = Some st2 ->
       is_pending (main st2) = false ->
       main st2 = Rejected AbortError).
Proof.
  intros H.
  assert (H1 : run Examples.cfg1 (startIngestion Examples.cfg1)
                 Examples.uploaded1
               = Some (Examples.after Examples.cfg1 Examples.uploaded1))
    by (vm_compute; reflexivity).
  assert (H2 : is_pending
                 (main (Examples.after Examples.cfg1 Examples.uploaded1))
               = true)
    by (vm_compute; reflexivity).
  assert (H3 : run Examples.cfg1
                 (Examples.after Examples.cfg1 Examples.uploaded1)
                 (Cancel :: Examples.done_late)
               = Some (Examples.after Examples.cfg1
                         (Examples.uploaded1
                            ++ Cancel :: Examples.done_late)))
    by (vm_compute; reflexivity).
  assert (H4 : is_pending
                 (main (Examples.after Examples.cfg1
                          (Examples.uploaded1
                             ++ Cancel :: Examples.done_late)))
               = false)
    by (vm_compute; reflexivity).
  specialize (H _ _ _ _ _ H1 H2 H3 H4).
  vm_compute in H. discriminate H.
Qed.

End CancelClaims.

Section PollingClaims.

Import Ingestion.

Lemma terminal_false (s : string) :
  terminal s = false -> s <> "DONE" /\ s <> "FAILED" /\ s <> "UNKNOWN".
Proof.
  unfold terminal. intros H.
  apply orb_false_elim in H as [H H3]. apply orb_false_elim in H as [H1 H2].
  apply bool_decide_eq_false in H1, H2, H3. auto.
Qed.

Lemma on_status_continue (cfg : config) (st : state) (s : Z)
    (b : status_body) :
  terminal (stage b) = false ->
  on_status cfg (Response s b) st
  = emit [SetTimeout 1000]
      (set_main AwaitPollTimer
         (emit [OnServerStage (stage b) (progress_of b)] st)).
Proof.
  intros (H1 & H2 & H3)%terminal_false. unfold on_status.
  now rewrite !bool_decide_false by assumption.
Qed.

Lemma step_status (cfg : config) (st : state) (r : outcome status_body) :
  main st = AwaitStatus ->
  step cfg st (StatusSettled r) = Some (on_status cfg r st).
Proof. intros Hm. simpl. now rewrite Hm. Qed.

Lemma step_poll_timer (cfg : config) (st : state) :
  main st = AwaitPollTimer -> step cfg st PollTimer = Some (poll_top st).
Proof. intros Hm. simpl. now rewrite Hm. Qed.

Lemma run_cons (cfg : config) (st : state) (ev : event) (evs : list event) :
  run cfg st (ev :: evs)
  = match step cfg st ev with
    | Some st' => run cfg st' evs
    | None => None
    end.
Proof. reflexivity. Qed.

(** Answers that do not end the loop are reported and followed by the
    1000ms timer and the next status request. *)
Lemma poll_continues (cfg : config) (rs : list (Z * status_body))
    (st : state) :
  main st = AwaitStatus -> aborted st = false ->
  Forall (fun r => terminal (stage (snd r)) = false) rs ->
  exists st1,
    run cfg st (poll_script rs) = Some st1
    /\ main st1 = AwaitStatus /\ aborted st1 = false
    /\ uploadId st1 = uploadId st
    /\ trace st1 = trace st ++ poll_trace rs.
Proof.
  revert st. induction rs as [|[s b] rs IH]; intros st Hm Hab Hall.
  - exists st. simpl. rewrite app_nil_r. auto.
  - pose proof (Forall_inv Hall) as Hb. simpl in Hb.
    apply Forall_inv_tail in Hall.
    set (st' := emit [ReqStatus]
                  (set_main AwaitStatus
                     (emit [SetTimeout 1000]
                        (set_main AwaitPollTimer
                           (emit [OnServerStage (stage b) (progress_of b)]
                              st))))).
    destruct (IH st') as (st1 & H1 & H2 & H3 & H4 & H5); auto.
    exists st1. split_and!; auto.
    + change (poll_script ((s, b) :: rs))
        with (StatusSettled (Response s b) :: PollTimer :: poll_script rs).
      rewrite run_cons, (step_status cfg st _ Hm).
      rewrite (on_status_continue cfg st s b Hb).
      rewrite run_cons, step_poll_timer by reflexivity.
      unfold poll_top. cbn [aborted emit set_main]. rewrite Hab. exact H1.
    + rewrite H5. unfold st'. cbn [trace emit set_main poll_trace flat_map].
      cbn [fst snd]. now rewrite <- !app_assoc.
Qed.









End PollingClaims.

(** ** The stage registry *)

Section RegistryClaims.

Import App.

Lemma handleStageChange_done (tasks : list Snackbar.DownloadTask)
    (index : nat) (stage title : string) (stages : gmap string string) :
  stages !! title = Some "DONE" ->
  handleStageChange tasks index stage stages !! title = Some "DONE".
Proof.
  intros Hd. unfold handleStageChange.
  destruct (tasks !! index) as [task|]; [|exact Hd].
  destruct (bool_decide (Snackbar.courseTitle task = "")); [exact Hd|].
  destruct (bool_decide_reflect
              (stages !! Snackbar.courseTitle task = Some "DONE"))
    as [Heq|Hne]; [exact Hd|].
  rewrite lookup_insert_ne; [exact Hd|].
  intros Heq. apply Hne. now rewrite Heq.
Qed.

Lemma apply_reports_done (rs : list report) (title : string)
    (stages : gmap string string) :
  stages !! title = Some "DONE" ->
  apply_reports stages rs !! title = Some "DONE".
Proof.
  revert stages. induction rs as [|r rs IH]; intros stages Hd; simpl.
  - exact Hd.
  - apply IH. now apply handleStageChange_done.
Qed.

(** C9: once the registry holds DONE for a title, no sequence of stage
    reports, from whatever tasks, changes that entry; and a report for a
    task whose title does not hold DONE writes its stage to that title
    (last write wins) and leaves every other title alone. *)
Theorem stage_registry (stages : gmap string string)
    (tasks : list Snackbar.DownloadTask) (index : nat)
    (task : Snackbar.DownloadTask) (stage : string) :
  tasks !! index = Some task -> Snackbar.courseTitle task <> "" ->
  (forall (title : string) (rs : list report),
     stages !! title = Some "DONE" ->
     apply_reports stages rs !! title = Some "DONE")
  /\ (stages !! Snackbar.courseTitle task <> Some "DONE" ->
      handleStageChange tasks index stage stages
        !! Snackbar.courseTitle task = Some stage)
  /\ (forall other : string,
        other <> Snackbar.courseTitle task ->
        handleStageChange tasks index stage stages !! other
        = stages !! other).
Proof.
  intros Hlk Hne. split_and!.
  - intros title rs. apply apply_reports_done.
  - intros Hnd. unfold handleStageChange. rewrite Hlk.
    rewrite bool_decide_false by exact Hne.
    rewrite bool_decide_false by exact Hnd.
    apply lookup_insert_eq.
  - intros other Ho. unfold handleStageChange. rewrite Hlk.
    destruct (bool_decide (Snackbar.courseTitle task = "")); [reflexivity|].
    destruct (bool_decide
                (stages !! Snackbar.courseTitle task = Some "DONE"));
      [reflexivity|].
    apply lookup_insert_ne. congruence.
Qed.

Lemma stage_registry_witness :
  [lecture; lecture2] !! 1%nat = Some lecture2
  /\ handleStageChange [lecture; lecture2] 1 "MERGING"
       {["Lecture 1" := "DONE"]} !! "Lecture 2" = Some "MERGING".
Proof.
  split; [reflexivity|].
  refine (proj1 (proj2
    (stage_registry {["Lecture 1" := "DONE"]} [lecture; lecture2] 1
       lecture2 "MERGING" _ _)) _).
  - reflexivity.
  - discriminate.
  - vm_compute. discriminate.
Defined.

End RegistryClaims.

(** ** The task states *)

Section TaskClaims.

Import Ingestion.

(** A promise that is settled before any worker was started takes no
    further event but [cancel()], which then has nothing to abort. *)
Lemma resolved_early_step (cfg : config) (st st' : state) (ev : event)
    (r : result) :
  workers st = [] -> main st = Resolved r -> step cfg st ev = Some st' ->
  workers st' = [] /\ main st' = Resolved r /\ trace st' = trace st.
Proof.
  intros Hws Hm Hstep.
  destruct ev; simpl in Hstep; rewrite ?Hws, ?Hm in Hstep;
    try discriminate.
  injection Hstep as <-. unfold cancel; simpl. rewrite Hws; simpl.
  now rewrite app_nil_r.
Qed.

Lemma resolved_early_run (cfg : config) (evs : list event) (st st' : state)
    (r : result) :
  workers st = [] -> main st = Resolved r -> run cfg st evs = Some st' ->
  main st' = Resolved r /\ trace st' = trace st.
Proof.
  revert st. induction evs as [|ev evs IH]; intros st Hws Hm Hrun;
    simpl in Hrun.
  - injection Hrun as <-. auto.
  - destruct (step cfg st ev) as [st1|] eqn:Hstep; [|discriminate].
    destruct (resolved_early_step cfg st st1 ev r Hws Hm Hstep)
      as (H1 & H2 & H3).
    destruct (IH st1 H1 H2 Hrun) as [H4 H5]. split; congruence.
Qed.

(** C2: when the preflight result says the content exists,
    [startIngestion] resolves at once with the link of the result
    (downloadUrl, else rawUrl), and in every run after that its trace
    holds nothing but this resolution: no init, segment, completion or
    status request. The task whose preflight answer carries the link of
    the server (a non-empty downloadUrl, or else a non-empty rawUrl)
    goes from Waiting{check} straight to Finished with that link, joined
    to the endpoint when it is relative. *)
Theorem exists_short_circuit (cfg : config) (oid : string)
    (url raw : option string) (ep : string) (status : Z)
    (data : Snackbar.preflight_body) (link : string) :
  preflightResult cfg = Some (Exists oid url raw) ->
  ok status = true -> Snackbar.pre_exists data = true ->
  link <> "" ->
  (Snackbar.pre_downloadUrl data = Some link
   \/ ((Snackbar.pre_downloadUrl data = None
        \/ Snackbar.pre_downloadUrl data = Some "")
       /\ Snackbar.pre_rawUrl data = Some link)) ->
  (forall evs st,
     run cfg (startIngestion cfg) evs = Some st ->
     exists r,
       res_uploadId r = None
       /\ res_downloadUrl r
          = match url with
            | Some u => if bool_decide (u = "") then raw else Some u
            | None => raw
            end
       /\ main st = Resolved r
       /\ trace st = [PromiseResolved r]
       /\ requested (trace st) = []
       /\ ReqComplete ∉ trace st)
  /\ Snackbar.run_preflight ep (Response status data)
     = ([Snackbar.Waiting Snackbar.W_check None;
         Snackbar.Waiting Snackbar.W_check (Some "已存在，直接可洞悉");
         Snackbar.Finished
           (if Url.is_absolute link then link
            else Url.joinUrl (Url.strip_trailing_slash ep) link)],
        Snackbar.Skip).
Proof.
  intros Hpre Hok Hex Hne Hlink. split.
  - intros evs st Hrun.
    assert (Hstart : exists r,
      res_uploadId r = None
      /\ res_downloadUrl r
         = match url with
           | Some u => if bool_decide (u = "") then raw else Some u
           | None => raw
           end
      /\ workers (startIngestion cfg) = []
      /\ main (startIngestion cfg) = Resolved r
      /\ trace (startIngestion cfg) = [PromiseResolved r]).
    { exists {| res_uploadId := None;
                res_downloadUrl :=
                  match url with
                  | Some u => if bool_decide (u = "") then raw else Some u
                  | None => raw
                  end |}.
      unfold startIngestion. rewrite Hpre.
      destruct url as [u|]; [destruct (bool_decide (u = ""))|];
        simpl; split_and!; reflexivity. }
    destruct Hstart as (r & H1 & H2 & H3 & H4 & H5).
    destruct (resolved_early_run cfg evs _ st r H3 H4 Hrun) as [H6 H7].
    exists r. rewrite H7, H5. split_and!; auto.
    intros H. not_in_list H.
  - assert (Hl : Snackbar.exists_link
                   (Snackbar.preflight_url (Url.strip_trailing_slash ep)
                      (Snackbar.pre_downloadUrl data))
                   (Snackbar.preflight_url (Url.strip_trailing_slash ep)
                      (Snackbar.pre_rawUrl data))
                 = if Url.is_absolute link then link
                   else Url.joinUrl (Url.strip_trailing_slash ep) link).
    { unfold Snackbar.exists_link, Snackbar.preflight_url.
      destruct Hlink as [-> | [[-> | ->] ->]]; cbn [bool_decide];
        rewrite ?(bool_decide_false (link = "")) by exact Hne;
        reflexivity. }
    assert (Hfull : (if Url.is_absolute link then link
                     else Url.joinUrl (Url.strip_trailing_slash ep) link)
                    <> "").
    { destruct (Url.is_absolute link); [exact Hne|].
      unfold Url.joinUrl. intros Hj.
      apply Hne.
      destruct (Url.strip_trailing_slash (Url.strip_trailing_slash ep));
        [|discriminate].
      destruct (Url.starts_with_slash link); [exact Hj | discriminate]. }
    unfold Snackbar.run_preflight, Snackbar.preflightIngestion.
    rewrite Hok, Hex. cbn [negb fst snd flat_map Snackbar.on_preflight].
    rewrite Hl. rewrite (bool_decide_false _ Hfull). reflexivity.
Qed.

Lemma exists_short_circuit_witness :
  preflightResult Examples.cfg_exists
  = Some (Exists "0123456789abcdef"
            (Some "http://127.0.0.1:5000/api/download/0123456789abcdef") None)
  /\ Snackbar.run_preflight "http://127.0.0.1:5000" Examples.exists_with_link
     = ([Snackbar.Waiting Snackbar.W_check None;
         Snackbar.Waiting Snackbar.W_check (Some "已存在，直接可洞悉");
         Snackbar.Finished
           "http://127.0.0.1:5000/api/download/0123456789abcdef"],
        Snackbar.Skip).
Proof.
  split; [reflexivity|].
  assert (Hne : "/api/download/0123456789abcdef" <> "") by discriminate.
  exact (proj2
    (exists_short_circuit Examples.cfg_exists _ _ _
       "http://127.0.0.1:5000" 200
       {| Snackbar.pre_exists := true;
          Snackbar.pre_objectId := "0123456789abcdef";
          Snackbar.pre_downloadUrl := Some "/api/download/0123456789abcdef";
          Snackbar.pre_rawUrl := None; Snackbar.pre_uploadId := None |}
       "/api/download/0123456789abcdef"
       eq_refl eq_refl eq_refl Hne (or_introl eq_refl))).
Defined.

(** C7 on the code: the polling ends with stage FAILED and message
    "boom"; the promise rejects with an error that holds the message, but
    the [catch] of [startServerPipeline] sets the fixed text for every
    error that is not an abort, so the task shows Error{transcode} with
    that text and not with "boom". The loop of [startInsightFlow] does
    show the message of the server. *)
Theorem failed_message_dropped :
  main (Examples.after Examples.cfg1
          (Examples.uploaded1
             ++ [StatusSettled (Response 200 Examples.boom)]))
  = Rejected (Error "server stage: FAILED boom")
  /\ last (Snackbar.startServerPipeline
            (trace (Examples.after Examples.cfg1
                      (Examples.uploaded1
                         ++ [StatusSettled (Response 200 Examples.boom)]))))
     = Some (Snackbar.Error Snackbar.E_transcode "服务器处理失败")
  /\ (forall m : string,
        Snackbar.pipeline_observe (PromiseRejected (Error m))
        = [Snackbar.Error Snackbar.E_transcode "服务器处理失败"])
  /\ Snackbar.insight_poll "u" [Response 200 Examples.insight_boom]
     = ([Snackbar.InsightStatus; Snackbar.StageChange "FAILED";
         Snackbar.SetState (Snackbar.Error Snackbar.E_transcode "boom")],
        true).
Proof.
  split_and!;
    [vm_compute; reflexivity | vm_compute; reflexivity
    | intros m; reflexivity | vm_compute; reflexivity].
Qed.

(** C8, as the code has it: after the upload, on the status answers
    QUEUED, MERGING, TRANSCODING, TRANSCODING, DONE the task shows
    Waiting{server, "排队中"}, then Transcoding with the progress of
    the MERGING answer, Transcoding with the progress of each
    TRANSCODING answer, Transcoding(1) on DONE, and Finished with the
    link of the DONE answer: six states, of which the script's own four
    are the first, third, fourth and sixth. *)
Theorem scripted_states (cfg : config) (st : state) (s : Z)
    (bq bm b1 b2 bd : status_body) :
  main st = AwaitStatus -> aborted st = false ->
  stage bq = "QUEUED" -> stage bm = "MERGING" ->
  stage b1 = "TRANSCODING" -> stage b2 = "TRANSCODING" ->
  stage bd = "DONE" ->
  exists st' es,
    run cfg st
      (poll_script [(s, bq); (s, bm); (s, b1); (s, b2)]
         ++ [StatusSettled (Response s bd)]) = Some st'
    /\ trace st' = trace st ++ es
    /\ flat_map Snackbar.pipeline_observe es
       = [Snackbar.Waiting Snackbar.W_server (Some "排队中");
          Snackbar.Transcoding (progress_of bm);
          Snackbar.Transcoding (progress_of b1);
          Snackbar.Transcoding (progress_of b2);
          Snackbar.Transcoding 1;
          Snackbar.Finished
            (match Url.absolutize (base cfg) (downloadUrl bd) with
             | Some u => u
             | None => ""
             end)].
Proof.
  intros Hm Hab Hq Hmg H1 H2 Hd.
  destruct (poll_continues cfg [(s, bq); (s, bm); (s, b1); (s, b2)] st Hm Hab)
    as (st1 & G1 & G2 & G3 & G4 & G5).
  { repeat constructor; simpl; rewrite ?Hq, ?Hmg, ?H1, ?H2; reflexivity. }
  eexists _, _. split_and!.
  - rewrite run_app, G1. simpl. rewrite G2. reflexivity.
  - unfold on_status. rewrite Hd. simpl. rewrite G5, <- !app_assoc.
    reflexivity.
  - simpl. rewrite Hq, Hmg, H1, H2. reflexivity.
Qed.

Lemma scripted_states_witness :
  main (Examples.after Examples.cfg1 Examples.uploaded1) = AwaitStatus
  /\ exists st' es,
       run Examples.cfg1 (Examples.after Examples.cfg1 Examples.uploaded1)
         Examples.scripted_events = Some st'
       /\ trace st'
          = trace (Examples.after Examples.cfg1 Examples.uploaded1) ++ es
       /\ flat_map Snackbar.pipeline_observe es
          = [Snackbar.Waiting Snackbar.W_server (Some "排队中");
             Snackbar.Transcoding 0;
             Snackbar.Transcoding (3 # 10);
             Snackbar.Transcoding (9 # 10);
             Snackbar.Transcoding 1;
             Snackbar.Finished
               "http://127.0.0.1:5000/api/download/0123456789abcdef"].
Proof.
  split; [reflexivity|].
  exact (scripted_states Examples.cfg1
           (Examples.after Examples.cfg1 Examples.uploaded1) 200
           (Examples.status "QUEUED" None None)
           (Examples.status "MERGING" None None)
           (Examples.status "TRANSCODING" (Some (3 # 10)) None)
           (Examples.status "TRANSCODING" (Some (9 # 10)) None)
           (Examples.status "DONE" (Some 1%Q) None)
           eq_refl eq_refl eq_refl eq_refl eq_refl eq_refl eq_refl).
Defined.

(** C8 as stated fails: on the scripted sequence the task shows six
    states, not the four of the claim: MERGING and DONE each show a
    Transcoding state of their own. *)
Lemma scripted_states_are_six :
  Examples.shown_after Examples.cfg1 Examples.uploaded1
    Examples.scripted_events
  = [Snackbar.Waiting Snackbar.W_server (Some "排队中");
     Snackbar.Transcoding 0;
     Snackbar.Transcoding (3 # 10);
     Snackbar.Transcoding (9 # 10);
     Snackbar.Transcoding 1;
     Snackbar.Finished "http://127.0.0.1:5000/api/download/0123456789abcdef"]
  /\ ~ (exists label link,
         Examples.shown_after Examples.cfg1 Examples.uploaded1
           Examples.scripted_events
         = [Snackbar.Waiting Snackbar.W_server label;
            Snackbar.Transcoding (3 # 10);
            Snackbar.Transcoding (9 # 10);
            Snackbar.Finished link]).
Proof.
  assert (Hs : Examples.shown_after Examples.cfg1 Examples.uploaded1
                 Examples.scripted_events
               = [Snackbar.Waiting Snackbar.W_server (Some "排队中");
                  Snackbar.Transcoding 0;
                  Snackbar.Transcoding (3 # 10);
                  Snackbar.Transcoding (9 # 10);
                  Snackbar.Transcoding 1;
                  Snackbar.Finished
                    "http://127.0.0.1:5000/api/download/0123456789abcdef"]).
  { vm_compute. reflexivity. }
  split; [exact Hs|].
  intros (label & link & H). rewrite Hs in H. discriminate H.
Qed.

End TaskClaims.

(** * Further properties of the code *)

(** ** What one step of the upload machine can change *)

Section StepFacts.

Import Ingestion Observe.

Lemma frame_refl (st : state) : frame st st.
Proof.
  unfold frame. split_and!; auto. exists []. now rewrite app_nil_r.
Qed.

Lemma frame_emit (st st1 : state) (es : list out_event) :
  frame st st1 -> forallb segment_event es = true ->
  frame st (emit es st1).
Proof.
  intros (H1 & H2 & H3 & es0 & H5 & H6) Hes. unfold frame; simpl.
  split_and!; auto. exists (es0 ++ es). rewrite H5, app_assoc.
  split; [reflexivity|]. now rewrite forallb_app, H6, Hes.
Qed.

Lemma frame_worker_loop (cfg : config) (st st1 : state) :
  frame st st1 -> frame st (snd (worker_loop cfg st1)).
Proof.
  intros Hf. unfold worker_loop. rewrite drain_eq.
  destruct (queue st1) as [|j q']; [|destruct (aborted st1)]; simpl.
  - exact Hf.
  - exact Hf.
  - apply (frame_emit st (set_queue q' st1)); [exact Hf | reflexivity].
Qed.

Lemma frame_attempt_failed (st : state) (i t : nat) (e : js_error) :
  frame st (snd (on_attempt_failed i t e st)).
Proof.
  unfold on_attempt_failed. destruct (aborted st); simpl.
  - apply frame_refl.
  - destruct (t <=? 0)%nat; simpl; [apply frame_refl|].
    apply frame_emit; [apply frame_refl | reflexivity].
Qed.

Lemma frame_on_segment (cfg : config) (st : state) (i t : nat)
    (r : outcome unit) :
  frame st (snd (on_segment cfg i t r st)).
Proof.
  unfold on_segment. destruct r as [status []|];
    [destruct (ok status); cbn [negb]|]; try apply frame_attempt_failed.
  apply frame_worker_loop.
  apply (frame_emit st (set_uploaded (S (uploaded st)) st));
    [|reflexivity].
  unfold frame; simpl. split_and!; auto. exists []. now rewrite app_nil_r.
Qed.

Lemma frame_on_retry (cfg : config) (st : state) (i t : nat) :
  frame st (snd (on_retry cfg i t st)).
Proof.
  unfold on_retry, attempt. destruct t as [|t]; simpl.
  - apply frame_worker_loop, frame_refl.
  - apply frame_emit; [apply frame_refl | reflexivity].
Qed.

Lemma segment_event_in (e : out_event) (es : list out_event) :
  forallb segment_event es = true -> e ∈ es -> segment_event e = true.
Proof.
  rewrite forallb_forall. intros H Hin%list_elem_of_In. now apply H.
Qed.

Lemma promise_all_cases (st : state) :
  promise_all st = st
  \/ (main st = AwaitWorkers
      /\ ((exists e, promise_all st = reject e st)
          \/ promise_all st = emit [ReqComplete] (set_main AwaitComplete st))).
Proof.
  unfold promise_all. destruct (main st); auto.
  destruct (first_failed (workers st)) as [e|]; [eauto 6|].
  destruct (forallb is_finished (workers st)); auto.
Qed.

(** After anything the workers do, [Promise.all] either stays pending,
    rejects, or lets the completion request out. *)
Lemma promise_all_facts (st st1 : state) :
  frame st st1 -> step_facts st (promise_all st1).
Proof.
  intros (H1 & H2 & H3 & es & H5 & H6).
  assert (Hseg : forall e, e ∈ es -> segment_event e = true)
    by (intros e; now apply segment_event_in).
  assert (Hni : forall n, ReqInit n ∉ es).
  { intros n Hin. apply Hseg in Hin. discriminate. }
  assert (Hns : ReqStatus ∉ es).
  { intros Hin. apply Hseg in Hin. discriminate. }
  assert (Hnc : ReqComplete ∉ es).
  { intros Hin. apply Hseg in Hin. discriminate. }
  assert (Hmore : forall e0 : out_event,
            (forall n, e0 <> ReqInit n) -> e0 <> ReqStatus ->
            (forall n, ReqInit n ∉ es ++ [e0]) /\ (ReqStatus ∉ es ++ [e0])).
  { intros e0 Hn1 Hn2. split.
    - intros n Hin. apply elem_of_app in Hin as [Hin|Hin];
        [now apply Hni in Hin|].
      apply list_elem_of_singleton in Hin. symmetry in Hin.
      now apply Hn1 in Hin.
    - intros Hin. apply elem_of_app in Hin as [Hin|Hin];
        [now apply Hns in Hin|].
      apply list_elem_of_singleton in Hin. now symmetry in Hin. }
  destruct (promise_all_cases st1) as [Hpa|[Hm Hpa]].
  - rewrite Hpa. unfold step_facts.
    rewrite H1, H2, H3. split_and!; auto.
    exists es. split_and!; auto.
  - rewrite H1 in Hm.
    destruct Hpa as [[e Hpa]|Hpa]; rewrite Hpa; unfold step_facts;
      cbn [aborted main uploadId trace reject emit set_main];
      rewrite H2, H3, H5, <- app_assoc, Hm.
    + destruct (Hmore (PromiseRejected e)) as [G1 G2]; try discriminate.
      split_and!; auto; try discriminate.
      exists (es ++ [PromiseRejected e]).
      split_and!; auto; try discriminate;
        try (intros Hin; now apply G2 in Hin);
        intros _; right; apply elem_of_app; right; now left.
    + destruct (Hmore ReqComplete) as [G1 G2]; try discriminate.
      split_and!; auto; try discriminate.
      exists (es ++ [ReqComplete]).
      split_and!; auto; try discriminate;
        try (intros Hin; now apply G2 in Hin);
        intros _; right; apply elem_of_app; right; now left.
Qed.

Lemma frame_set_workers (st st1 : state) (ws : list worker) :
  frame st st1 -> frame st (set_workers ws st1).
Proof. intros H. exact H. Qed.

Lemma frame_spawn (cfg : config) (n : nat) (st st1 : state) :
  frame st st1 -> frame st (spawn cfg n st1).
Proof.
  revert st1. induction n as [|n IH]; intros st1 Hf; simpl; [exact Hf|].
  pose proof (frame_worker_loop cfg st st1 Hf) as Hf1.
  destruct (worker_loop cfg st1) as [wk st2]. simpl in Hf1.
  apply IH. now apply frame_set_workers.
Qed.

Lemma put_worker_facts (st : state) (w : nat) (r : worker * state) :
  frame st (snd r) -> step_facts st (put_worker w r).
Proof.
  intros Hf. unfold put_worker. apply promise_all_facts.
  now apply frame_set_workers.
Qed.

(** Starting the workers from the init answer or from the preflight
    result. *)
Lemma upload_phase_facts (cfg : config) (st : state) (u : string) :
  main st = AwaitInit ->
  step_facts st (upload_phase cfg (set_uploadId u st)).
Proof.
  intros Hm. unfold upload_phase.
  set (s0 := set_uploaded 0 (set_queue _ (set_main AwaitWorkers _))).
  pose proof (promise_all_facts s0 _
                (frame_spawn cfg (concurrency cfg) s0 s0 (frame_refl s0)))
    as (F1 & F2 & F3 & F4 & es & F5 & F6 & F7 & F8).
  unfold step_facts. split_and!.
  - exact F1.
  - intros Hne. contradiction.
  - intros Hs. destruct (F3 Hs) as [Hs0|Hab]; [discriminate | now right].
  - intros r Hr. destruct (F4 r Hr) as [H|[[H _]|[H _]]]; discriminate.
  - exists es. split_and!; auto.
    + intros Hin. apply F7 in Hin. discriminate.
    + intros Hp. destruct (F8 Hp) as [H|H]; [discriminate | now right].
Qed.

Lemma abort_events_only (ws : list worker) (e : out_event) :
  e ∈ flat_map abort_events ws -> exists i, e = CtlAbort i.
Proof.
  intros Hin. apply list_elem_of_In, in_flat_map in Hin as (wk & _ & Hin).
  destruct wk as [i t []| | |]; simpl in Hin; try contradiction.
  destruct Hin as [<-|[]]. eauto.
Qed.

(** A reaction that changes neither the flag nor the upload id and
    issues no status request. *)
Lemma simple_facts (st s : state) (es : list out_event) :
  trace s = trace st ++ es -> aborted s = aborted st ->
  uploadId s = uploadId st ->
  main s <> AwaitInit -> main s <> AwaitStatus ->
  (forall r, main s = Resolved r ->
     (main st = AwaitStatus /\ res_uploadId r = Some (uploadId st))
     \/ (main st = AwaitInit /\ res_uploadId r = None)) ->
  (forall n, ReqInit n ∉ es) -> (ReqStatus ∉ es) ->
  (polling (main s) = true -> polling (main st) = true) ->
  step_facts st s.
Proof.
  intros Htr Hab Hu Hn1 Hn2 Hres Hni Hns Hp. unfold step_facts.
  rewrite Hab, Hu. split_and!; auto; try contradiction.
  exists es. split_and!; auto.
Qed.

(** The top of the polling loop. *)
Lemma poll_top_facts (st : state) :
  polling (main st) = true -> step_facts st (poll_top st).
Proof.
  intros Hp. unfold poll_top. destruct (aborted st) eqn:Eab.
  - apply (simple_facts st _ [PromiseRejected AbortError]);
      try reflexivity; try discriminate.
    + intros n Hin. not_in_list Hin.
    + intros Hin. not_in_list Hin.
  - unfold step_facts. cbn [trace main aborted uploadId emit set_main].
    rewrite Eab. split_and!; auto; try discriminate;
      try (intros _; split; [discriminate | reflexivity]).
    exists [ReqStatus]. split_and!; auto.
    intros n Hin. not_in_list Hin.
Qed.

Ltac by_simple_facts es :=
  apply (simple_facts _ _ es);
  cbn [trace main aborted uploadId emit set_main resolve reject];
  rewrite <- ?app_assoc; try reflexivity; try discriminate;
  try (intros n Hin; not_in_list Hin); try (intros Hin; not_in_list Hin).

(** Every reaction of the machine keeps these facts. *)
Lemma step_keeps_facts (cfg : config) (st st' : state) (ev : event) :
  step cfg st ev = Some st' -> step_facts st st'.
Proof.
  intros Hstep.
  assert (Hrej : forall e, step_facts st (reject e st)).
  { intros e. by_simple_facts [PromiseRejected e]. }
  destruct ev as [|r|w r|w|w|r|r|]; simpl in Hstep.
  - (* cancel *)
    injection Hstep as <-. unfold step_facts, cancel; simpl.
    split_and!; auto.
    eexists. split_and!; [reflexivity|..]; auto.
    + intros n Hin. apply abort_events_only in Hin as [i Hin].
      discriminate.
    + intros Hin. apply abort_events_only in Hin as [i Hin].
      discriminate.
  - (* init answered *)
    destruct (main st) eqn:Emain; try discriminate.
    injection Hstep as <-. unfold on_init.
    destruct r as [status body|]; [|apply Hrej].
    destruct (ok status); cbn [negb]; [|apply Hrej].
    destruct (init_exists body).
    { by_simple_facts [OnServerStage "EXISTS" 1;
                       PromiseResolved
                         {| res_uploadId := None;
                            res_downloadUrl :=
                              Url.absolutize (base cfg)
                                (init_downloadUrl body) |}].
      intros r0 [= <-]. right. split; [exact Emain | reflexivity]. }
    destruct (init_uploadId body) as [u|]; [|apply Hrej].
    destruct (bool_decide (u = "")); [apply Hrej|].
    now apply upload_phase_facts.
  - (* segment answered *)
    destruct (workers st !! w) as [[i t [|]| | |]|]; try discriminate.
    injection Hstep as <-. apply put_worker_facts, frame_on_segment.
  - (* segment aborted *)
    destruct (workers st !! w) as [[i t [|]| | |]|]; try discriminate.
    injection Hstep as <-. apply put_worker_facts, frame_attempt_failed.
  - (* retry timer *)
    destruct (workers st !! w) as [[|i t| |]|]; try discriminate.
    injection Hstep as <-. apply put_worker_facts, frame_on_retry.
  - (* completion answered *)
    destruct (main st) eqn:Emain; try discriminate.
    injection Hstep as <-. unfold on_complete.
    destruct r as [status []|]; [|apply Hrej].
    destruct (ok status); cbn [negb]; [|apply Hrej].
    apply poll_top_facts. now rewrite Emain.
  - (* status answered *)
    destruct (main st) eqn:Emain; try discriminate.
    injection Hstep as <-. unfold on_status.
    destruct r as [status body|]; [|apply Hrej].
    destruct (bool_decide (stage body = "DONE")).
    { by_simple_facts [OnServerStage (stage body) (progress_of body);
                       PromiseResolved
                         {| res_uploadId := Some (uploadId st);
                            res_downloadUrl :=
                              Url.absolutize (base cfg) (downloadUrl body) |}].
      intros r0 [= <-]. left. split; [exact Emain | reflexivity]. }
    destruct (bool_decide (stage body = "FAILED")
              || bool_decide (stage body = "UNKNOWN")).
    { by_simple_facts [OnServerStage (stage body) (progress_of body);
                       PromiseRejected
                         (Error ("server stage: " +:+ stage body +:+ " "
                                   +:+ message_of body))]. }
    by_simple_facts [OnServerStage (stage body) (progress_of body);
                     SetTimeout 1000].
    intros _. now rewrite Emain.
  - (* poll timer *)
    destruct (main st) eqn:Emain; try discriminate.
    injection Hstep as <-. apply poll_top_facts. now rewrite Emain.
Qed.

End StepFacts.

(** ** Bounds, order and cancellation of the upload *)

Section UploadFacts.

Import Ingestion Observe.

Lemma run_preserves (cfg : config) (P : state -> Prop) :
  (forall st ev st', P st -> step cfg st ev = Some st' -> P st') ->
  forall evs st st', P st -> run cfg st evs = Some st' -> P st'.
Proof.
  intros Hstep. induction evs as [|ev evs IH]; intros st st' HP Hrun;
    simpl in Hrun.
  - now injection Hrun as <-.
  - destruct (step cfg st ev) as [st1|] eqn:E; [|discriminate].
    eapply IH; [|exact Hrun]. eapply Hstep; eassumption.
Qed.

Lemma in_flight_le (ws : list worker) : (in_flight ws <= length ws)%nat.
Proof. unfold in_flight. apply List.filter_length_le. Qed.

(** X1: At no point are more segment uploads in flight than the
    concurrency limit allows: every reachable state has at most
    [concurrency] workers, each with at most one request of its own. *)
Theorem in_flight_bounded (cfg : config) (st : state) :
  reachable cfg st ->
  (in_flight (workers st) <= concurrency cfg)%nat
  /\ (length (workers st) <= concurrency cfg)%nat.
Proof.
  intros Hr. pose proof (in_flight_le (workers st)) as Hle.
  apply reachable_invariant in Hr as [Hq|Hu].
  - destruct Hq as (Hnil & _). rewrite Hnil in *. simpl in *. lia.
  - destruct Hu as (_ & _ & Hl & _). lia.
Qed.

Lemma in_flight_bounded_witness :
  reachable Examples.cfg5
    (Examples.after Examples.cfg5 [InitSettled (Examples.init_ok "u1")])
  /\ (in_flight (workers (Examples.after Examples.cfg5
                            [InitSettled (Examples.init_ok "u1")])) <= 2)%nat.
Proof.
  assert (Hr : reachable Examples.cfg5
                 (Examples.after Examples.cfg5
                    [InitSettled (Examples.init_ok "u1")])).
  { exists [InitSettled (Examples.init_ok "u1")]. vm_compute. reflexivity. }
  split; [exact Hr|].
  exact (proj1 (in_flight_bounded Examples.cfg5 _ Hr)).
Defined.

(** X2: Every segment index is in one place only: waiting in the queue, held
    by one worker, or acknowledged; no index is held by two workers, taken
    again after its acknowledgment, or acknowledged twice, and all of them
    are indices of 1..N. *)
Theorem indices_exclusive (cfg : config) (st : state) :
  reachable cfg st ->
  NoDup (queue st ++ active (workers st) ++ acked (trace st))
  /\ forall i, i ∈ queue st ++ active (workers st) ++ acked (trace st) ->
               (1 <= i <= total cfg)%nat.
Proof.
  intros Hr. apply reachable_invariant in Hr as [Hq|Hu].
  - destruct Hq as (Hws & Hqu & _ & Ha & _). rewrite Hws, Hqu, Ha. simpl.
    split; [constructor|]. intros i Hi. now apply elem_of_nil in Hi.
  - destruct Hu as (Hc & _). split.
    + exact (core_nodup _ _ _ _ _ Hc).
    + intros i Hi. apply (core_range _ _ _ _ _ Hc) in Hi.
      apply list_elem_of_In in Hi. now apply in_indices.
Qed.

Lemma indices_exclusive_witness :
  reachable Examples.cfg5 (Examples.after Examples.cfg5 Examples.upload5)
  /\ NoDup (acked (trace (Examples.after Examples.cfg5 Examples.upload5))).
Proof.
  assert (Hr : reachable Examples.cfg5
                 (Examples.after Examples.cfg5 Examples.upload5)).
  { exists Examples.upload5. vm_compute. reflexivity. }
  split; [exact Hr|].
  pose proof (proj1 (indices_exclusive Examples.cfg5 _ Hr)) as Hnd.
  apply NoDup_app in Hnd as (_ & _ & Hnd).
  now apply NoDup_app in Hnd as (_ & _ & Hnd).
Defined.

Lemma in_order_step (cfg : config) (st st' : state) (ev : event) :
  in_order st -> step cfg st ev = Some st' -> in_order st'.
Proof.
  intros [H1 H2] Hstep.
  destruct (step_keeps_facts cfg st st' ev Hstep)
    as (_ & _ & _ & _ & es & Htr & _ & Hs & Hp).
  unfold in_order. rewrite Htr. split.
  - intros Hpol. apply elem_of_app.
    destruct (Hp Hpol) as [Hold|Hnew]; [left; auto | now right].
  - intros Hin. apply elem_of_app. left.
    apply elem_of_app in Hin as [Hin|Hin]; auto.
Qed.

Lemma in_order_start (cfg : config) : in_order (startIngestion cfg).
Proof.
  assert (Hup : forall u,
    in_order (upload_phase cfg
                (set_uploadId u
                   {| aborted := false; queue := []; uploaded := 0;
                      uploadId := ""; workers := []; main := AwaitInit;
                      trace := [] |}))).
  { intros u.
    destruct (upload_phase_facts cfg
                {| aborted := false; queue := []; uploaded := 0;
                   uploadId := ""; workers := []; main := AwaitInit;
                   trace := [] |} u eq_refl)
      as (_ & _ & _ & _ & es & Htr & _ & Hs & Hp).
    unfold in_order. rewrite Htr. simpl in *. split.
    - intros Hpol. destruct (Hp Hpol) as [H|H]; [discriminate | exact H].
    - intros Hin. apply Hs in Hin. discriminate. }
  assert (Hres : forall r,
    in_order (resolve r
                {| aborted := false; queue := []; uploaded := 0;
                   uploadId := ""; workers := []; main := AwaitInit;
                   trace := [] |})).
  { intros r. split; simpl; [discriminate|].
    intros Hin. exfalso. not_in_list Hin. }
  unfold startIngestion.
  destruct (preflightResult cfg) as [[oid [u|] raw|oid [u|]]|];
    try destruct (bool_decide _); try apply Hres; try apply Hup;
    (split; simpl; [discriminate|]; intros Hin; exfalso; not_in_list Hin).
Qed.

Lemma in_flight_finished (ws : list worker) :
  Forall (fun wk => wk = Finished) ws -> in_flight ws = 0%nat.
Proof.
  unfold in_flight. induction 1 as [|wk ws -> _ IH]; simpl; auto.
Qed.

(** X3: The pipeline keeps its order: while the completion answer, a status
    answer or the poll timer is awaited the completion request has been
    issued, and no status request is ever issued before it; once the
    completion request is out every worker is done, so nothing is in
    flight and no further segment is requested or acknowledged. *)
Theorem pipeline_order (cfg : config) (st : state) :
  reachable cfg st ->
  (polling (main st) = true -> ReqComplete ∈ trace st)
  /\ (ReqStatus ∈ trace st -> ReqComplete ∈ trace st)
  /\ (ReqComplete ∈ trace st ->
      Forall (fun wk => wk = Finished) (workers st)
      /\ in_flight (workers st) = 0%nat
      /\ forall ev st',
           step cfg st ev = Some st' ->
           requested (trace st') = requested (trace st)
           /\ acked (trace st') = acked (trace st)).
Proof.
  intros Hr.
  assert (Hord : in_order st).
  { destruct Hr as [evs Hrun].
    refine (run_preserves cfg in_order _ evs _ _ (in_order_start cfg) Hrun).
    intros s ev s'. apply in_order_step. }
  destruct Hord as [H1 H2]. split_and!; auto.
  intros Hin.
  assert (Hfin : Forall (fun wk => wk = Finished) (workers st)).
  { apply reachable_invariant in Hr as [Hq|Hu].
    - destruct Hq as (_ & _ & _ & _ & _ & _ & Hnc & _). contradiction.
    - destruct Hu as (_ & _ & _ & _ & Hf). auto. }
  assert (Hlk : forall w wk, workers st !! w = Some wk -> wk = Finished).
  { intros w wk Hlk. rewrite Forall_forall in Hfin. apply Hfin.
    eapply list_elem_of_lookup_2; eassumption. }
  assert (Hne : main st <> AwaitInit).
  { apply reachable_invariant in Hr as [Hq|Hu].
    - destruct Hq as (_ & _ & _ & _ & _ & _ & Hnc & _). contradiction.
    - now destruct Hu as (_ & Hm & _). }
  split_and!; auto.
  - now apply in_flight_finished.
  - intros ev st' Hstep.
    destruct ev as [|r|w r|w|w|r|r|]; simpl in Hstep.
    + injection Hstep as <-. unfold cancel; simpl.
      destruct (abort_events_neutral (workers st)) as (Ha & Hq & _).
      now rewrite requested_app, acked_app, Ha, Hq, !app_nil_r.
    + destruct (main st); try discriminate. contradiction.
    + destruct (workers st !! w) as [wk|] eqn:E; [|discriminate].
      rewrite (Hlk _ _ E) in Hstep. discriminate.
    + destruct (workers st !! w) as [wk|] eqn:E; [|discriminate].
      rewrite (Hlk _ _ E) in Hstep. discriminate.
    + destruct (workers st !! w) as [wk|] eqn:E; [|discriminate].
      rewrite (Hlk _ _ E) in Hstep. discriminate.
    + destruct (main st); try discriminate. injection Hstep as <-.
      unfold on_complete, poll_top, reject.
      destruct r as [status []|]; [destruct (ok status)|]; simpl;
        [destruct (aborted st); simpl|..];
        now rewrite requested_app, acked_app, !app_nil_r.
    + destruct (main st); try discriminate. injection Hstep as <-.
      unfold on_status, resolve, reject.
      destruct r as [status body|]; simpl;
        [destruct (bool_decide (stage body = "DONE"));
         [|destruct (bool_decide (stage body = "FAILED")
                     || bool_decide (stage body = "UNKNOWN"))]; simpl|];
        now rewrite ?requested_app, ?acked_app, !app_nil_r.
    + destruct (main st); try discriminate. injection Hstep as <-.
      unfold poll_top, reject. destruct (aborted st); simpl;
        now rewrite requested_app, acked_app, !app_nil_r.
Qed.

Lemma pipeline_order_witness :
  reachable Examples.cfg1 (Examples.after Examples.cfg1 Examples.uploaded1)
  /\ ReqComplete ∈ trace (Examples.after Examples.cfg1 Examples.uploaded1).
Proof.
  assert (Hr : reachable Examples.cfg1
                 (Examples.after Examples.cfg1 Examples.uploaded1)).
  { exists Examples.uploaded1. vm_compute. reflexivity. }
  split; [exact Hr|].
  refine (proj1 (pipeline_order Examples.cfg1 _ Hr) _).
  vm_compute. reflexivity.
Defined.

(** X4: A worker that has failed, and the rejection of the promise with it,
    do not stop the other workers: the answer to a segment still in
    flight is counted and reported through onUploadProgress, and the
    worker goes on to request the next index of the queue. The task,
    which showed its error state at the rejection, is set back to
    Uploading by that progress call. *)
Theorem workers_outlive_failure (cfg : config) (st : state)
    (w i t j : nat) (q : list nat) (status : Z) (e : js_error) :
  main st = Rejected e -> aborted st = false ->
  workers st !! w = Some (Fetching i t false) -> queue st = j :: q ->
  ok status = true ->
  exists st',
    step cfg st (SegmentSettled w (Response status tt)) = Some st'
    /\ main st' = Rejected e
    /\ queue st' = q
    /\ workers st' !! w = Some (Fetching j 2 false)
    /\ trace st'
       = trace st
         ++ [SegmentAcked i;
             OnUploadProgress (fraction (S (uploaded st)) (total cfg));
             ReqSegment j (chunk cfg j)]
    /\ Snackbar.startServerPipeline (trace st')
       = Snackbar.startServerPipeline (trace st)
         ++ [Snackbar.Uploading (fraction (S (uploaded st)) (total cfg))].
Proof.
  intros Hm Hab Hlk Hq Hok.
  assert (Hlt : (w < length (workers st))%nat)
    by (eapply lookup_lt_Some; eassumption).
  eexists. split.
  { simpl. rewrite Hlk. unfold on_segment. rewrite Hok. cbn [negb].
    unfold worker_loop. rewrite drain_eq.
    cbn [queue aborted emit set_uploaded]. rewrite Hq, Hab.
    reflexivity. }
  unfold put_worker, promise_all.
  cbn [fst snd main queue workers trace emit set_queue set_workers
       set_uploaded].
  rewrite Hm. cbn [main queue workers trace set_workers emit set_queue
                   set_uploaded].
  split_and!; auto.
  - now apply list_lookup_insert_eq.
  - now rewrite <- app_assoc.
  - unfold Snackbar.startServerPipeline.
    rewrite !flat_map_app. cbn [flat_map Snackbar.pipeline_observe app].
    rewrite ?app_nil_r, <- ?app_assoc. reflexivity.
Qed.

Lemma workers_outlive_failure_witness :
  main (Examples.after Examples.cfg5 Examples.first_worker_fails)
  = Rejected (Error "segment 1 http 500")
  /\ exists st',
       step Examples.cfg5
         (Examples.after Examples.cfg5 Examples.first_worker_fails)
         (SegmentSettled 1 Examples.accepted) = Some st'
       /\ queue st' = [].
Proof.
  split; [vm_compute; reflexivity|].
  destruct (workers_outlive_failure Examples.cfg5
              (Examples.after Examples.cfg5 Examples.first_worker_fails)
              1 2 2 3 [] 200 (Error "segment 1 http 500"))
    as (st' & H1 & _ & H2 & _);
    try (vm_compute; reflexivity).
  exists st'. split; [exact H1 | exact H2].
Defined.

Lemma cancelled_for_good_step (cfg : config) (st st' : state) (ev : event) :
  cancelled_for_good st -> step cfg st ev = Some st' ->
  cancelled_for_good st'.
Proof.
  intros (Hab & H1 & H2 & H3) Hstep.
  destruct (step_keeps_facts cfg st st' ev Hstep) as (F1 & F2 & F3 & F4 & _).
  unfold cancelled_for_good. split_and!.
  - auto.
  - now destruct (F2 H1).
  - intros Hs. destruct (F3 Hs) as [H|H]; [contradiction | congruence].
  - intros r Hr. destruct (F4 r Hr) as [H|[[H _]|[H _]]];
      [now apply H3 in H | contradiction | contradiction].
Qed.

(** X5: A cancel that arrives while the workers, the completion answer or
    the poll timer are awaited settles the matter: whatever happens
    afterwards, the promise never resolves. (Only a cancel that arrives
    while the init or a status request is in flight can still be followed
    by a resolution.) *)
Theorem cancel_is_final (cfg : config) (st st' : state)
    (evs : list event) :
  main st = AwaitWorkers \/ main st = AwaitComplete
  \/ main st = AwaitPollTimer ->
  run cfg (cancel st) evs = Some st' ->
  aborted st' = true /\ forall r, main st' <> Resolved r.
Proof.
  intros Hm Hrun.
  assert (Hc : cancelled_for_good (cancel st)).
  { unfold cancelled_for_good, cancel; simpl.
    destruct Hm as [Hm|[Hm|Hm]]; rewrite Hm; split_and!;
      try reflexivity; try discriminate; intros r; discriminate. }
  assert (Hc' : cancelled_for_good st').
  { refine (run_preserves cfg cancelled_for_good _ evs _ _ Hc Hrun).
    intros s ev s'. apply cancelled_for_good_step. }
  destruct Hc' as (H1 & _ & _ & H2). auto.
Qed.

Lemma cancel_is_final_witness :
  main (Examples.after Examples.cfg1 [InitSettled (Examples.init_ok "u1")])
  = AwaitWorkers
  /\ forall r,
      main (Examples.after Examples.cfg1
              [InitSettled (Examples.init_ok "u1"); Cancel;
               SegmentAborted 0]) <> Resolved r.
Proof.
  split; [vm_compute; reflexivity|].
  refine (proj2 (cancel_is_final Examples.cfg1
                   (Examples.after Examples.cfg1
                      [InitSettled (Examples.init_ok "u1")])
                   _ [SegmentAborted 0] _ _)).
  - left. vm_compute. reflexivity.
  - vm_compute. reflexivity.
Defined.

Lemma reuses_step (cfg : config) (u : string) (st st' : state)
    (ev : event) :
  reuses u st -> step cfg st ev = Some st' -> reuses u st'.
Proof.
  intros (H1 & H2 & H3 & H4) Hstep.
  destruct (step_keeps_facts cfg st st' ev Hstep)
    as (_ & F2 & _ & F4 & es & Htr & Hni & _).
  destruct (F2 H1) as [G1 G2].
  unfold reuses. rewrite Htr, G2, H2. split_and!; auto.
  - intros n Hin. apply elem_of_app in Hin as [Hin|Hin];
      [now apply H3 in Hin | now apply Hni in Hin].
  - intros r Hr. destruct (F4 r Hr) as [H|[[_ H]|[H _]]];
      [auto | now rewrite H, H2 | contradiction].
Qed.

Lemma upload_phase_started (cfg : config) (st : state) (u : string) :
  main (upload_phase cfg (set_uploadId u st)) <> AwaitInit
  /\ uploadId (upload_phase cfg (set_uploadId u st)) = u
  /\ forall r, main (upload_phase cfg (set_uploadId u st)) <> Resolved r.
Proof.
  unfold upload_phase.
  set (s0 := set_uploaded 0 (set_queue _ (set_main AwaitWorkers _))).
  pose proof (promise_all_facts s0 _
                (frame_spawn cfg (concurrency cfg) s0 s0 (frame_refl s0)))
    as (_ & F2 & _ & F4 & _).
  destruct F2 as [G1 G2]; [discriminate|].
  split_and!; auto.
  intros r Hr. destruct (F4 r Hr) as [H|[[H _]|[H _]]]; discriminate.
Qed.

(** X6: When the preflight result brings an upload id, the call issues no
    init request, keeps that id for the whole session, and resolves, if
    it resolves, with that id. *)
Theorem preflight_id_reused (cfg : config) (oid u : string) (st : state) :
  preflightResult cfg = Some (NotExists oid (Some u)) -> u <> "" ->
  reachable cfg st ->
  (forall n, ReqInit n ∉ trace st)
  /\ uploadId st = u
  /\ forall r, main st = Resolved r -> res_uploadId r = Some u.
Proof.
  intros Hpre Hu [evs Hrun].
  assert (H0 : reuses u (startIngestion cfg)).
  { unfold startIngestion. rewrite Hpre.
    rewrite bool_decide_false by exact Hu.
    set (st0 := {| aborted := false; queue := []; uploaded := 0;
                   uploadId := ""; workers := []; main := AwaitInit;
                   trace := [] |}).
    destruct (upload_phase_started cfg st0 u) as (G1 & G2 & G3).
    destruct (upload_phase_facts cfg st0 u eq_refl)
      as (_ & _ & _ & _ & es & Htr & Hni & _).
    unfold reuses. rewrite Htr. split_and!; auto.
    intros r Hr. now apply G3 in Hr. }
  assert (H : reuses u st).
  { refine (run_preserves cfg (reuses u) _ evs _ _ H0 Hrun).
    intros s ev s'. apply reuses_step. }
  destruct H as (_ & H2 & H3 & H4). auto.
Qed.

Lemma preflight_id_reused_witness :
  reachable Examples.cfg_reuse (startIngestion Examples.cfg_reuse)
  /\ uploadId (startIngestion Examples.cfg_reuse) = "u7".
Proof.
  assert (Hr : reachable Examples.cfg_reuse
                 (startIngestion Examples.cfg_reuse)).
  { exists []. reflexivity. }
  split; [exact Hr|].
  refine (proj1 (proj2
    (preflight_id_reused Examples.cfg_reuse "0123456789abcdef" "u7" _
       eq_refl _ Hr))).
  discriminate.
Defined.

(** X7: For a positive part size and without an upload id from the
    preflight, the first thing the call does is the init request,
    carrying the segment count (the size divided by the part size,
    rounded up), and it never issues a second one. *)
Theorem init_requested_once (cfg : config) (st : state) :
  (0 < partSize cfg)%Z -> (0 <= blob_size cfg)%Z ->
  (preflightResult cfg = None
   \/ exists oid, preflightResult cfg = Some (NotExists oid None)) ->
  reachable cfg st ->
  (exists es, trace st = ReqInit (total cfg) :: es
              /\ forall n, ReqInit n ∉ es)
  /\ (blob_size cfg <= Z.of_nat (total cfg) * partSize cfg
      < blob_size cfg + partSize cfg)%Z.
Proof.
  intros HP HS Hpre [evs Hrun].
  split; [|exact (total_bounds _ _ HP HS)].
  refine (run_preserves cfg
            (fun s => exists es, trace s = ReqInit (total cfg) :: es
                                 /\ forall n, ReqInit n ∉ es)
            _ evs _ _ _ Hrun).
  - intros s ev s' (es & Htr & Hni) Hstep.
    destruct (step_keeps_facts cfg s s' ev Hstep)
      as (_ & _ & _ & _ & es' & Htr' & Hni' & _).
    exists (es ++ es'). rewrite Htr', Htr. split; [reflexivity|].
    intros n Hin. apply elem_of_app in Hin as [Hin|Hin];
      [now apply Hni in Hin | now apply Hni' in Hin].
  - exists []. unfold startIngestion.
    destruct Hpre as [Hpre|[oid Hpre]]; rewrite Hpre; simpl;
      (split; [reflexivity|]; intros n Hin; now apply elem_of_nil in Hin).
Qed.

Lemma init_requested_once_witness :
  (0 < partSize Examples.cfg5)%Z
  /\ reachable Examples.cfg5 (Examples.after Examples.cfg5 Examples.upload5)
  /\ exists es,
       trace (Examples.after Examples.cfg5 Examples.upload5)
       = ReqInit 3 :: es
       /\ forall n, ReqInit n ∉ es.
Proof.
  assert (Hr : reachable Examples.cfg5
                 (Examples.after Examples.cfg5 Examples.upload5)).
  { exists Examples.upload5. vm_compute. reflexivity. }
  assert (Hp : (0 < partSize Examples.cfg5)%Z) by reflexivity.
  assert (Hs : (0 <= blob_size Examples.cfg5)%Z) by discriminate.
  split_and!; [exact Hp | exact Hr |].
  exact (proj1 (init_requested_once Examples.cfg5 _ Hp Hs
                  (or_introl eq_refl) Hr)).
Defined.

End UploadFacts.

(** ** URLs *)

Section UrlFacts.

Lemma strip_app_slash (s : string) :
  Url.strip_trailing_slash (s +:+ "/") = s.
Proof.
  induction s as [|c s IH]; [reflexivity|].
  change (String c s +:+ "/") with (String c (s +:+ "/")).
  destruct s as [|c' s']; [reflexivity|].
  change (Url.strip_trailing_slash (String c (String c' s' +:+ "/")))
    with (String c (Url.strip_trailing_slash (String c' s' +:+ "/"))).
  now rewrite IH.
Qed.

(** X8: [joinUrl] puts exactly one slash between a base and a path: for a
    base without a trailing slash and a path without a leading one, the
    four spellings, with or without either slash, give the same URL. *)
Theorem joinUrl_one_slash (b p : string) :
  Url.strip_trailing_slash b = b -> Url.starts_with_slash p = false ->
  Url.joinUrl b p = b +:+ "/" +:+ p
  /\ Url.joinUrl (b +:+ "/") p = b +:+ "/" +:+ p
  /\ Url.joinUrl b ("/" +:+ p) = b +:+ "/" +:+ p
  /\ Url.joinUrl (b +:+ "/") ("/" +:+ p) = b +:+ "/" +:+ p.
Proof.
  intros Hb Hp.
  assert (Hs : Url.starts_with_slash ("/" +:+ p) = true).
  { unfold Url.starts_with_slash. simpl.
    destruct (ascii_dec "/" "/"); [|contradiction].
    now destruct p. }
  unfold Url.joinUrl. rewrite strip_app_slash, Hb, Hp, Hs.
  split_and!; reflexivity.
Qed.

Lemma joinUrl_one_slash_witness :
  Url.strip_trailing_slash "http://127.0.0.1:5000" = "http://127.0.0.1:5000"
  /\ Url.joinUrl "http://127.0.0.1:5000/" "/api/ingestions"
     = "http://127.0.0.1:5000/api/ingestions".
Proof.
  split; [reflexivity|].
  exact (proj2 (proj2 (proj2
    (joinUrl_one_slash "http://127.0.0.1:5000" "api/ingestions"
       eq_refl eq_refl)))).
Defined.

Lemma prefix_app (a x y : string) :
  String.prefix a x = true -> String.prefix a (x +:+ y) = true.
Proof.
  revert x. induction a as [|c a IH]; intros x H.
  { now destruct (x +:+ y). }
  destruct x as [|d x]; [discriminate|]. simpl in *.
  destruct (ascii_dec c d); [now apply IH | discriminate].
Qed.

(** X9: The link handed on by [startIngestion] is absolute whenever the
    endpoint is: a link of the server that is already absolute is left
    alone, a relative one is joined to the endpoint, and doing it twice
    changes nothing more. (An empty link stays empty.) *)
Theorem absolutize_absolute (ep u v : string) :
  Url.is_absolute (Url.strip_trailing_slash ep) = true ->
  Url.absolutize ep (Some u) = Some v ->
  (v = "" \/ Url.is_absolute v = true)
  /\ Url.absolutize ep (Some v) = Some v.
Proof.
  intros Hep. unfold Url.absolutize.
  destruct (bool_decide_reflect (u = "")) as [->|Hu].
  { intros [= <-]. split; [now left | reflexivity]. }
  destruct (Url.is_absolute u) eqn:Eu.
  { intros [= <-]. split; [now right|].
    rewrite bool_decide_false by exact Hu. now rewrite Eu. }
  intros [= <-].
  assert (Habs : Url.is_absolute (Url.joinUrl ep u) = true).
  { unfold Url.is_absolute, Url.joinUrl in *.
    apply orb_true_iff in Hep as [H|H].
    - rewrite (prefix_app _ _ _ H). reflexivity.
    - rewrite (prefix_app _ _ _ H). apply orb_true_r. }
  split; [now right|]. rewrite Habs.
  now destruct (bool_decide (Url.joinUrl ep u = "")).
Qed.

Lemma absolutize_absolute_witness :
  Url.is_absolute (Url.strip_trailing_slash "http://127.0.0.1:5000") = true
  /\ Url.absolutize "http://127.0.0.1:5000"
       (Some "http://127.0.0.1:5000/api/download/0123456789abcdef")
     = Some "http://127.0.0.1:5000/api/download/0123456789abcdef".
Proof.
  split; [reflexivity|].
  exact (proj2 (absolutize_absolute "http://127.0.0.1:5000"
                  "/api/download/0123456789abcdef" _ eq_refl eq_refl)).
Defined.

End UrlFacts.

(** ** The task before and after the upload *)

Section TaskFacts.

Import Insight.

Lemma app_nonempty (x y : string) : y <> "" -> x +:+ y <> "".
Proof. intros Hy. destruct x; [exact Hy | discriminate]. Qed.

Lemma preflight_url_given (ep : string) (o : option string) :
  (given o -> exists v, Snackbar.preflight_url ep o = Some v /\ v <> "")
  /\ (~ given o -> Snackbar.preflight_url ep o = None).
Proof.
  unfold given, Snackbar.preflight_url. split.
  - intros (u & -> & Hu). rewrite bool_decide_false by exact Hu.
    eexists. split; [reflexivity|].
    destruct (Url.is_absolute u); [exact Hu|].
    unfold Url.joinUrl. now apply app_nonempty, app_nonempty.
  - intros Hn. destruct o as [u|]; [|reflexivity].
    destruct (bool_decide_reflect (u = "")); [reflexivity|].
    exfalso. apply Hn. eauto.
Qed.

Lemma given_dec (o : option string) : given o \/ ~ given o.
Proof.
  destruct o as [u|].
  - destruct (decide (u = "")) as [->|Hne].
    + right. intros (v & Hv & Hn). congruence.
    + left. exists u. auto.
  - right. intros (v & Hv & _). discriminate.
Qed.

(** X10: Whatever the preflight answers, a failure included, [run] shows no
    error state for it: every state it sets up to its decision is
    Waiting{check}, or Finished with a non-empty link. *)
Theorem preflight_states (ep : string)
    (r : Ingestion.outcome Snackbar.preflight_body)
    (s : Snackbar.TaskSnackbarState) :
  s ∈ fst (Snackbar.run_preflight ep r) ->
  (exists label, s = Snackbar.Waiting Snackbar.W_check label)
  \/ (exists link, link <> "" /\ s = Snackbar.Finished link).
Proof.
  unfold Snackbar.run_preflight, Snackbar.preflightIngestion.
  destruct r as [status data|]; simpl.
  - destruct (Ingestion.ok status); simpl.
    + destruct (Snackbar.pre_exists data); simpl.
      * destruct (bool_decide_reflect
                    (Snackbar.exists_link
                       (Snackbar.preflight_url
                          (Url.strip_trailing_slash ep)
                          (Snackbar.pre_downloadUrl data))
                       (Snackbar.preflight_url
                          (Url.strip_trailing_slash ep)
                          (Snackbar.pre_rawUrl data)) = ""))
          as [He|Hne]; simpl; intros Hin;
          repeat (apply elem_of_cons in Hin as [->|Hin]; [eauto|]);
          now apply elem_of_nil in Hin.
      * intros Hin.
        repeat (apply elem_of_cons in Hin as [->|Hin]; [eauto|]).
        now apply elem_of_nil in Hin.
    + intros Hin.
      repeat (apply elem_of_cons in Hin as [->|Hin]; [eauto|]).
      now apply elem_of_nil in Hin.
  - intros Hin.
    repeat (apply elem_of_cons in Hin as [->|Hin]; [eauto|]).
    now apply elem_of_nil in Hin.
Qed.

Lemma preflight_states_witness :
  Snackbar.Waiting Snackbar.W_check None
    ∈ fst (Snackbar.run_preflight "http://127.0.0.1:5000"
             Ingestion.NetworkFailure)
  /\ ((exists label,
         Snackbar.Waiting Snackbar.W_check None
         = Snackbar.Waiting Snackbar.W_check label)
      \/ (exists link,
            link <> ""
            /\ Snackbar.Waiting Snackbar.W_check None
               = Snackbar.Finished link)).
Proof.
  assert (Hin : Snackbar.Waiting Snackbar.W_check None
                  ∈ fst (Snackbar.run_preflight "http://127.0.0.1:5000"
                           Ingestion.NetworkFailure)).
  { vm_compute. left. }
  split; [exact Hin|].
  exact (preflight_states _ _ _ Hin).
Defined.

(** X11: When the preflight says the content exists, the task finishes at
    once exactly when the answer gives a non-empty downloadUrl or rawUrl;
    a given downloadUrl is the one that is used. *)
Theorem preflight_finishes (ep : string) (status : Z)
    (data : Snackbar.preflight_body) :
  Ingestion.ok status = true -> Snackbar.pre_exists data = true ->
  (given (Snackbar.pre_downloadUrl data) \/ given (Snackbar.pre_rawUrl data)
   <-> snd (Snackbar.run_preflight ep (Ingestion.Response status data))
       = Snackbar.Skip)
  /\ (given (Snackbar.pre_downloadUrl data) ->
      Snackbar.preflight_url (Url.strip_trailing_slash ep)
        (Snackbar.pre_downloadUrl data)
      = Some (Snackbar.exists_link
                (Snackbar.preflight_url (Url.strip_trailing_slash ep)
                   (Snackbar.pre_downloadUrl data))
                (Snackbar.preflight_url (Url.strip_trailing_slash ep)
                   (Snackbar.pre_rawUrl data)))).
Proof.
  intros Hok Hex.
  set (e := Url.strip_trailing_slash ep).
  destruct (preflight_url_given e (Snackbar.pre_downloadUrl data))
    as [Hd1 Hd2].
  destruct (preflight_url_given e (Snackbar.pre_rawUrl data)) as [Hr1 Hr2].
  assert (Hrun : snd (Snackbar.run_preflight ep
                        (Ingestion.Response status data))
                 = if bool_decide
                        (Snackbar.exists_link
                           (Snackbar.preflight_url e
                              (Snackbar.pre_downloadUrl data))
                           (Snackbar.preflight_url e
                              (Snackbar.pre_rawUrl data)) = "")
                   then Snackbar.Throws
                          (Ingestion.Error "server returned exists but no url")
                   else Snackbar.Skip).
  { unfold Snackbar.run_preflight, Snackbar.preflightIngestion.
    rewrite Hok, Hex. simpl. fold e.
    now destruct (bool_decide _). }
  rewrite Hrun. split.
  - split.
    + intros Hg. rewrite bool_decide_false; [reflexivity|].
      unfold Snackbar.exists_link.
      destruct (Snackbar.preflight_url e (Snackbar.pre_downloadUrl data))
        as [v|] eqn:Ed.
      * destruct (given_dec ( (Snackbar.pre_downloadUrl data)))
          as [Hgd|Hnd].
        -- destruct (Hd1 Hgd) as (v' & Hv & Hne). congruence.
        -- discriminate (Hd2 Hnd).
      * destruct Hg as [Hg|Hg].
        -- destruct (Hd1 Hg) as (v' & Hv & _). congruence.
        -- destruct (Hr1 Hg) as (v' & -> & Hne). exact Hne.
    + destruct (bool_decide_reflect
                  (Snackbar.exists_link
                     (Snackbar.preflight_url e
                        (Snackbar.pre_downloadUrl data))
                     (Snackbar.preflight_url e (Snackbar.pre_rawUrl data))
                   = "")) as [He|Hne]; [discriminate|].
      intros _.
      destruct (given_dec ( (Snackbar.pre_downloadUrl data)))
        as [Hgd|Hnd]; [now left|].
      destruct (given_dec ( (Snackbar.pre_rawUrl data)))
        as [Hgr|Hnr]; [now right|].
      exfalso. apply Hne. unfold Snackbar.exists_link.
      now rewrite (Hd2 Hnd), (Hr2 Hnr).
  - intros Hg. destruct (Hd1 Hg) as (v & Hv & _). now rewrite Hv.
Qed.

Lemma preflight_finishes_witness :
  Ingestion.ok 200 = true
  /\ snd (Snackbar.run_preflight "http://127.0.0.1:5000"
            Examples.exists_with_link)
     = Snackbar.Skip.
Proof.
  assert (H1 : Ingestion.ok 200 = true) by reflexivity.
  split; [exact H1|].
  apply (preflight_finishes "http://127.0.0.1:5000" 200
           {| Snackbar.pre_exists := true;
              Snackbar.pre_objectId := "0123456789abcdef";
              Snackbar.pre_downloadUrl :=
                Some "/api/download/0123456789abcdef";
              Snackbar.pre_rawUrl := None;
              Snackbar.pre_uploadId := None |} H1 eq_refl).
  left. eexists. split; [reflexivity | discriminate].
Defined.

Lemma literal_sound (pat s rest : string) :
  literal pat s = Some rest ->
  exists lit, s = lit +:+ rest /\ lower_string lit = pat.
Proof.
  revert s. induction pat as [|p pat IH]; intros s H; simpl in H.
  - injection H as ->. now exists "".
  - destruct s as [|c s]; [discriminate|].
    destruct (Ascii.eqb_spec (lower c) p) as [<-|]; [|discriminate].
    destruct (IH _ H) as (lit & -> & <-).
    now exists (String c lit).
Qed.

Lemma hex_digits_sound (n : nat) (s ds : string) :
  hex_digits n s = Some ds ->
  String.length ds = n /\ all_hex ds = true
  /\ exists post, s = ds +:+ post.
Proof.
  revert s ds. induction n as [|n IH]; intros s ds H; simpl in H.
  - injection H as <-. split_and!; [reflexivity | reflexivity |].
    now exists s.
  - destruct s as [|c s]; [discriminate|].
    destruct (is_hex c) eqn:Hc; [|discriminate].
    destruct (hex_digits n s) as [ds'|] eqn:E; [|discriminate].
    injection H as <-. destruct (IH _ _ E) as (Hl & Hh & post & ->).
    simpl. rewrite Hc, Hh, Hl. split_and!; [reflexivity | reflexivity |].
    now exists post.
Qed.

Lemma hex_digits_complete (ds post : string) :
  all_hex ds = true -> hex_digits (String.length ds) (ds +:+ post) = Some ds.
Proof.
  induction ds as [|c ds IH]; simpl; [reflexivity|].
  intros [Hc Hds]%andb_prop. now rewrite Hc, (IH Hds).
Qed.

(** X12: The object id that [extractObjectIdFromUrl] finds is sixteen
    hexadecimal digits that stand in the link right after
    [/api/download/], written in any case. *)
Theorem extractObjectIdFromUrl_sound (url id : string) :
  extractObjectIdFromUrl url = Some id ->
  String.length id = 16%nat /\ all_hex id = true
  /\ exists pre lit post,
       url = pre +:+ lit +:+ id +:+ post
       /\ lower_string lit = "/api/download/".
Proof.
  induction url as [|c url IH]; intros H.
  - vm_compute in H. discriminate.
  - cbn [extractObjectIdFromUrl] in H.
    destruct (match_here (String c url)) as [id'|] eqn:E.
    + injection H as ->. unfold match_here in E.
      destruct (literal "/api/download/" (String c url)) as [rest|] eqn:El;
        [|discriminate].
      destruct (literal_sound _ _ _ El) as (lit & Hs & Hlit).
      destruct (hex_digits_sound _ _ _ E) as (Hl & Hh & post & ->).
      split_and!; [exact Hl | exact Hh |].
      exists "", lit, post. now split.
    + destruct (IH H) as (Hl & Hh & pre & lit & post & -> & Hlit).
      split_and!; [exact Hl | exact Hh |].
      exists (String c pre), lit, post. now split.
Qed.

Lemma extractObjectIdFromUrl_sound_witness :
  extractObjectIdFromUrl
    "http://127.0.0.1:5000/API/Download/0123456789abCDef?raw=1"
  = Some "0123456789abCDef"
  /\ String.length "0123456789abCDef" = 16%nat.
Proof.
  assert (H : extractObjectIdFromUrl
                "http://127.0.0.1:5000/API/Download/0123456789abCDef?raw=1"
              = Some "0123456789abCDef") by (vm_compute; reflexivity).
  split; [exact H|].
  exact (proj1 (extractObjectIdFromUrl_sound _ _ H)).
Defined.

Lemma match_here_complete (id post : string) :
  String.length id = 16%nat -> all_hex id = true ->
  match_here ("/api/download/" +:+ id +:+ post) = Some id.
Proof.
  intros Hl Hh. unfold match_here.
  change (literal "/api/download/" ("/api/download/" +:+ id +:+ post))
    with (Some (id +:+ post)).
  rewrite <- Hl. now apply hex_digits_complete.
Qed.

Lemma extractObjectIdFromUrl_here (s id : string) :
  match_here s = Some id -> extractObjectIdFromUrl s = Some id.
Proof. intros H. destruct s; cbn [extractObjectIdFromUrl]; now rewrite H. Qed.

Lemma extractObjectIdFromUrl_found (s : string) :
  is_Some (match_here s) -> forall pre,
  is_Some (extractObjectIdFromUrl (pre +:+ s)).
Proof.
  intros [id Hs] pre. induction pre as [|c pre IH].
  - change ("" +:+ s) with s. exists id.
    now apply extractObjectIdFromUrl_here.
  - change (String c pre +:+ s) with (String c (pre +:+ s)).
    cbn [extractObjectIdFromUrl].
    destruct (match_here (String c (pre +:+ s))); [done | exact IH].
Qed.

(** X13: A link that holds [/api/download/] followed by sixteen hexadecimal
    digits always yields an object id, and a link that starts with them
    yields these digits. *)
Theorem extractObjectIdFromUrl_complete (pre id post : string) :
  String.length id = 16%nat -> all_hex id = true ->
  is_Some (extractObjectIdFromUrl
             (pre +:+ "/api/download/" +:+ id +:+ post))
  /\ extractObjectIdFromUrl ("/api/download/" +:+ id +:+ post) = Some id.
Proof.
  intros Hl Hh.
  pose proof (match_here_complete id post Hl Hh) as Hm. split.
  - apply extractObjectIdFromUrl_found. now rewrite Hm.
  - now apply extractObjectIdFromUrl_here.
Qed.

Lemma extractObjectIdFromUrl_complete_witness :
  String.length "00ff00ff00ff00ff" = 16%nat
  /\ extractObjectIdFromUrl ("/api/download/" +:+ "00ff00ff00ff00ff" +:+ "")
     = Some "00ff00ff00ff00ff".
Proof.
  assert (H1 : String.length "00ff00ff00ff00ff" = 16%nat) by reflexivity.
  assert (H2 : all_hex "00ff00ff00ff00ff" = true) by reflexivity.
  split; [exact H1|].
  exact (proj2 (extractObjectIdFromUrl_complete
                  "http://127.0.0.1:5000" "00ff00ff00ff00ff" "" H1 H2)).
Defined.

Lemma insight_observe_cases (url : string) (d : Snackbar.insight_body) :
  (snd (Snackbar.insight_observe url d) = Snackbar.Continue
   /\ exists label,
        fst (Snackbar.insight_observe url d)
        = Snackbar.Waiting Snackbar.W_server label)
  \/ (snd (Snackbar.insight_observe url d) <> Snackbar.Continue
      /\ flow_final url (fst (Snackbar.insight_observe url d))).
Proof.
  unfold Snackbar.insight_observe, flow_final.
  repeat match goal with
         | |- context [bool_decide (Snackbar.insight_stage d = ?s)] =>
             destruct (bool_decide (Snackbar.insight_stage d = s))
         end; simpl; eauto;
    right; (split; [discriminate | eauto]).
Qed.

Lemma insight_poll_states (url : string)
    (rs : list (Ingestion.outcome Snackbar.insight_body))
    (s : Snackbar.TaskSnackbarState) :
  Snackbar.SetState s ∈ fst (Snackbar.insight_poll url rs) ->
  flow_shape url s.
Proof.
  unfold flow_shape.
  induction rs as [|r rs IH]; simpl.
  - intros Hin. apply list_elem_of_singleton in Hin. discriminate.
  - destruct r as [status d|].
    + destruct (Ingestion.ok status); simpl.
      * destruct (insight_observe_cases url d) as [[Hv [l Hs]]|[Hv Hs]];
          destruct (Snackbar.insight_observe url d) as [s0 v];
          simpl in Hv, Hs; subst.
        -- destruct (Snackbar.insight_poll url rs) as [es fin]. simpl in *.
           intros Hin.
           apply elem_of_cons in Hin as [Hin|Hin]; [discriminate|].
           apply elem_of_cons in Hin as [Hin|Hin]; [discriminate|].
           apply elem_of_cons in Hin as [Hin|Hin];
             [injection Hin as ->; eauto|].
           apply elem_of_cons in Hin as [Hin|Hin]; [discriminate|].
           now apply IH.
        -- assert (Hin' : Snackbar.SetState s
                            ∈ [Snackbar.InsightStatus;
                               Snackbar.StageChange (Snackbar.insight_stage d);
                               Snackbar.SetState s0] -> s = s0).
           { intros Hin.
             apply elem_of_cons in Hin as [Hin|Hin]; [discriminate|].
             apply elem_of_cons in Hin as [Hin|Hin]; [discriminate|].
             apply list_elem_of_singleton in Hin. now injection Hin. }
           destruct v; [congruence| |]; simpl; intros Hin;
             rewrite (Hin' Hin); destruct Hs as [->|[m ->]]; eauto.
      * intros Hin.
        apply elem_of_cons in Hin as [Hin|Hin]; [discriminate|].
        apply list_elem_of_singleton in Hin. injection Hin as ->. eauto.
    + intros Hin.
      apply elem_of_cons in Hin as [Hin|Hin]; [discriminate|].
      apply list_elem_of_singleton in Hin. injection Hin as ->. eauto.
Qed.

Lemma insight_poll_last (url : string)
    (rs : list (Ingestion.outcome Snackbar.insight_body)) :
  snd (Snackbar.insight_poll url rs) = true ->
  exists pre s,
    fst (Snackbar.insight_poll url rs) = pre ++ [Snackbar.SetState s]
    /\ flow_final url s.
Proof.
  unfold flow_final.
  induction rs as [|r rs IH]; simpl; [discriminate|].
  destruct r as [status d|].
  - destruct (Ingestion.ok status); simpl.
    + destruct (insight_observe_cases url d) as [[Hv [l Hs]]|[Hv Hs]];
        destruct (Snackbar.insight_observe url d) as [s0 v];
        simpl in Hv, Hs; subst.
      * destruct (Snackbar.insight_poll url rs) as [es fin]. simpl in *.
        intros Hfin. destruct (IH Hfin) as (pre & s & -> & Hs).
        exists (Snackbar.InsightStatus
                  :: Snackbar.StageChange (Snackbar.insight_stage d)
                  :: Snackbar.SetState (Snackbar.Waiting Snackbar.W_server l)
                  :: Snackbar.Sleep 1000 :: pre), s.
        now split.
      * destruct v; [congruence| |]; simpl; intros _;
          exists [Snackbar.InsightStatus;
                  Snackbar.StageChange (Snackbar.insight_stage d)], s0;
          now split.
    + intros _. exists [Snackbar.InsightStatus]. eexists. split; eauto.
  - intros _. exists [Snackbar.InsightStatus]. eexists. split; eauto.
Qed.

Lemma flow_state_loop (es : list Snackbar.insight_emit)
    (s : Snackbar.TaskSnackbarState) :
  s ∈ flat_map flow_state (map FlowLoop es) -> Snackbar.SetState s ∈ es.
Proof.
  induction es as [|e es IH]; simpl; [now intros ?%elem_of_nil|].
  intros [Hin|Hin]%elem_of_app.
  - destruct e; simpl in Hin; try now apply elem_of_nil in Hin.
    apply list_elem_of_singleton in Hin as ->. left.
  - right. now apply IH.
Qed.

(** X14: From the AI step a task only ever shows Waiting{server}, the
    Finished state it started from, or Error{transcode}. *)
Theorem insight_flow_states (url : string)
    (create : Ingestion.outcome unit)
    (rs : list (Ingestion.outcome Snackbar.insight_body))
    (s : Snackbar.TaskSnackbarState) :
  s ∈ flat_map flow_state (startInsightFlow url create rs) ->
  (exists label, s = Snackbar.Waiting Snackbar.W_server label)
  \/ s = Snackbar.Finished url
  \/ (exists m, s = Snackbar.Error Snackbar.E_transcode m).
Proof.
  fold (flow_shape url s). unfold startInsightFlow, flow_shape.
  destruct (extractObjectIdFromUrl url) as [id|]; simpl.
  - intros Hin. apply elem_of_cons in Hin as [->|Hin]; [eauto|].
    destruct create as [status u|].
    + destruct (Ingestion.ok status); simpl in Hin.
      * now apply flow_state_loop, insight_poll_states in Hin.
      * apply list_elem_of_singleton in Hin as ->. eauto.
    + apply list_elem_of_singleton in Hin as ->. eauto.
  - intros Hin. apply list_elem_of_singleton in Hin as ->. eauto.
Qed.

Lemma insight_flow_states_witness :
  Snackbar.Finished "/api/download/00ff00ff00ff00ff"
    ∈ flat_map flow_state
        (startInsightFlow "/api/download/00ff00ff00ff00ff"
           (Ingestion.Response 200 tt)
           [Ingestion.Response 200 (snd Examples.insight_foo);
            Ingestion.Response 200
              {| Snackbar.ins_stage := Some "DONE";
                 Snackbar.ins_progress := None;
                 Snackbar.ins_message := None |}])
  /\ flow_shape "/api/download/00ff00ff00ff00ff"
       (Snackbar.Finished "/api/download/00ff00ff00ff00ff").
Proof.
  assert (Hin : Snackbar.Finished "/api/download/00ff00ff00ff00ff"
                  ∈ flat_map flow_state
                      (startInsightFlow "/api/download/00ff00ff00ff00ff"
                         (Ingestion.Response 200 tt)
                         [Ingestion.Response 200 (snd Examples.insight_foo);
                          Ingestion.Response 200
                            {| Snackbar.ins_stage := Some "DONE";
                               Snackbar.ins_progress := None;
                               Snackbar.ins_message := None |}])).
  { vm_compute. do 2 right. left. }
  split; [exact Hin|].
  exact (insight_flow_states _ _ _ _ Hin).
Defined.

Lemma flow_state_last (es : list Snackbar.insight_emit)
    (s : Snackbar.TaskSnackbarState) :
  flat_map flow_state (map FlowLoop (es ++ [Snackbar.SetState s]))
  = flat_map flow_state (map FlowLoop es) ++ [s].
Proof. now rewrite map_app, flat_map_app. Qed.

(** X15: Once the AI step has come to its end, by success or by any failure,
    the task is back in the Finished state it started from or in
    Error{transcode}: it is never left waiting. *)
Theorem insight_flow_ends (url : string)
    (create : Ingestion.outcome unit)
    (rs : list (Ingestion.outcome Snackbar.insight_body)) :
  flow_ended url create rs = true ->
  exists s,
    last (flat_map flow_state (startInsightFlow url create rs)) = Some s
    /\ (s = Snackbar.Finished url
        \/ exists m, s = Snackbar.Error Snackbar.E_transcode m).
Proof.
  unfold flow_ended, startInsightFlow.
  destruct (extractObjectIdFromUrl url) as [id|].
  - destruct create as [status u|].
    + destruct (Ingestion.ok status); simpl.
      * intros Hfin.
        destruct (insight_poll_last url rs Hfin) as (pre & s & -> & Hs).
        exists s. split; [|exact Hs].
        rewrite flow_state_last.
        change (last ((Snackbar.Waiting Snackbar.W_server (Some "启动洞悉...")
                       :: flat_map flow_state (map FlowLoop pre)) ++ [s])
                = Some s).
        apply last_snoc.
      * intros _. eexists. split; [reflexivity|]. eauto.
    + intros _. eexists. split; [reflexivity|]. eauto.
  - intros _. eexists. split; [reflexivity|]. eauto.
Qed.

Lemma insight_flow_ends_witness :
  flow_ended "blob:https://www.yanhekt.cn/0f1e2d3c" Ingestion.NetworkFailure []
  = true
  /\ exists s,
       last (flat_map flow_state
               (startInsightFlow "blob:https://www.yanhekt.cn/0f1e2d3c"
                  Ingestion.NetworkFailure [])) = Some s
       /\ (s = Snackbar.Finished "blob:https://www.yanhekt.cn/0f1e2d3c"
           \/ exists m, s = Snackbar.Error Snackbar.E_transcode m).
Proof.
  assert (H : flow_ended "blob:https://www.yanhekt.cn/0f1e2d3c"
                Ingestion.NetworkFailure [] = true)
    by (vm_compute; reflexivity).
  split; [exact H|].
  exact (insight_flow_ends _ _ _ H).
Defined.

End TaskFacts.

(** ** The task list, the registry and the button *)

Section TasksFacts.

Import Ingestion Observe App Tasks.

(** X16: Restarting the task at a valid index keeps the same tasks: the list
    is a permutation of the old one, with the restarted task moved to the
    end and the others in their order. *)
Theorem restartTask_moves (tasks : list Snackbar.DownloadTask) (index : nat)
    (task : Snackbar.DownloadTask) :
  tasks !! index = Some task ->
  exists tasks',
    restartTask tasks index = Some tasks'
    /\ tasks' = take index tasks ++ drop (S index) tasks ++ [task]
    /\ tasks' ≡ₚ tasks
    /\ last tasks' = Some task
    /\ length tasks' = length tasks.
Proof.
  intros Hlk. unfold restartTask, addTask, deleteTask. rewrite Hlk.
  eexists. split; [reflexivity|].
  assert (Hp : delete index tasks ++ [task] ≡ₚ tasks).
  { rewrite (delete_Permutation tasks index task Hlk) at 2.
    symmetry. apply Permutation_cons_append. }
  split_and!.
  - now rewrite delete_take_drop, <- app_assoc.
  - exact Hp.
  - apply last_snoc.
  - now rewrite Hp.
Qed.

Lemma restartTask_moves_witness :
  restartTask [lecture; lecture2] 0 = Some [lecture2; lecture].
Proof.
  destruct (restartTask_moves [lecture; lecture2] 0 lecture eq_refl)
    as (tasks' & Hr & Heq & _).
  rewrite Hr, Heq. reflexivity.
Defined.

(** X17: Once the registry holds DONE for a title, then after any further
    stage reports the button of that title reads "洞悉完成", is disabled,
    and a click on it does not open the panel. *)
Theorem done_disables_button (stages : gmap string string)
    (title : string) (rs : list report) :
  stages !! title = Some "DONE" -> title <> "" ->
  opens_panel (apply_reports stages rs) title = false
  /\ isDone (button_stage (apply_reports stages rs) title) = true
  /\ button_text (button_stage (apply_reports stages rs) title)
     = "洞悉完成".
Proof.
  intros Hd Hne.
  pose proof (apply_reports_done rs title stages Hd) as Hrs.
  unfold opens_panel, button_text, isDone, button_stage.
  rewrite (bool_decide_false _ Hne), Hrs.
  split_and!; vm_compute; reflexivity.
Qed.

Lemma done_disables_button_witness :
  opens_panel
    (apply_reports (<["Lecture 1" := "DONE"]> ∅)
       [{| rep_tasks := [lecture]; rep_index := 0; rep_stage := "QUEUED" |}])
    "Lecture 1" = false.
Proof.
  apply (done_disables_button (<["Lecture 1" := "DONE"]> ∅) "Lecture 1"
           [{| rep_tasks := [lecture]; rep_index := 0;
               rep_stage := "QUEUED" |}]).
  - vm_compute. reflexivity.
  - discriminate.
Defined.

Lemma foldl_keeps_done (tasks : list Snackbar.DownloadTask) (index : nat)
    (title : string) (ss : list string) (m : gmap string string) :
  m !! title = Some "DONE" ->
  foldl (fun m s => handleStageChange tasks index s m) m ss !! title
  = Some "DONE".
Proof.
  revert m. induction ss as [|s ss IH]; intros m Hd; simpl; [exact Hd|].
  apply IH. now apply handleStageChange_done.
Qed.

Lemma foldl_reaches_done (tasks : list Snackbar.DownloadTask) (index : nat)
    (task : Snackbar.DownloadTask) (ss : list string)
    (m : gmap string string) :
  tasks !! index = Some task -> Snackbar.courseTitle task <> "" ->
  "DONE" ∈ ss ->
  foldl (fun m s => handleStageChange tasks index s m) m ss
    !! Snackbar.courseTitle task = Some "DONE".
Proof.
  intros Hlk Hne. revert m.
  induction ss as [|s ss IH]; intros m Hin; [now apply elem_of_nil in Hin|].
  simpl. apply elem_of_cons in Hin as [<-|Hin]; [|now apply IH].
  apply foldl_keeps_done. unfold handleStageChange. rewrite Hlk.
  rewrite (bool_decide_false _ Hne).
  destruct (bool_decide_reflect
              (m !! Snackbar.courseTitle task = Some "DONE")) as [Hd|Hnd];
    [exact Hd | apply lookup_insert_eq].
Qed.

Lemma step_resolves_done (cfg : config) (st st' : state) (ev : event)
    (r : result) :
  step cfg st ev = Some st' -> main st = AwaitStatus ->
  main st' = Resolved r ->
  exists p, OnServerStage "DONE" p ∈ trace st'.
Proof.
  intros Hstep Hmain Hres.
  assert (Hput : forall w rr, frame st (snd rr) ->
                   main (put_worker w rr) = AwaitStatus).
  { intros w rr (Hm & _). unfold put_worker, promise_all.
    cbn [main set_workers]. rewrite Hm, Hmain. cbn [main set_workers].
    now rewrite Hm. }
  destruct ev as [|r0|w r0|w|w|r0|r0|]; simpl in Hstep.
  - injection Hstep as <-. simpl in Hres. congruence.
  - rewrite Hmain in Hstep. discriminate.
  - destruct (workers st !! w) as [[i t [|]| | |]|]; try discriminate.
    injection Hstep as <-.
    rewrite (Hput w _ (frame_on_segment cfg st i t r0)) in Hres.
    discriminate.
  - destruct (workers st !! w) as [[i t [|]| | |]|]; try discriminate.
    injection Hstep as <-.
    rewrite (Hput w _ (frame_attempt_failed st i t AbortError)) in Hres.
    discriminate.
  - destruct (workers st !! w) as [[|i t| |]|]; try discriminate.
    injection Hstep as <-.
    rewrite (Hput w _ (frame_on_retry cfg st i t)) in Hres.
    discriminate.
  - rewrite Hmain in Hstep. discriminate.
  - rewrite Hmain in Hstep. injection Hstep as <-.
    unfold on_status in *. destruct r0 as [status body|]; [|discriminate].
    destruct (bool_decide_reflect (stage body = "DONE")) as [Hd|Hnd].
    + exists (progress_of body). simpl. rewrite <- Hd.
      rewrite <- app_assoc. apply elem_of_app. right. left.
    + destruct (bool_decide (stage body = "FAILED")
                || bool_decide (stage body = "UNKNOWN")); discriminate.
  - rewrite Hmain in Hstep. discriminate.
Qed.

Lemma resolved_after_done (cfg : config) (st : state) (r : result) :
  reachable cfg st -> main st = Resolved r -> res_uploadId r <> None ->
  exists p, OnServerStage "DONE" p ∈ trace st.
Proof.
  intros [evs Hrun]. revert r.
  apply (run_preserves cfg
           (fun s => forall r, main s = Resolved r ->
                       res_uploadId r <> None ->
                       exists p, OnServerStage "DONE" p ∈ trace s)
           ) with (evs := evs) (st := startIngestion cfg); [| |exact Hrun].
  - intros s ev s' IH Hstep r Hres Hid.
    destruct (step_keeps_facts cfg s s' ev Hstep)
      as (_ & _ & _ & Hr & es & Htr & _).
    destruct (Hr r Hres) as [Hold|[[Hm _]|[_ Hn]]].
    + destruct (IH r Hold Hid) as [p Hp]. exists p. rewrite Htr.
      apply elem_of_app. now left.
    + eapply step_resolves_done; eassumption.
    + contradiction.
  - intros r Hres Hid. revert Hres Hid. unfold startIngestion.
    set (st0 := {| aborted := false; queue := []; uploaded := 0;
                   uploadId := ""; workers := []; main := AwaitInit;
                   trace := [] |}).
    assert (Hup : forall u, main (if bool_decide (u = "")
                                  then emit [ReqInit (total cfg)] st0
                                  else upload_phase cfg (set_uploadId u st0))
                            <> Resolved r).
    { intros u. destruct (bool_decide (u = "")); [discriminate|].
      apply upload_phase_started. }
    destruct (preflightResult cfg) as [[oid url raw|oid [u|]]|].
    + destruct url as [u|]; [destruct (bool_decide (u = ""))|];
        simpl; intros [= <-]; simpl; congruence.
    + intros Hres. now apply Hup in Hres.
    + intros Hres. now apply Hup in Hres.
    + intros Hres. now apply Hup in Hres.
Qed.

(** X18: When the upload's promise resolves after polling, the stages it
    forwarded have marked the task's course DONE in the registry (the
    task list being the same throughout): its button reads "洞悉完成"
    and a click no longer opens the panel. *)
Theorem upload_done_marks_course (cfg : config) (st : state) (r : result)
    (tasks : list Snackbar.DownloadTask) (index : nat)
    (task : Snackbar.DownloadTask) (stages : gmap string string) :
  reachable cfg st -> main st = Resolved r -> res_uploadId r <> None ->
  tasks !! index = Some task -> Snackbar.courseTitle task <> "" ->
  registry_after tasks index stages (trace st) !! Snackbar.courseTitle task
  = Some "DONE"
  /\ button_text
       (button_stage (registry_after tasks index stages (trace st))
          (Snackbar.courseTitle task)) = "洞悉完成"
  /\ opens_panel (registry_after tasks index stages (trace st))
       (Snackbar.courseTitle task) = false.
Proof.
  intros Hreach Hres Hid Hlk Hne.
  destruct (resolved_after_done cfg st r Hreach Hres Hid) as [p Hp].
  assert (Hd : registry_after tasks index stages (trace st)
                 !! Snackbar.courseTitle task = Some "DONE").
  { unfold registry_after. eapply foldl_reaches_done; [exact Hlk|exact Hne|].
    apply list_elem_of_In, in_flat_map. exists (OnServerStage "DONE" p).
    split; [now apply list_elem_of_In | now left]. }
  split; [exact Hd|].
  unfold opens_panel, button_text, isDone, button_stage.
  rewrite (bool_decide_false _ Hne), Hd.
  split; vm_compute; reflexivity.
Qed.

Lemma upload_done_marks_course_witness :
  reachable Examples.cfg1
    (Examples.after Examples.cfg1 (Examples.uploaded1 ++ Examples.done_late))
  /\ registry_after [lecture] 0 ∅
       (trace (Examples.after Examples.cfg1
                 (Examples.uploaded1 ++ Examples.done_late)))
       !! "Lecture 1" = Some "DONE".
Proof.
  assert (Hr : reachable Examples.cfg1
                 (Examples.after Examples.cfg1
                    (Examples.uploaded1 ++ Examples.done_late))).
  { exists (Examples.uploaded1 ++ Examples.done_late).
    vm_compute. reflexivity. }
  assert (Hm : main (Examples.after Examples.cfg1
                       (Examples.uploaded1 ++ Examples.done_late))
               = Resolved
                   {| res_uploadId := Some "u1";
                      res_downloadUrl :=
                        Some ("http://127.0.0.1:5000"
                                +:+ "/api/download/0123456789abcdef") |}).
  { vm_compute. reflexivity. }
  split; [exact Hr|].
  refine (proj1 (upload_done_marks_course Examples.cfg1 _ _ [lecture] 0
                   lecture ∅ Hr Hm _ eq_refl _)).
  - discriminate.
  - discriminate.
Defined.

End TasksFacts.

(** ** Subtitles *)

Section SubtitleFacts.

Import Subtitles.

Local Open Scope N_scope.

Lemma split_lines_cons (s : jsstring) :
  exists l ls, split_lines s = l :: ls.
Proof.
  induction s as [|c s (l & ls & IH)]; simpl; [eauto|].
  destruct (c =? 10); [eauto|].
  destruct ((c =? 13) && bool_decide (head s = Some 10)); [eauto|].
  rewrite IH. eauto.
Qed.

Lemma split_lines_plain (c : N) (s : jsstring) (l : jsstring)
    (ls : list jsstring) :
  c <> 10 -> (c = 13 -> head s <> Some 10) ->
  split_lines s = l :: ls ->
  split_lines (c :: s) = (c :: l) :: ls.
Proof.
  intros Hc Hr Hs. simpl. rewrite Hs.
  destruct (N.eqb_spec c 10) as [|_]; [contradiction|].
  destruct (N.eqb_spec c 13) as [Hc13|_]; [|reflexivity].
  now rewrite (bool_decide_false _ (Hr Hc13)).
Qed.

Lemma split_lines_single (l : jsstring) :
  10 ∉ l -> split_lines l = [l].
Proof.
  induction l as [|c l IH]; intros Hl; [reflexivity|].
  apply not_elem_of_cons in Hl as [Hc Hl].
  apply split_lines_plain; [congruence| |now apply IH].
  intros _ Hh. destruct l as [|d l]; [discriminate|].
  injection Hh as ->. apply Hl. left.
Qed.

Lemma split_lines_lf (l s : jsstring) :
  10 ∉ l -> last l <> Some 13 ->
  split_lines (l ++ 10 :: s) = l :: split_lines s.
Proof.
  induction l as [|c l IH]; intros Hl Hlast; [reflexivity|].
  apply not_elem_of_cons in Hl as [Hc Hl].
  change ((c :: l) ++ 10 :: s) with (c :: (l ++ 10 :: s)).
  apply split_lines_plain; [congruence| |].
  - intros -> Hh. destruct l as [|d l]; [now apply Hlast|].
    injection Hh as ->. apply Hl. left.
  - apply IH; [exact Hl|]. destruct l as [|d l]; [discriminate|].
    exact Hlast.
Qed.

Lemma split_lines_crlf (l s : jsstring) :
  10 ∉ l -> split_lines (l ++ 13 :: 10 :: s) = l :: split_lines s.
Proof.
  induction l as [|c l IH]; intros Hl; [reflexivity|].
  apply not_elem_of_cons in Hl as [Hc Hl].
  change ((c :: l) ++ 13 :: 10 :: s) with (c :: (l ++ 13 :: 10 :: s)).
  apply split_lines_plain; [congruence| |now apply IH].
  intros _ Hh. destruct l as [|d l]; [discriminate|].
  injection Hh as ->. apply Hl. left.
Qed.

(** X19: Line feeds and CR LF pairs split a text into the same lines: a text
    put together from lines that hold no line feed is split into these
    lines again, whichever of the two line ends it uses (with bare line
    feeds, as long as no line ends in a carriage return). *)
Theorem split_lines_join (lines : list jsstring) :
  lines <> [] -> Forall (fun l => 10 ∉ l) lines ->
  split_lines (join [13; 10] lines) = lines
  /\ (Forall (fun l => last l <> Some 13) lines ->
      split_lines (join [10] lines) = lines).
Proof.
  intros Hne Hlf. split.
  - induction Hlf as [|l ls Hl Hls IH]; [contradiction|].
    destruct ls as [|l' ls]; [now apply split_lines_single|].
    change (join [13; 10] (l :: l' :: ls))
      with (l ++ 13 :: 10 :: join [13; 10] (l' :: ls)).
    rewrite split_lines_crlf by exact Hl. now rewrite IH.
  - intros Hcr. induction Hlf as [|l ls Hl Hls IH]; [contradiction|].
    apply Forall_cons in Hcr as [Hcl Hcr].
    destruct ls as [|l' ls]; [now apply split_lines_single|].
    change (join [10] (l :: l' :: ls))
      with (l ++ 10 :: join [10] (l' :: ls)).
    rewrite split_lines_lf by assumption. now rewrite IH.
Qed.

Lemma split_lines_join_witness :
  split_lines (js "1" ++ [13; 10] ++ js "a" ++ [13; 10])
  = [js "1"; js "a"; []].
Proof.
  refine (proj1 (split_lines_join [js "1"; js "a"; []] _ _)).
  - discriminate.
  - repeat constructor; vm_compute; intros H; not_in_list H.
Defined.

Lemma digits_sound (n : nat) (s ds rest : jsstring) :
  digits n s = Some (ds, rest) ->
  s = ds ++ rest /\ length ds = n /\ forallb is_digit ds = true.
Proof.
  revert s ds rest. induction n as [|n IH]; intros s ds rest H; simpl in H.
  - now injection H as <- <-.
  - destruct s as [|c s]; [discriminate|].
    destruct (is_digit c) eqn:Hc; [|discriminate].
    destruct (digits n s) as [[ds' rest']|] eqn:E; [|discriminate].
    injection H as <- <-. destruct (IH _ _ _ E) as (-> & <- & Hd).
    simpl. now rewrite Hc, Hd.
Qed.

Lemma digits_complete (ds rest : jsstring) :
  forallb is_digit ds = true -> digits (length ds) (ds ++ rest) = Some (ds, rest).
Proof.
  induction ds as [|c ds IH]; simpl; [reflexivity|].
  intros [Hc Hds]%andb_prop. now rewrite Hc, (IH Hds).
Qed.

Lemma literal_prefix (pat s rest : jsstring) :
  literal pat s = Some rest -> s = pat ++ rest.
Proof.
  revert s. induction pat as [|p pat IH]; intros s H; simpl in H.
  - now injection H as ->.
  - destruct s as [|c s]; [discriminate|].
    destruct (N.eqb_spec c p) as [->|]; [|discriminate].
    simpl. now rewrite (IH _ H).
Qed.

Lemma literal_here (pat rest : jsstring) :
  literal pat (pat ++ rest) = Some rest.
Proof.
  induction pat as [|p pat IH]; simpl; [reflexivity|].
  now rewrite N.eqb_refl.
Qed.

Lemma skip_spaces_sound (s : jsstring) :
  exists ws, s = ws ++ skip_spaces s /\ forallb is_space ws = true.
Proof.
  induction s as [|c s (ws & IH & Hws)]; simpl.
  - now exists [].
  - destruct (is_space c) eqn:Hc.
    + exists (c :: ws). simpl. rewrite Hc, Hws. split; [|reflexivity].
      now rewrite <- IH.
    + now exists [].
Qed.

Lemma skip_spaces_app (s r : jsstring) :
  skip_spaces (s ++ r)
  = match skip_spaces s with
    | [] => skip_spaces r
    | _ => skip_spaces s ++ r
    end.
Proof.
  induction s as [|c s IH]; simpl; [now destruct (skip_spaces r)|].
  now destruct (is_space c).
Qed.

Lemma skip_spaces_all (ws : jsstring) :
  forallb is_space ws = true -> skip_spaces ws = [].
Proof.
  induction ws as [|c ws IH]; simpl; [reflexivity|].
  intros [Hc Hws]%andb_prop. rewrite Hc. now apply IH.
Qed.

Lemma skip_spaces_idem (s : jsstring) :
  skip_spaces (skip_spaces s) = skip_spaces s.
Proof.
  induction s as [|c s IH]; simpl; [reflexivity|].
  destruct (is_space c) eqn:Hc; [exact IH|]. simpl. now rewrite Hc.
Qed.

Lemma number_two (d1 d2 : N) :
  is_digit d1 = true -> is_digit d2 = true -> number [d1; d2] < 100.
Proof.
  unfold is_digit, number.
  intros [A1 B1]%andb_prop [A2 B2]%andb_prop.
  apply N.leb_le in A1, B1, A2, B2. cbn [fold_left]. lia.
Qed.

Lemma number_three (d1 d2 d3 : N) :
  is_digit d1 = true -> is_digit d2 = true -> is_digit d3 = true ->
  number [d1; d2; d3] < 1000.
Proof.
  unfold is_digit, number.
  intros [A1 B1]%andb_prop [A2 B2]%andb_prop [A3 B3]%andb_prop.
  apply N.leb_le in A1, B1, A2, B2, A3, B3. cbn [fold_left]. lia.
Qed.

Lemma digits_two (s ds rest : jsstring) :
  digits 2 s = Some (ds, rest) ->
  s = ds ++ rest /\ length ds = 2%nat /\ forallb is_digit ds = true
  /\ number ds < 100.
Proof.
  intros H. destruct (digits_sound _ _ _ _ H) as (Hs & Hl & Hd).
  split_and!; auto.
  destruct ds as [|d1 [|d2 [|]]]; try discriminate.
  simpl in Hd. apply andb_prop in Hd as [H1 [H2 _]%andb_prop].
  now apply number_two.
Qed.

Lemma digits_three (s ds rest : jsstring) :
  digits 3 s = Some (ds, rest) ->
  s = ds ++ rest /\ length ds = 3%nat /\ forallb is_digit ds = true
  /\ number ds < 1000.
Proof.
  intros H. destruct (digits_sound _ _ _ _ H) as (Hs & Hl & Hd).
  split_and!; auto.
  destruct ds as [|d1 [|d2 [|d3 [|]]]]; try discriminate.
  simpl in Hd.
  apply andb_prop in Hd as [H1 [H2 [H3 _]%andb_prop]%andb_prop].
  now apply number_three.
Qed.

Lemma stamp_at_sound (s rest : jsstring) (a : stamp) :
  stamp_at s = Some (a, rest) ->
  exists ta, s = ta ++ rest /\ length ta = 12%nat
             /\ (forall r, stamp_at (ta ++ r) = Some (a, r))
             /\ hours a < 100 /\ minutes a < 100 /\ seconds a < 100
             /\ millis a < 1000.
Proof.
  unfold stamp_at. intros H.
  destruct (digits 2 s) as [[h s1]|] eqn:E1; [|discriminate].
  destruct (literal [58] s1) as [s2|] eqn:E2; [|discriminate].
  destruct (digits 2 s2) as [[m s3]|] eqn:E3; [|discriminate].
  destruct (literal [58] s3) as [s4|] eqn:E4; [|discriminate].
  destruct (digits 2 s4) as [[sec s5]|] eqn:E5; [|discriminate].
  destruct (literal [44] s5) as [s6|] eqn:E6; [|discriminate].
  destruct (digits 3 s6) as [[ms s7]|] eqn:E7; [|discriminate].
  injection H as <- <-.
  apply digits_two in E1 as (-> & L1 & D1 & B1).
  apply literal_prefix in E2 as ->.
  apply digits_two in E3 as (-> & L3 & D3 & B3).
  apply literal_prefix in E4 as ->.
  apply digits_two in E5 as (-> & L5 & D5 & B5).
  apply literal_prefix in E6 as ->.
  apply digits_three in E7 as (-> & L7 & D7 & B7).
  exists (h ++ [58] ++ m ++ [58] ++ sec ++ [44] ++ ms).
  split_and!; auto.
  - now rewrite <- !app_assoc.
  - rewrite !length_app. simpl. lia.
  - intros r. rewrite <- !app_assoc.
    rewrite <- L1 at 1. rewrite (digits_complete h _ D1).
    rewrite (literal_here [58]).
    rewrite <- L3 at 1. rewrite (digits_complete m _ D3).
    rewrite (literal_here [58]).
    rewrite <- L5 at 1. rewrite (digits_complete sec _ D5).
    rewrite (literal_here [44]).
    rewrite <- L7 at 1. now rewrite (digits_complete ms _ D7).
Qed.

Lemma time_at_sound (s : jsstring) (a b : stamp) :
  time_at s = Some (a, b) ->
  exists ta ws1 ws2 tb post,
    s = ta ++ ws1 ++ js "-->" ++ ws2 ++ tb ++ post
    /\ stamp_at ta = Some (a, []) /\ stamp_at tb = Some (b, [])
    /\ forallb is_space ws1 = true /\ forallb is_space ws2 = true
    /\ (hours a < 100 /\ minutes a < 100 /\ seconds a < 100
        /\ millis a < 1000)
    /\ (hours b < 100 /\ minutes b < 100 /\ seconds b < 100
        /\ millis b < 1000).
Proof.
  unfold time_at. intros H.
  destruct (stamp_at s) as [[a' s1]|] eqn:E1; [|discriminate].
  destruct (literal [45; 45; 62] (skip_spaces s1)) as [s2|] eqn:E2;
    [|discriminate].
  destruct (stamp_at (skip_spaces s2)) as [[b' s3]|] eqn:E3; [|discriminate].
  injection H as -> ->.
  apply stamp_at_sound in E1 as (ta & -> & _ & Ha & ? & ? & ? & ?).
  apply stamp_at_sound in E3 as (tb & Hs2 & _ & Hb & ? & ? & ? & ?).
  apply literal_prefix in E2.
  destruct (skip_spaces_sound s1) as (ws1 & Hs1 & W1).
  destruct (skip_spaces_sound s2) as (ws2 & Hs2' & W2).
  exists ta, ws1, ws2, tb, s3. split_and!; auto.
  - rewrite Hs1, E2, Hs2', Hs2. change (js "-->") with [45; 45; 62].
    now rewrite <- ?app_assoc.
  - rewrite <- (app_nil_r ta). apply Ha.
  - rewrite <- (app_nil_r tb). apply Hb.
Qed.

(** X20: The time line that [parseSRT] accepts holds, somewhere in it, two
    times [dd:dd:dd,ddd] with [-->] between them, white space allowed on
    either side of the arrow; what stands before and after is ignored, and
    the fields are not checked: minutes and seconds may be as large as
    99. *)
Theorem find_time_sound (line : jsstring) (a b : stamp) :
  find_time line = Some (a, b) ->
  exists pre ta ws1 ws2 tb post,
    line = pre ++ ta ++ ws1 ++ js "-->" ++ ws2 ++ tb ++ post
    /\ stamp_at ta = Some (a, []) /\ stamp_at tb = Some (b, [])
    /\ forallb is_space ws1 = true /\ forallb is_space ws2 = true
    /\ (hours a < 100 /\ minutes a < 100 /\ seconds a < 100
        /\ millis a < 1000)
    /\ (hours b < 100 /\ minutes b < 100 /\ seconds b < 100
        /\ millis b < 1000).
Proof.
  induction line as [|c line IH]; intros H.
  - vm_compute in H. discriminate.
  - cbn [find_time] in H.
    destruct (time_at (c :: line)) as [[a' b']|] eqn:E.
    + injection H as -> ->.
      destruct (time_at_sound _ _ _ E)
        as (ta & ws1 & ws2 & tb & post & Hs & H').
      exists [], ta, ws1, ws2, tb, post. now split.
    + destruct (IH H) as (pre & ta & ws1 & ws2 & tb & post & -> & H').
      exists (c :: pre), ta, ws1, ws2, tb, post. now split.
Qed.

Lemma find_time_sound_witness :
  find_time (js "00:01:75,250 --> 00:02:03,000 X1:1")
  = Some ({| hours := 0; minutes := 1; seconds := 75; millis := 250 |},
          {| hours := 0; minutes := 2; seconds := 3; millis := 0 |})
  /\ seconds {| hours := 0; minutes := 1; seconds := 75; millis := 250 |}
     < 100.
Proof.
  assert (H : find_time (js "00:01:75,250 --> 00:02:03,000 X1:1")
              = Some ({| hours := 0; minutes := 1; seconds := 75;
                         millis := 250 |},
                      {| hours := 0; minutes := 2; seconds := 3;
                         millis := 0 |}))
    by (vm_compute; reflexivity).
  split; [exact H|].
  destruct (find_time_sound _ _ _ H)
    as (pre & ta & ws1 & ws2 & tb & post & _ & _ & _ & _ & _ & Ba & _).
  apply Ba.
Defined.

Lemma digit_not_space (c : N) : is_digit c = true -> is_space c = false.
Proof.
  unfold is_digit, is_space. intros [A B]%andb_prop.
  apply N.leb_le in A, B.
  repeat apply orb_false_intro; try (apply N.eqb_neq; lia);
    apply andb_false_iff;
    first [left; apply N.leb_gt; lia | right; apply N.leb_gt; lia].
Qed.

Lemma stamp_at_head (s : jsstring) (r : stamp * jsstring) :
  stamp_at s = Some r -> skip_spaces s = s.
Proof.
  unfold stamp_at. destruct s as [|c s]; [discriminate|]. simpl.
  destruct (is_digit c) eqn:Hc; [|discriminate].
  now rewrite (digit_not_space c Hc).
Qed.

Lemma find_time_here (s : jsstring) (r : stamp * stamp) :
  time_at s = Some r -> find_time s = Some r.
Proof. intros H. destruct s; cbn [find_time]; now rewrite H. Qed.

Lemma find_time_later (pre s : jsstring) :
  is_Some (time_at s) -> is_Some (find_time (pre ++ s)).
Proof.
  intros [r Hr]. induction pre as [|c pre IH].
  - exists r. now apply find_time_here.
  - change ((c :: pre) ++ s) with (c :: (pre ++ s)). cbn [find_time].
    destruct (time_at (c :: pre ++ s)); [done | exact IH].
Qed.

(** X21: A line that starts with a time [dd:dd:dd,ddd], an arrow and a second
    time, with any white space (or none) around the arrow, gives these two
    times whatever follows them; with something before it the line still
    gives a pair of times. *)
Theorem time_line_matches (pre ta ws1 ws2 tb post : jsstring)
    (a b : stamp) :
  stamp_at ta = Some (a, []) -> stamp_at tb = Some (b, []) ->
  forallb is_space ws1 = true -> forallb is_space ws2 = true ->
  find_time (ta ++ ws1 ++ js "-->" ++ ws2 ++ tb ++ post) = Some (a, b)
  /\ is_Some (find_time (pre ++ ta ++ ws1 ++ js "-->" ++ ws2 ++ tb ++ post)).
Proof.
  intros Ha Hb W1 W2.
  assert (Ht : time_at (ta ++ ws1 ++ js "-->" ++ ws2 ++ tb ++ post)
               = Some (a, b)).
  { pose proof (stamp_at_head _ _ Hb) as Hhead.
    apply stamp_at_sound in Ha as (ta' & Hta & _ & Ha & _).
    apply stamp_at_sound in Hb as (tb' & Htb & _ & Hb & _).
    rewrite app_nil_r in Hta, Htb. subst ta' tb'.
    unfold time_at. rewrite Ha.
    rewrite skip_spaces_app, (skip_spaces_all ws1 W1).
    change (skip_spaces (js "-->" ++ ws2 ++ tb ++ post))
      with ([45; 45; 62] ++ ws2 ++ tb ++ post).
    rewrite literal_here.
    rewrite skip_spaces_app, (skip_spaces_all ws2 W2).
    rewrite skip_spaces_app, Hhead.
    destruct tb as [|d tb]; [specialize (Hb []); discriminate|].
    now rewrite Hb. }
  split; [now apply find_time_here|].
  apply find_time_later. now rewrite Ht.
Qed.

Lemma time_line_matches_witness :
  find_time (js "01:02:03,004" ++ [] ++ js "-->" ++ js "  "
               ++ js "01:02:05,000" ++ js " position: 50%")
  = Some ({| hours := 1; minutes := 2; seconds := 3; millis := 4 |},
          {| hours := 1; minutes := 2; seconds := 5; millis := 0 |}).
Proof.
  refine (proj1 (time_line_matches [] (js "01:02:03,004") [] (js "  ")
                   (js "01:02:05,000") (js " position: 50%") _ _ _ _ _ _)).
  - vm_compute. reflexivity.
  - vm_compute. reflexivity.
  - reflexivity.
  - vm_compute. reflexivity.
Defined.

Lemma take_text_length (lines : list jsstring) :
  (length (snd (take_text lines)) <= length lines)%nat.
Proof.
  induction lines as [|l lines IH]; simpl; [lia|].
  destruct (is_blank l); simpl; [lia|].
  destruct (take_text lines) as [text after]. simpl in *. lia.
Qed.

Lemma take_text_suffix (lines : list jsstring) :
  exists skipped, lines = skipped ++ snd (take_text lines).
Proof.
  induction lines as [|l lines (sk & IH)]; simpl; [now exists []|].
  destruct (is_blank l); simpl; [now exists []|].
  destruct (take_text lines) as [text after]. simpl in *.
  exists (l :: sk). simpl. now rewrite <- IH.
Qed.

Lemma parse_fuel (fuel fuel' : nat) (lines : list jsstring) :
  (length lines <= fuel)%nat -> (length lines <= fuel')%nat ->
  parse fuel lines = parse fuel' lines.
Proof.
  revert fuel' lines. induction fuel as [|fuel IH]; intros fuel' lines H H'.
  - destruct lines; [|simpl in H; lia]. now destruct fuel'.
  - destruct lines as [|l rest]; [now destruct fuel'|].
    destruct fuel' as [|fuel']; [simpl in H'; lia|].
    simpl in H, H'. cbn [parse].
    destruct (is_index l); [|apply IH; lia].
    destruct rest as [|tm rest']; [reflexivity|]. simpl in H, H'.
    destruct (find_time tm) as [[a b]|]; [|apply IH; lia].
    pose proof (take_text_length rest') as Hlen.
    destruct (take_text rest') as [text after]. simpl in Hlen.
    f_equal. apply IH; destruct after; simpl in *; lia.
Qed.

Lemma parse_enough (fuel : nat) (lines : list jsstring) :
  (length lines <= fuel)%nat -> parse fuel lines = parse_lines lines.
Proof. intros H. now apply parse_fuel. Qed.

Lemma trim_spaces_end (s ws : jsstring) :
  forallb is_space ws = true -> trim (s ++ ws) = trim s.
Proof.
  intros W. unfold trim. rewrite skip_spaces_app.
  destruct (skip_spaces s) as [|c u] eqn:E.
  - now rewrite (skip_spaces_all ws W).
  - rewrite rev_app_distr, skip_spaces_app.
    rewrite skip_spaces_all; [reflexivity|].
    rewrite forallb_forall in *. intros x Hx. apply W.
    now apply in_rev.
Qed.

Lemma take_text_block (txt : list jsstring) :
  Forall (fun l => is_blank l = false) txt ->
  (forall sep rest, is_blank sep = true ->
     take_text (txt ++ sep :: rest)
     = (flat_map (fun l => l ++ [10]) txt, sep :: rest))
  /\ take_text txt = (flat_map (fun l => l ++ [10]) txt, []).
Proof.
  induction 1 as [|l txt Hl Htxt [IH1 IH2]]; split.
  - intros sep rest Hsep. simpl. now rewrite Hsep.
  - reflexivity.
  - intros sep rest Hsep. simpl. rewrite Hl, (IH1 sep rest Hsep).
    now rewrite <- app_assoc.
  - simpl. rewrite Hl, IH2. now rewrite <- app_assoc.
Qed.

Lemma trim_text (txt : list jsstring) :
  trim (flat_map (fun l => l ++ [10]) txt) = trim (join [10] txt).
Proof.
  assert (H : txt <> [] ->
              flat_map (fun l => l ++ [10]) txt = join [10] txt ++ [10]).
  { induction txt as [|l txt IH]; [contradiction|]. intros _.
    destruct txt as [|l' txt]; [simpl; now rewrite app_nil_r|].
    change (flat_map (fun l => l ++ [10]) (l :: l' :: txt))
      with ((l ++ [10]) ++ flat_map (fun l => l ++ [10]) (l' :: txt)).
    rewrite IH by discriminate.
    change (join [10] (l :: l' :: txt))
      with (l ++ [10] ++ join [10] (l' :: txt)).
    now rewrite <- !app_assoc. }
  destruct txt as [|l txt]; [reflexivity|].
  rewrite H by discriminate. now apply trim_spaces_end.
Qed.

Lemma parse_entry (fuel : nat) (idx tm : jsstring) (rest : list jsstring)
    (a b : stamp) :
  is_index idx = true -> find_time tm = Some (a, b) ->
  parse (S fuel) (idx :: tm :: rest)
  = {| sub_start := a; sub_end := b;
       sub_text := trim (fst (take_text rest)) |}
      :: parse fuel (tail (snd (take_text rest))).
Proof.
  intros Hidx Htm. cbn [parse]. rewrite Hidx, Htm.
  now destruct (take_text rest).
Qed.

(** X22: An entry of the file is parsed on its own: a number line, a time
    line and the text lines up to the next blank line (or the end of the
    file) give one entry with the times of the time line and the text
    lines joined by line feeds and trimmed; parsing goes on after the
    blank line. *)
Theorem parse_block (idx tm sep : jsstring) (txt rest : list jsstring)
    (a b : stamp) :
  is_index idx = true -> find_time tm = Some (a, b) ->
  Forall (fun l => is_blank l = false) txt -> is_blank sep = true ->
  parse_lines (idx :: tm :: txt ++ sep :: rest)
  = {| sub_start := a; sub_end := b; sub_text := trim (join [10] txt) |}
      :: parse_lines rest
  /\ parse_lines (idx :: tm :: txt)
     = [{| sub_start := a; sub_end := b;
           sub_text := trim (join [10] txt) |}].
Proof.
  intros Hidx Htm Htxt Hsep.
  destruct (take_text_block txt Htxt) as [H1 H2].
  unfold parse_lines at 1 3.
  change (length (idx :: tm :: txt ++ sep :: rest))
    with (S (S (length (txt ++ sep :: rest)))).
  change (length (idx :: tm :: txt)) with (S (S (length txt))).
  rewrite !(parse_entry _ idx tm _ a b Hidx Htm).
  rewrite (H1 sep rest Hsep), H2. cbn [fst snd tail].
  rewrite trim_text. split.
  - f_equal. apply parse_enough. rewrite length_app. simpl. lia.
  - f_equal; try now destruct txt.
Qed.

Lemma parse_block_witness :
  parse_lines [js "1"; js "00:00:01,000 --> 00:00:02,500";
               js "hello"; js " world "; js " "; js "junk"]
  = [{| sub_start := {| hours := 0; minutes := 0; seconds := 1;
                        millis := 0 |};
        sub_end := {| hours := 0; minutes := 0; seconds := 2;
                      millis := 500 |};
        sub_text := js "hello" ++ [10] ++ js " world" |}].
Proof.
  refine (eq_trans
            (proj1 (parse_block (js "1") (js "00:00:01,000 --> 00:00:02,500")
                      (js " ") [js "hello"; js " world "] [js "junk"]
                      {| hours := 0; minutes := 0; seconds := 1;
                         millis := 0 |}
                      {| hours := 0; minutes := 0; seconds := 2;
                         millis := 500 |} _ _ _ _)) _).
  - reflexivity.
  - vm_compute. reflexivity.
  - repeat constructor.
  - reflexivity.
  - vm_compute. reflexivity.
Defined.

Lemma skip_spaces_head (c : N) (s : jsstring) :
  is_space c = false -> skip_spaces (c :: s) = c :: s.
Proof. intros Hc. simpl. now rewrite Hc. Qed.

Lemma skip_spaces_cases (s : jsstring) :
  skip_spaces s = []
  \/ exists c u, skip_spaces s = c :: u /\ is_space c = false.
Proof.
  induction s as [|c s IH]; simpl; [now left|].
  destruct (is_space c) eqn:Hc; [exact IH|]. right. eauto.
Qed.

Lemma trim_idem (s : jsstring) : trim (trim s) = trim s.
Proof.
  unfold trim. destruct (skip_spaces_cases s) as [->|(c & u & -> & Hc)];
    [reflexivity|].
  change (rev (c :: u)) with (rev u ++ [c]).
  assert (Hv : exists v, skip_spaces (rev u ++ [c]) = v ++ [c]).
  { rewrite skip_spaces_app. destruct (skip_spaces (rev u)) as [|d w] eqn:E.
    - exists []. now apply skip_spaces_head.
    - now exists (d :: w). }
  destruct Hv as [v Hv].
  assert (Hvv : skip_spaces (v ++ [c]) = v ++ [c]).
  { rewrite <- Hv. apply skip_spaces_idem. }
  rewrite Hv, rev_app_distr. change (rev [c] ++ rev v) with (c :: rev v).
  rewrite (skip_spaces_head c _ Hc).
  change (rev (c :: rev v)) with (rev (rev v) ++ [c]).
  now rewrite rev_involutive, Hvv, rev_app_distr.
Qed.

Lemma omap_find_time_cons (l : jsstring) (lines : list jsstring) :
  omap find_time lines `sublist_of` omap find_time (l :: lines).
Proof.
  simpl. destruct (find_time l); [now apply sublist_cons | reflexivity].
Qed.

Lemma omap_find_time_tail (lines : list jsstring) :
  omap find_time (tail (snd (take_text lines)))
    `sublist_of` omap find_time lines.
Proof.
  destruct (take_text_suffix lines) as [sk Hsk].
  rewrite Hsk at 2. rewrite omap_app. apply sublist_inserts_l.
  destruct (snd (take_text lines)) as [|x after]; [reflexivity|].
  apply omap_find_time_cons.
Qed.

Lemma count_index_tail (lines : list jsstring) :
  (length (List.filter is_index (tail (snd (take_text lines))))
   <= length (List.filter is_index lines))%nat.
Proof.
  destruct (take_text_suffix lines) as [sk Hsk].
  rewrite Hsk at 2. rewrite List.filter_app, length_app.
  destruct (snd (take_text lines)) as [|x after]; simpl; [lia|].
  destruct (is_index x); simpl; lia.
Qed.

Lemma parse_facts (fuel : nat) (lines : list jsstring) :
  map times (parse fuel lines) `sublist_of` omap find_time lines
  /\ Forall (fun s => trim (sub_text s) = sub_text s) (parse fuel lines)
  /\ (length (parse fuel lines)
      <= length (List.filter is_index lines))%nat.
Proof.
  revert lines. induction fuel as [|fuel IH]; intros lines.
  { simpl. split_and!; [apply sublist_nil_l | constructor | lia]. }
  destruct lines as [|l rest].
  { simpl. split_and!; [apply sublist_nil_l | constructor | lia]. }
  destruct (is_index l) eqn:Hidx.
  - destruct rest as [|tm rest'].
    { cbn [parse]. rewrite Hidx.
      split_and!; [apply sublist_nil_l | constructor | simpl; lia]. }
    destruct (find_time tm) as [[a b]|] eqn:Htm.
    + rewrite (parse_entry fuel l tm rest' a b Hidx Htm).
      destruct (IH (tail (snd (take_text rest')))) as (I1 & I2 & I3).
      split_and!.
      * etrans; [|apply omap_find_time_cons].
        cbn [omap list_omap map times sub_start sub_end]. rewrite Htm.
        apply sublist_skip. etrans; [exact I1|].
        apply omap_find_time_tail.
      * constructor; [apply trim_idem | exact I2].
      * pose proof (count_index_tail rest') as Hc.
        cbn [List.filter length]. rewrite Hidx. cbn [length].
        destruct (is_index tm); cbn [length]; lia.
    + cbn [parse]. rewrite Hidx, Htm.
      destruct (IH rest') as (I1 & I2 & I3). split_and!.
      * etrans; [exact I1|]. etrans; apply omap_find_time_cons.
      * exact I2.
      * cbn [List.filter length]. rewrite Hidx.
        destruct (is_index tm); cbn [length]; lia.
  - cbn [parse]. rewrite Hidx.
    destruct (IH rest) as (I1 & I2 & I3). split_and!.
    + etrans; [exact I1|]. apply omap_find_time_cons.
    + exact I2.
    + cbn [List.filter]. now rewrite Hidx.
Qed.

(** X23: [parseSRT] invents nothing: the times of its entries are, in the
    order of the file, times of lines that hold a time range; there are
    at most as many entries as number lines; and the text of every entry
    is trimmed. *)
Theorem parseSRT_entries (srtText : jsstring) :
  map times (parseSRT srtText)
    `sublist_of` omap find_time (split_lines srtText)
  /\ Forall (fun s => trim (sub_text s) = sub_text s) (parseSRT srtText)
  /\ (length (parseSRT srtText)
      <= length (List.filter is_index (split_lines srtText)))%nat.
Proof.
  unfold parseSRT, parse_lines.
  destruct (parse_facts (length (split_lines srtText))
              (split_lines srtText)) as (Hsub & Htrim & Hlen).
  split_and!; [exact Hsub | exact Htrim | exact Hlen].
Qed.

End SubtitleFacts.

(** ** The task from its start to the upload *)

Section RunFacts.

Import Snackbar Run.

Lemma find_first {A : Type} (f : A -> bool) (l : list A) (x : A) :
  List.find f l = Some x ->
  exists before after,
    l = before ++ x :: after /\ f x = true
    /\ Forall (fun y => f y = false) before.
Proof.
  induction l as [|y l IH]; simpl; [discriminate|].
  destruct (f y) eqn:Hy.
  - intros [= ->]. exists [], l. auto.
  - intros H. destruct (IH H) as (before & after & -> & Hx & Hb).
    exists (y :: before), after. auto.
Qed.

(** X24: [resolveVideoUrlVGAOnly] either returns a non-empty VGA link and
    sets no state, or throws after exactly one Error{download} state. The
    link is that of the first video of the first session that bears the
    task's title; later sessions of the same title are not looked at. The
    list of sessions is fetched only when none is kept from before. *)
Theorem resolveVideoUrlVGAOnly_outcome
    (cache fetched : option (list CourseVideo)) (task : DownloadTask) :
  match resolveVideoUrlVGAOnly cache fetched task with
  | (shown, kept, Some (url, m)) =>
      shown = [] /\ url <> ""
      /\ exists videos before course after videoDetail,
           kept = Some videos
           /\ (cache = Some videos \/ (cache = None /\ fetched = Some videos))
           /\ videos = before ++ course :: after
           /\ has_title task course
           /\ Forall (fun c => ~ has_title task c) before
           /\ head (cv_videos course) = Some videoDetail
           /\ vd_format videoDetail = "m3u8"
           /\ vd_vga videoDetail = Some url
           /\ m = {| videoId := vd_id videoDetail; sessionId := cv_id course;
                     startedAt := cv_started_at course |}
  | (shown, kept, None) =>
      (exists message, shown = [Error E_download message])
      /\ (cache <> None -> kept = cache)
  end.
Proof.
  unfold resolveVideoUrlVGAOnly.
  assert (Hcase : (exists vs, (cache = Some vs
                               \/ (cache = None /\ fetched = Some vs))
                              /\ match cache with
                                 | Some vs => ([], Some vs)
                                 | None =>
                                     match fetched with
                                     | Some vs => ([], Some vs)
                                     | None =>
                                         ([Error E_download
                                             "获取课程视频地址失败"], None)
                                     end
                                 end = ([] : list TaskSnackbarState, Some vs))
                  \/ (cache = None /\ fetched = None)).
  { destruct cache as [vs|]; [left; exists vs; auto|].
    destruct fetched as [vs|]; [left; exists vs; auto | now right]. }
  destruct Hcase as [(vs & Hvs & ->)|[-> ->]].
  2: { split; [eauto | congruence]. }
  assert (Hkept : cache <> None -> Some vs = cache).
  { destruct Hvs as [->|[-> _]]; congruence. }
  destruct (List.find _ vs) as [course|] eqn:Ef;
    [|split; [eauto | exact Hkept]].
  destruct (head (cv_videos course)) as [vd|] eqn:Eh;
    [|split; [eauto | exact Hkept]].
  destruct (bool_decide_reflect (vd_format vd = "m3u8")) as [Hfmt|Hfmt];
    cbn [negb]; [|split; [eauto | exact Hkept]].
  destruct (vd_vga vd) as [url|] eqn:Ev; [|split; [eauto | exact Hkept]].
  destruct (bool_decide_reflect (url = "")) as [Hu|Hu];
    [split; [eauto | exact Hkept]|].
  split_and!; [reflexivity | exact Hu |].
  destruct (find_first _ _ _ Ef) as (before & after & Hl & Ht & Hb).
  exists vs, before, course, after, vd.
  split_and!; auto.
  - now apply bool_decide_eq_true in Ht.
  - eapply Forall_impl; [exact Hb|]. intros c Hc.
    now apply bool_decide_eq_false in Hc.
Qed.

Lemma last_app_cons {A : Type} (l k : list A) (x : A) :
  last (l ++ k ++ [x]) = Some x.
Proof. rewrite app_assoc. apply last_snoc. Qed.

Lemma run_preflight_last (ep : string)
    (pre : Ingestion.outcome preflight_body) :
  exists s, last (fst (run_preflight ep pre)) = Some s
    /\ match snd (run_preflight ep pre) with
       | Skip => exists link, link <> "" /\ s = Finished link
       | _ => exists label, s = Waiting W_check label
       end.
Proof.
  unfold run_preflight, preflightIngestion.
  destruct pre as [status data|]; [|simpl; eauto].
  destruct (Ingestion.ok status); [|simpl; eauto].
  destruct (pre_exists data); simpl; [|eauto].
  destruct (bool_decide_reflect
              (exists_link
                 (preflight_url (Url.strip_trailing_slash ep)
                    (pre_downloadUrl data))
                 (preflight_url (Url.strip_trailing_slash ep)
                    (pre_rawUrl data)) = "")) as [He|Hne]; simpl; eauto.
Qed.

(** X25: However [run] ends before the upload, the task shows Finished or an
    error, with one exception: when the preflight fails or gives no link,
    the task is left in Waiting{check} without any error. The upload is
    started only for a task with [autoTranscode] whose video link was
    found, that the preflight let pass and whose download came through. *)
Theorem run_outcome (cache fetched : option (list CourseVideo))
    (task : DownloadTask) (pre : Ingestion.outcome preflight_body)
    (d : download) (blobUrl : string) :
  match run cache fetched task pre d blobUrl with
  | (states, Ended) =>
      exists s,
        last states = Some s
        /\ ((exists link, s = Finished link)
            \/ (exists type message, s = Error type message)
            \/ ((exists label, s = Waiting W_check label)
                /\ exists e, snd (run_preflight "http://127.0.0.1:5000" pre)
                             = Throws e))
  | (states, Uploads) =>
      autoTranscode task = true
      /\ snd (resolveVideoUrlVGAOnly cache fetched task) <> None
      /\ snd (run_preflight "http://127.0.0.1:5000" pre) = Proceeds
      /\ snd (startDownloading d) = true
  end.
Proof.
  unfold run.
  pose proof (resolveVideoUrlVGAOnly_outcome cache fetched task) as Hres.
  destruct (resolveVideoUrlVGAOnly cache fetched task)
    as [[shown kept] [[url m]|]].
  - destruct Hres as (-> & _).
    destruct (run_preflight_last "http://127.0.0.1:5000" pre)
      as (s & Hlast & Hs).
    destruct (run_preflight "http://127.0.0.1:5000" pre)
      as [checked br]. simpl in Hlast, Hs.
    destruct br as [|e|].
    + exists s. split; [exact Hlast|].
      destruct Hs as (link & _ & ->). eauto.
    + exists s. split; [exact Hlast|]. do 2 right. eauto.
    + destruct d as [ps|ps|ps]; simpl.
      * destruct (autoTranscode task) eqn:Ha; [auto|].
        eexists. split; [|left; eauto].
        rewrite app_comm_cons. apply last_app_cons.
      * eexists. split; [|right; left; eauto].
        rewrite !app_comm_cons. apply last_app_cons.
      * eexists. split; [|right; left; eauto].
        rewrite !app_comm_cons. apply last_app_cons.
  - destruct Hres as [[message ->] _]. eexists. split; [reflexivity|].
    right. left. eauto.
Qed.

End RunFacts.

(** ** Looking for the players *)

Section PlayerFacts.

Import Players.

Lemma findVideoPlayers_lookups (retries : nat) (pages : list page) :
  (retries <= 10)%nat ->
  (lookups (findVideoPlayers retries pages) <= 11 - retries)%nat
  /\ (Bind ∈ findVideoPlayers retries pages ->
      exists k, (k <= 10 - retries)%nat
                /\ pages !! k = Some Ready
                /\ forall j, (j < k)%nat -> pages !! j = Some NoContainers)
  /\ (GiveUp ∈ findVideoPlayers retries pages ->
      forall j, (j <= 10 - retries)%nat -> pages !! j = Some NoContainers).
Proof.
  revert retries. induction pages as [|p pages IH]; intros retries Hr.
  - simpl. split_and!; [unfold lookups; simpl; lia | |];
      intros H; now apply elem_of_nil in H.
  - destruct p; cbn [findVideoPlayers].
    + destruct (Nat.ltb_spec retries 10) as [Hlt|Hge].
      * destruct (IH (S retries)) as (I1 & I2 & I3); [lia|]. split_and!.
        -- unfold lookups in *. simpl. lia.
        -- intros Hin.
           apply elem_of_cons in Hin as [Hin|Hin]; [discriminate|].
           apply elem_of_cons in Hin as [Hin|Hin]; [discriminate|].
           destruct (I2 Hin) as (k & Hk & Hrdy & Hbefore).
           exists (S k). split_and!; [lia | exact Hrdy |].
           intros [|j] Hj; [reflexivity|]. apply Hbefore. lia.
        -- intros Hin.
           apply elem_of_cons in Hin as [Hin|Hin]; [discriminate|].
           apply elem_of_cons in Hin as [Hin|Hin]; [discriminate|].
           intros [|j] Hj; [reflexivity|]. apply (I3 Hin). lia.
      * split_and!.
        -- unfold lookups. simpl. lia.
        -- intros Hin. exfalso. not_in_list Hin.
        -- intros _ j Hj. assert (j = 0)%nat as -> by lia. reflexivity.
    + split_and!.
      * unfold lookups. simpl. lia.
      * intros Hin. exfalso. not_in_list Hin.
      * intros Hin. exfalso. not_in_list Hin.
    + split_and!.
      * unfold lookups. simpl. lia.
      * intros _. exists 0%nat. split_and!; [lia | reflexivity |].
        intros j Hj. lia.
      * intros Hin. exfalso. not_in_list Hin.
Qed.

Lemma findVideoPlayers_shape (retries : nat) (pages : list page) :
  (retries <= 10)%nat ->
  exists k, (k <= 10 - retries)%nat
    /\ (forall j, (j < k)%nat -> pages !! j = Some NoContainers)
    /\ findVideoPlayers retries pages = retried k ++ ending (pages !! k)
    /\ (pages !! k = Some NoContainers -> k = (10 - retries)%nat).
Proof.
  revert retries. induction pages as [|p pages IH]; intros retries Hr.
  - exists 0%nat. split_and!; [lia | intros j Hj; lia | reflexivity |].
    discriminate.
  - destruct p; cbn [findVideoPlayers].
    + destruct (Nat.ltb_spec retries 10) as [Hlt|Hge].
      * destruct (IH (S retries)) as (k & Hk & Hbefore & Hacts & Hlast);
          [lia|].
        exists (S k). split_and!.
        -- lia.
        -- intros [|j] Hj; [reflexivity|]. apply Hbefore. lia.
        -- rewrite Hacts. reflexivity.
        -- intros Hp. specialize (Hlast Hp). lia.
      * exists 0%nat. split_and!; [lia | intros j Hj; lia | reflexivity |].
        intros _. lia.
    + exists 0%nat. split_and!; [lia | intros j Hj; lia | reflexivity |].
      discriminate.
    + exists 0%nat. split_and!; [lia | intros j Hj; lia | reflexivity |].
      discriminate.
Qed.

Lemma findVideoPlayers_found (retries : nat) (before after : list page)
    (p : page) :
  Forall (fun q => q = NoContainers) before ->
  (retries + length before <= 10)%nat -> p <> NoContainers ->
  findVideoPlayers retries (before ++ p :: after)
  = retried (length before) ++ ending (Some p).
Proof.
  intros Hb. revert retries.
  induction Hb as [|q before -> Hb IH]; intros retries Hr Hp.
  - destruct p; [contradiction | reflexivity | reflexivity].
  - simpl in Hr. cbn [app findVideoPlayers length retried].
    destruct (Nat.ltb_spec retries 10) as [_|Hge]; [|lia].
    rewrite (IH (S retries)) by (auto; lia). reflexivity.
Qed.

Lemma retried_timer (k : nat) (ms : Z) : Retry ms ∈ retried k -> ms = 1000%Z.
Proof.
  induction k as [|k IH]; simpl; intros Hin.
  - now apply elem_of_nil in Hin.
  - apply elem_of_cons in Hin as [Hin|Hin]; [discriminate|].
    apply elem_of_cons in Hin as [Hin|Hin]; [now injection Hin | auto].
Qed.

(** X26: [findVideoPlayers] looks for the players at most eleven times.
    What it does is a number of looks that find no containers, each
    followed by the timer of 1000ms and by nothing else, and then one last
    look: it binds the subtitles when that look finds the page ready,
    stops for good when it finds containers without a video element, and
    gives up when it finds no containers for the eleventh time. After
    containers have been found, with or without video elements, there is
    no further look and no timer. *)
Theorem findVideoPlayers_bounded (pages : list page) :
  (exists k, (k <= 10)%nat
     /\ (forall j, (j < k)%nat -> pages !! j = Some NoContainers)
     /\ findVideoPlayers 0 pages = retried k ++ ending (pages !! k)
     /\ (pages !! k = Some NoContainers -> k = 10%nat))
  /\ (lookups (findVideoPlayers 0 pages) <= 11)%nat
  /\ (forall ms, Retry ms ∈ findVideoPlayers 0 pages -> ms = 1000%Z)
  /\ (Bind ∈ findVideoPlayers 0 pages ->
      exists k, (k <= 10)%nat /\ pages !! k = Some Ready
                /\ forall j, (j < k)%nat -> pages !! j = Some NoContainers)
  /\ (GiveUp ∈ findVideoPlayers 0 pages ->
      forall j, (j <= 10)%nat -> pages !! j = Some NoContainers)
  /\ (forall before after,
        Forall (fun p => p = NoContainers) before ->
        (length before <= 10)%nat ->
        findVideoPlayers 0 (before ++ NoVideo :: after)
        = retried (length before) ++ [Lookup; NotFound]
        /\ findVideoPlayers 0 (before ++ Ready :: after)
           = retried (length before) ++ [Lookup; Bind]).
Proof.
  destruct (findVideoPlayers_lookups 0 pages) as (H1 & H2 & H3); [lia|].
  destruct (findVideoPlayers_shape 0 pages) as (k & Hk & Hb & Hacts & Hl);
    [lia|].
  split_and!; [| exact H1 | | exact H2 | exact H3 |].
  - exists k. split_and!; [lia | exact Hb | exact Hacts |].
    intros Hp. specialize (Hl Hp). lia.
  - intros ms. rewrite Hacts. intros [Hin|Hin]%elem_of_app.
    + now apply retried_timer in Hin.
    + exfalso. destruct (pages !! k) as [[| |]|]; simpl in Hin;
        not_in_list Hin.
  - intros before after Hbefore Hlen. split.
    + now apply (findVideoPlayers_found 0 before after NoVideo).
    + now apply (findVideoPlayers_found 0 before after Ready).
Qed.

End PlayerFacts.

(** ** The init answer that says the content exists *)

Section InitFacts.

Import Ingestion.

(** X27: For a positive part size: when the init answer says that the
    content exists, the call reports the stage EXISTS with progress 1 and
    resolves at once, without an upload id and with the link of the
    answer made absolute; nothing is ever uploaded, whatever happens
    afterwards. The task then shows Finished with that link, or with an
    empty link when the answer has none. *)
Theorem init_exists_resolves (cfg : config) (status : Z) (body : init_body)
    (evs : list event) (st : state) :
  (0 < partSize cfg)%Z -> (0 <= blob_size cfg)%Z ->
  (preflightResult cfg = None
   \/ exists oid, preflightResult cfg = Some (NotExists oid None)) ->
  ok status = true -> init_exists body = true ->
  run cfg (startIngestion cfg) (InitSettled (Response status body) :: evs)
  = Some st ->
  main st
  = Resolved {| res_uploadId := None;
                res_downloadUrl :=
                  Url.absolutize (base cfg) (init_downloadUrl body) |}
  /\ trace st
     = [ReqInit (total cfg); OnServerStage "EXISTS" 1;
        PromiseResolved
          {| res_uploadId := None;
             res_downloadUrl :=
               Url.absolutize (base cfg) (init_downloadUrl body) |}]
  /\ requested (trace st) = []
  /\ Snackbar.startServerPipeline (trace st)
     = [Snackbar.Waiting Snackbar.W_upload None; Snackbar.Uploading 0;
        Snackbar.Finished
          (match Url.absolutize (base cfg) (init_downloadUrl body) with
           | Some u => u
           | None => ""
           end)].
Proof.
  intros HP HS Hpre Hok Hex Hrun.
  set (r := {| res_uploadId := None;
               res_downloadUrl :=
                 Url.absolutize (base cfg) (init_downloadUrl body) |}).
  set (st0 := {| aborted := false; queue := []; uploaded := 0;
                 uploadId := ""; workers := []; main := AwaitInit;
                 trace := [] |}).
  assert (Hstart : startIngestion cfg = emit [ReqInit (total cfg)] st0).
  { unfold startIngestion.
    destruct Hpre as [Hpre|[oid Hpre]]; now rewrite Hpre. }
  rewrite Hstart in Hrun. rewrite run_cons in Hrun.
  assert (Hstep : step cfg (emit [ReqInit (total cfg)] st0)
                    (InitSettled (Response status body))
                  = Some (resolve r
                            (emit [OnServerStage "EXISTS" 1]
                               (emit [ReqInit (total cfg)] st0)))).
  { unfold step. cbn [main emit st0]. unfold on_init.
    now rewrite Hok, Hex. }
  rewrite Hstep in Hrun.
  destruct (resolved_early_run cfg evs
              (resolve r
                 (emit [OnServerStage "EXISTS" 1]
                    (emit [ReqInit (total cfg)] st0)))
              st r eq_refl eq_refl Hrun)
    as [Hmain Htr].
  assert (Htrace : trace st
                   = [ReqInit (total cfg); OnServerStage "EXISTS" 1;
                      PromiseResolved r]).
  { rewrite Htr. reflexivity. }
  split_and!; [exact Hmain | exact Htrace | now rewrite Htrace |].
  rewrite Htrace. reflexivity.
Qed.

Lemma init_exists_resolves_witness :
  (0 < partSize Examples.cfg1)%Z /\ ok 200 = true
  /\ main (Examples.after Examples.cfg1
             [InitSettled
                (Response 200
                   {| init_uploadId := None; init_exists := true;
                      init_downloadUrl := None |});
              Cancel])
     = Resolved {| res_uploadId := None; res_downloadUrl := None |}.
Proof.
  assert (Hp : (0 < partSize Examples.cfg1)%Z) by reflexivity.
  assert (Hs : (0 <= blob_size Examples.cfg1)%Z) by discriminate.
  assert (Hok : ok 200 = true) by reflexivity.
  split_and!; [exact Hp | exact Hok |].
  assert (Hrun : run Examples.cfg1 (startIngestion Examples.cfg1)
                   [InitSettled
                      (Response 200
                         {| init_uploadId := None; init_exists := true;
                            init_downloadUrl := None |});
                    Cancel]
                 = Some (Examples.after Examples.cfg1
                           [InitSettled
                              (Response 200
                                 {| init_uploadId := None;
                                    init_exists := true;
                                    init_downloadUrl := None |});
                            Cancel])).
  { vm_compute. reflexivity. }
  exact (proj1 (init_exists_resolves Examples.cfg1 200
                  {| init_uploadId := None; init_exists := true;
                     init_downloadUrl := None |} [Cancel] _
                  Hp Hs (or_introl eq_refl) Hok eq_refl Hrun)).
Defined.

End InitFacts.
